(** * enhanced-embedded-queue: the dispatch and lifecycle core

    A shallow embedding of [src/jobRepository.ts] (the [JobRepository] facade
    over the embedded document store) and of the [Queue] class that the same
    source file carries after it, together with the properties the
    specification states about them.

    Conventions.
    - A [Date] is its [getTime()] value, a [number] is an integer, both in [Z];
      a number is printed in decimal (as JavaScript prints integers below
      1e21 in magnitude).
    - An optional field ([x?: T]) is an [option T]; [None] is [undefined].
    - An [async] method is a state transformer that either returns a value or
      throws: [M S A := S -> Result A * S].  Methods run to completion one
      after the other (no interleaving at [await]).
    - The document store (nedb) is external: its content is a list of
      documents, and every call to it first consults an oracle of I/O
      failures carried by the store.  The list stands for the order in which
      the store enumerates its documents; a new document is put last, where
      nedb goes by its index on [_id].  The order matters only among
      documents that compare equal under a sort, and there the properties
      below leave it open. *)

From Stdlib Require Import ZArith Lia Sorted.
From stdpp Require Import base option list gmap strings pretty.

Open Scope Z_scope.

(** ** Results and the state-and-exception monad *)

Record Error := mkError { message : string }.

Inductive Result (A : Type) :=
| Ok (a : A)
| Throw (e : Error).
Arguments Ok {A} a.
Arguments Throw {A} e.

Definition M (S A : Type) : Type := S -> Result A * S.

Definition ret {S A} (a : A) : M S A := fun s => (Ok a, s).

Definition throw {S A} (e : Error) : M S A := fun s => (Throw e, s).

Definition bind {S A B} (m : M S A) (k : A -> M S B) : M S B :=
  fun s => match m s with
           | (Ok a, s') => k a s'
           | (Throw e, s') => (Throw e, s')
           end.

Notation "'let*' x ':=' m 'in' k" := (bind m (fun x => k))
  (at level 10, x pattern, m at level 100, k at level 200).

(** [try { m } catch (error) { h error }] *)
Definition tryCatch {S A} (m : M S A) (h : Error -> M S A) : M S A :=
  fun s => match m s with
           | (Ok a, s') => (Ok a, s')
           | (Throw e, s') => h e s'
           end.

(** [try { m } finally { f }], for a [finally] block that cannot throw. *)
Definition tryFinally {S A} (m : M S A) (f : S -> S) : M S A :=
  fun s => let (r, s') := m s in (r, f s').

Definition isThrow {A} (r : Result A) : bool :=
  match r with Throw _ => true | Ok _ => false end.

(** ** Enumerations *)

Inductive State := INACTIVE | ACTIVE | COMPLETE | FAILURE.

#[global] Instance State_eq_dec : EqDecision State.
Proof. solve_decision. Defined.

(** A numeric [enum]: at run time a [Priority] is a [number]. *)
Definition Priority := Z.

Module Priority.
(** Modelled from the spec: the members of the [Priority] enum
    ([priority.ts] is not among the sources), with the values of the
    persisted document schema. *)
Definition LOW : Priority := 10.
Definition NORMAL : Priority := 0.
Definition MEDIUM : Priority := -5.
Definition HIGH : Priority := -10.
Definition CRITICAL : Priority := -15.

Definition known (p : Z) : bool :=
  (p =? LOW) || (p =? NORMAL) || (p =? MEDIUM) || (p =? HIGH) || (p =? CRITICAL).
End Priority.

(** ** Documents *)

Definition Date := Z.

(** [data?: unknown]: the payload is never inspected. *)
Definition Data := string.

Record NeDbJob := mkNeDbJob {
  _id : string;
  doc_type : string;
  doc_priority : Z;
  doc_data : option Data;
  doc_createdAt : Date;
  doc_updatedAt : Date;
  doc_startedAt : option Date;
  doc_completedAt : option Date;
  doc_failedAt : option Date;
  doc_state : option State;
  doc_duration : option Z;
  doc_progress : option Z;
  doc_logs : list string;
}.

(** ** The document store (nedb, external) *)

Inductive DbOp :=
| OpLoad
| OpFind
| OpFindOne
| OpCount
| OpInsert (id : string)
| OpUpdate (id : string)
| OpRemove (id : string).

Record DataStore := mkDataStore {
  rows : list NeDbJob;           (* the documents, in enumeration order *)
  faults : list (option Error);  (* the I/O failures of the calls to come *)
  oplog : list DbOp;             (* the calls served so far *)
}.

Definition withRows (r : list NeDbJob) (ds : DataStore) : DataStore :=
  mkDataStore r (faults ds) (oplog ds).

(** Every call to the store is logged and may fail with an I/O error. *)
Definition io (op : DbOp) : M DataStore unit :=
  fun ds =>
    match faults ds with
    | [] => (Ok tt, mkDataStore (rows ds) [] (oplog ds ++ [op]))
    | None :: fs => (Ok tt, mkDataStore (rows ds) fs (oplog ds ++ [op]))
    | Some e :: fs => (Throw e, mkDataStore (rows ds) fs (oplog ds ++ [op]))
    end.

(** nedb's [compareNSB] on numbers (and on dates through [getTime]). *)
Definition compareNSB (a b : Z) : Z :=
  if a <? b then -1 else if b <? a then 1 else 0.

(** A sort criterion: a key and a direction, [1] or [-1]. *)
Definition Criterion : Type := (NeDbJob -> Z) * Z.

(** The comparator a cursor builds from [.sort({ k1: d1, k2: d2 })]. *)
Fixpoint compareDocs (criteria : list Criterion) (a b : NeDbJob) : Z :=
  match criteria with
  | [] => 0
  | (key, direction) :: cs =>
      let compare := direction * compareNSB (key a) (key b) in
      if compare =? 0 then compareDocs cs a b else compare
  end.

Fixpoint insertBy {A} (cmp : A -> A -> Z) (x : A) (l : list A) : list A :=
  match l with
  | [] => [x]
  | y :: l' => if cmp x y <=? 0 then x :: y :: l' else y :: insertBy cmp x l'
  end.

(** [Array.prototype.sort] with a comparator (stable). *)
Definition sortBy {A} (cmp : A -> A -> Z) (l : list A) : list A :=
  foldr (insertBy cmp) [] l.

Definition limitOf (n : option nat) (l : list NeDbJob) : list NeDbJob :=
  match n with
  | None => l
  | Some k => take k l
  end.

(** [db.find(query).sort(criteria).limit(n)] *)
Definition db_find (query : NeDbJob -> bool) (criteria : list Criterion)
    (limit : option nat) : M DataStore (list NeDbJob) :=
  let* _ := io OpFind in
  fun ds => (Ok (limitOf limit (sortBy (compareDocs criteria) (filter (fun d => query d = true) (rows ds)))), ds).

(** [db.findOne({ _id: id })] *)
Definition db_findOne (id : string) : M DataStore (option NeDbJob) :=
  let* _ := io OpFindOne in
  fun ds => (Ok (head (filter (fun d => _id d = id) (rows ds))), ds).

(** [db.count({ _id: id })] *)
Definition db_count (id : string) : M DataStore Z :=
  let* _ := io OpCount in
  fun ds => (Ok (Z.of_nat (length (filter (fun d => _id d = id) (rows ds)))), ds).

Definition uniqueViolated (id : string) : Error :=
  mkError ("Can't insert key " +:+ id +:+ ", it violates the unique constraint").

(** [db.insert(doc)]: [_id] is a unique index. *)
Definition db_insert (doc : NeDbJob) : M DataStore NeDbJob :=
  let* _ := io (OpInsert (_id doc)) in
  fun ds =>
    if bool_decide (_id doc ∈ map _id (rows ds))
    then (Throw (uniqueViolated (_id doc)), ds)
    else (Ok doc, withRows (rows ds ++ [doc]) ds).

(** Replace the first document whose [_id] is [id]; the count of replaced
    documents comes with the new list. *)
Fixpoint updateFirst (id : string) (f : NeDbJob -> NeDbJob) (l : list NeDbJob)
    : Z * list NeDbJob :=
  match l with
  | [] => (0, [])
  | d :: l' =>
      if bool_decide (_id d = id) then (1, f d :: l')
      else let (n, r) := updateFirst id f l' in (n, d :: r)
  end.

(** [db.update({ _id: id }, { $set: ... }, {})]: without [multi], at most one
    document is modified; the result is the number of documents affected. *)
Definition db_update (id : string) (set : NeDbJob -> NeDbJob) : M DataStore Z :=
  let* _ := io (OpUpdate id) in
  fun ds => let (n, r) := updateFirst id set (rows ds) in (Ok n, withRows r ds).

Fixpoint removeFirst (id : string) (l : list NeDbJob) : list NeDbJob :=
  match l with
  | [] => []
  | d :: l' => if bool_decide (_id d = id) then l' else d :: removeFirst id l'
  end.

(** [db.remove({ _id: id }, {})] *)
Definition db_remove (id : string) : M DataStore unit :=
  let* _ := io (OpRemove id) in
  fun ds => (Ok tt, withRows (removeFirst id (rows ds)) ds).

(** ** Jobs *)

(** The object literal handed to [new Job(...)] (the [queue] back-reference
    is left out: there is one queue). *)
Record JobConstructorData := mkJobConstructorData {
  jcd_id : string;
  jcd_type : string;
  jcd_priority : option Priority;
  jcd_data : option Data;
  jcd_createdAt : Date;
  jcd_updatedAt : Date;
  jcd_startedAt : option Date;
  jcd_completedAt : option Date;
  jcd_failedAt : option Date;
  jcd_state : option State;
  jcd_duration : option Z;
  jcd_progress : option Z;
  jcd_logs : list string;
  jcd_saved : bool;
}.

(** A job in memory: the fields [convertNeDbJobToJob] hands to the
    constructor, with the priority and the state always set. *)
Record Job := mkJob {
  id : string;
  type : string;
  priority : Priority;
  data : option Data;
  createdAt : Date;
  updatedAt : Date;
  startedAt : option Date;
  completedAt : option Date;
  failedAt : option Date;
  state : State;
  duration : option Z;
  progress : option Z;
  logs : list string;
  saved : bool;
}.

(** ** JobRepository *)

Module JobRepository.

Definition init : M DataStore unit := io OpLoad.

Definition listJobs (state : option State) : M DataStore (list NeDbJob) :=
  let query := match state with
               | None => fun _ => true
               | Some st => fun d => bool_decide (doc_state d = Some st)
               end in
  db_find query [(doc_createdAt, 1)] None.

Definition findJob (id : string) : M DataStore (option NeDbJob) :=
  db_findOne id.

Definition findInactiveJobByType (type : string) : M DataStore (option NeDbJob) :=
  let* docs :=
    db_find (fun d => bool_decide (doc_type d = type)
                      && bool_decide (doc_state d = Some INACTIVE))
            [(doc_priority, -1); (doc_createdAt, 1)]
            (Some 1%nat) in
  ret (match docs with
       | [] => None
       | d :: _ => Some d
       end).

Definition isExistJob (id : string) : M DataStore bool :=
  let* n := db_count id in
  ret (n =? 1).

(** The document [addJob] builds from a job. *)
Definition insertDoc (job : Job) : NeDbJob :=
  mkNeDbJob (id job) (type job) (priority job) (data job) (createdAt job)
            (updatedAt job) None None None (Some (state job)) None None
            (logs job).

Definition addJob (job : Job) : M DataStore NeDbJob :=
  db_insert (insertDoc job).

(** The [$set] of [updateJob] applied to a document. *)
Definition updateQuery (job : Job) (d : NeDbJob) : NeDbJob :=
  mkNeDbJob (_id d) (doc_type d) (priority job) (data job) (createdAt job)
            (updatedAt job) (startedAt job) (completedAt job) (failedAt job)
            (Some (state job)) (duration job) (progress job) (logs job).

Definition unexpectedRows (numAffected : Z) : Error :=
  mkError ("update unexpected number of rows. (expected: 1, actual: "
           +:+ pretty numAffected +:+ ")").

Definition updateJob (job : Job) : M DataStore unit :=
  let* numAffected := db_update (id job) (updateQuery job) in
  if negb (numAffected =? 1)
  then throw (unexpectedRows numAffected)
  else ret tt.

Definition removeJob (id : string) : M DataStore unit :=
  db_remove id.

End JobRepository.


(** ** Events *)

Module Event.
(** Modelled from the spec: the kinds of the [Event] enum ([event.ts] is
    not among the sources). *)
Inductive t := Error | Enqueue | Start | Progress | Complete | Failure | Remove.
End Event.

(** One call of [emit(kind, ...)], with the error and the job it carries. *)
Record Emission := mkEmission {
  em_event : Event.t;
  em_error : option Error;
  em_job : option Job;
}.

Record CreateJobData := mkCreateJobData {
  cjd_type : string;
  cjd_priority : option Priority;
  cjd_data : option Data;
}.

(** What a caller of [requestJobForProcessing] holds when the call hands
    control back: the value the promise resolved with, a promise parked on
    the waiting list, or a call still waiting for the mutex. *)
Inductive Requested :=
| Returned (job : option Job)
| Parked (promise : nat)
| Suspended.

(** ** Plain objects used as maps

    [waitingRequests] is created as [{}].  Reading [this.waitingRequests[type]]
    for a type that is not one of its own properties finds what
    [Object.prototype] holds under that name. *)

(** The members of [Object.prototype], with the [length] of those that are
    functions; [__proto__] reads as [Object.prototype] itself, which has no
    [length]. *)
Definition Object_prototype : gmap string (option nat) :=
  list_to_map
    [("constructor", Some 1%nat); ("hasOwnProperty", Some 1%nat);
     ("isPrototypeOf", Some 1%nat); ("propertyIsEnumerable", Some 1%nat);
     ("toLocaleString", Some 0%nat); ("toString", Some 0%nat);
     ("valueOf", Some 0%nat);
     ("__defineGetter__", Some 2%nat); ("__defineSetter__", Some 2%nat);
     ("__lookupGetter__", Some 1%nat); ("__lookupSetter__", Some 1%nat);
     ("__proto__", None)].

(** The [TypeError] of a call of a method the value does not have. *)
Definition notAFunction (callee : string) : Error :=
  mkError (callee +:+ " is not a function").

Section QueueModel.
(** What the [stillRequest] closures of the workers read. *)
Context {World : Type}.

(** [reject] is stored and never called: a request is the promise its
    [resolve] settles and its [stillRequest] closure. *)
Record WaitingWorkerRequest := mkRequest {
  resolve : nat;
  stillRequest : World -> bool;
}.

Record QueueState := mkQueue {
  repository : DataStore;
  waitingRequests : gmap string (list WaitingWorkerRequest);  (* own properties *)
  mutexLocked : bool;             (* requestJobForProcessingMutex *)
  mutexAcquired : nat;            (* how often it has been acquired *)
  emitted : list Emission;        (* the calls of emit, oldest first *)
  warnings : list string;         (* the calls of console.warn *)
  promises : nat;                 (* the promises created so far *)
  nextTick : list (nat * Job);    (* resolve calls queued by process.nextTick *)
  resolved : list (nat * Job);    (* promises resolved, with their value *)
  clock : Date;                   (* what new Date() reads *)
  uuids : list string;            (* what uuid() will return *)
  world : World;
}.

Definition setRepository (ds : DataStore) (s : QueueState) : QueueState :=
  mkQueue ds (waitingRequests s) (mutexLocked s) (mutexAcquired s) (emitted s)
          (warnings s) (promises s) (nextTick s) (resolved s) (clock s)
          (uuids s) (world s).

Definition setWaitingRequests (w : gmap string (list WaitingWorkerRequest))
    (s : QueueState) : QueueState :=
  mkQueue (repository s) w (mutexLocked s) (mutexAcquired s) (emitted s)
          (warnings s) (promises s) (nextTick s) (resolved s) (clock s)
          (uuids s) (world s).

Definition setMutex (locked : bool) (acquired : nat) (s : QueueState) : QueueState :=
  mkQueue (repository s) (waitingRequests s) locked acquired (emitted s)
          (warnings s) (promises s) (nextTick s) (resolved s) (clock s)
          (uuids s) (world s).

Definition setEmitted (l : list Emission) (s : QueueState) : QueueState :=
  mkQueue (repository s) (waitingRequests s) (mutexLocked s) (mutexAcquired s) l
          (warnings s) (promises s) (nextTick s) (resolved s) (clock s)
          (uuids s) (world s).

Definition setWarnings (l : list string) (s : QueueState) : QueueState :=
  mkQueue (repository s) (waitingRequests s) (mutexLocked s) (mutexAcquired s)
          (emitted s) l (promises s) (nextTick s) (resolved s) (clock s)
          (uuids s) (world s).

Definition setPromises (n : nat) (s : QueueState) : QueueState :=
  mkQueue (repository s) (waitingRequests s) (mutexLocked s) (mutexAcquired s)
          (emitted s) (warnings s) n (nextTick s) (resolved s) (clock s)
          (uuids s) (world s).

Definition setTicks (ticks done : list (nat * Job)) (s : QueueState) : QueueState :=
  mkQueue (repository s) (waitingRequests s) (mutexLocked s) (mutexAcquired s)
          (emitted s) (warnings s) (promises s) ticks done (clock s)
          (uuids s) (world s).

Definition setUuids (l : list string) (s : QueueState) : QueueState :=
  mkQueue (repository s) (waitingRequests s) (mutexLocked s) (mutexAcquired s)
          (emitted s) (warnings s) (promises s) (nextTick s) (resolved s)
          (clock s) l (world s).

(** What [this.waitingRequests[type]] evaluates to: the list stored under
    the type, or else the member of [Object.prototype] of that name, or else
    [undefined]. *)
Inductive Looked :=
| Undefined
| Requests (requests : list WaitingWorkerRequest)
| Member (length : option nat).

Definition lookupRequests (type : string) (s : QueueState) : Looked :=
  match waitingRequests s !! type with
  | Some requests => Requests requests
  | None =>
      match Object_prototype !! type with
      | Some length => Member length
      | None => Undefined
      end
  end.

(** A call of the repository from the queue. *)
Definition liftDb {A} (m : M DataStore A) : M QueueState A :=
  fun s => let (r, ds) := m (repository s) in (r, setRepository ds s).

Definition emit (kind : Event.t) (error : option Error) (job : option Job)
    : M QueueState unit :=
  fun s => (Ok tt, setEmitted (emitted s ++ [mkEmission kind error job]) s).

Definition consoleWarn (msg : string) : M QueueState unit :=
  fun s => (Ok tt, setWarnings (warnings s ++ [msg]) s).

(** [new Date()] *)
Definition newDate : M QueueState Date := fun s => (Ok (clock s), s).

(** [uuid()] *)
Definition uuid : M QueueState string :=
  fun s => match uuids s with
           | [] => (Ok "", s)
           | u :: us => (Ok u, setUuids us s)
           end.

(** [process.nextTick(() => request.resolve(job))] *)
Definition deferResolve (request : WaitingWorkerRequest) (job : Job)
    : M QueueState unit :=
  fun s => (Ok tt, setTicks (nextTick s ++ [(resolve request, job)]) (resolved s) s).

(** The next scheduling opportunity: the queued callbacks run. *)
Definition runNextTick (s : QueueState) : QueueState :=
  setTicks [] (resolved s ++ nextTick s) s.

(** The [catch] block of the queue's methods:
    [this.emit(Event.Error, error, job); throw error;] *)
Definition emitAndRethrow {A} (job : option Job) (error : Error) : M QueueState A :=
  let* _ := emit Event.Error (Some error) job in
  throw error.

(** *** Queue: the static and package-level methods *)

Definition Queue_sanitizePriority (priority : Z) : M QueueState Priority :=
  if (priority =? Priority.LOW) || (priority =? Priority.NORMAL)
     || (priority =? Priority.MEDIUM) || (priority =? Priority.HIGH)
     || (priority =? Priority.CRITICAL)
  then ret priority
  else
    let* _ := consoleWarn ("Invalid Priority: " +:+ pretty priority) in
    ret Priority.NORMAL.

(** Modelled from the spec: the constructor of [Job] ([job.ts] is not among
    the sources).  It copies the fields it is given; the state defaults to
    INACTIVE when omitted; the priority defaults to NORMAL when omitted and
    is coerced through the sanitizer used on load. *)
Definition newJob (c : JobConstructorData) : M QueueState Job :=
  let* p := Queue_sanitizePriority (default Priority.NORMAL (jcd_priority c)) in
  ret (mkJob (jcd_id c) (jcd_type c) p (jcd_data c) (jcd_createdAt c)
             (jcd_updatedAt c) (jcd_startedAt c) (jcd_completedAt c)
             (jcd_failedAt c) (default INACTIVE (jcd_state c)) (jcd_duration c)
             (jcd_progress c) (jcd_logs c) (jcd_saved c)).

Definition Queue_convertNeDbJobToJob (neDbJob : NeDbJob) : M QueueState Job :=
  let* p := Queue_sanitizePriority (doc_priority neDbJob) in
  newJob (mkJobConstructorData
            (_id neDbJob) (doc_type neDbJob) (Some p) (doc_data neDbJob)
            (doc_createdAt neDbJob) (doc_updatedAt neDbJob)
            (doc_startedAt neDbJob) (doc_completedAt neDbJob)
            (doc_failedAt neDbJob) (doc_state neDbJob)
            (doc_duration neDbJob) (doc_progress neDbJob)
            (doc_logs neDbJob) true).

Definition Queue_isExistJob (job : Job) : M QueueState bool :=
  liftDb (JobRepository.isExistJob (id job)).

Definition Queue_updateJob (job : Job) : M QueueState unit :=
  tryCatch (liftDb (JobRepository.updateJob job))
           (emitAndRethrow (Some job)).

Definition Queue_removeJob (job : Job) : M QueueState unit :=
  tryCatch (liftDb (JobRepository.removeJob (id job)))
           (emitAndRethrow (Some job)).

(** *** Job: the methods the queue calls *)

(** The errors of the job methods.  The spec gives the message of the second
    one; the other two it names without their message. *)
Definition notSaved : Error := mkError "not saved".
Definition alreadySaved : Error := mkError "already saved".
Definition illegalTransition : Error := mkError "illegal state transition".

Definition withActive (now : Date) (j : Job) : Job :=
  mkJob (id j) (type j) (priority j) (data j) (createdAt j) now (Some now)
        (completedAt j) (failedAt j) ACTIVE (duration j) (progress j)
        (logs j) (saved j).

Definition withFailure (now : Date) (error : Error) (j : Job) : Job :=
  mkJob (id j) (type j) (priority j) (data j) (createdAt j) (updatedAt j)
        (startedAt j) (completedAt j) (Some now) FAILURE
        ((fun started => now - started) <$> startedAt j) (progress j)
        (logs j ++ [message error]) (saved j).

Definition withSaved (j : Job) : Job :=
  mkJob (id j) (type j) (priority j) (data j) (createdAt j) (updatedAt j)
        (startedAt j) (completedAt j) (failedAt j) (state j) (duration j)
        (progress j) (logs j) true.

(** Modelled from the spec: [Job.update] ([job.ts] is not among the
    sources) persists the current attributes; it fails if the job is not
    yet saved or if the row has been removed. *)
Definition Job_update (j : Job) : M QueueState unit :=
  if negb (saved j) then throw notSaved else Queue_updateJob j.

(** Modelled from the spec: [Job.remove] deletes the job from storage; it
    fails if the job is not saved.  The spec names no event for it, and
    none is emitted here. *)
Definition Job_remove (j : Job) : M QueueState unit :=
  if negb (saved j) then throw notSaved else Queue_removeJob j.

(** Modelled from the spec: [Job.setStateToActive] is legal only from
    INACTIVE; it sets state=ACTIVE, startedAt=now, updatedAt=now and
    persists.  An illegal transition fails and changes nothing. *)
Definition Job_setStateToActive (j : Job) : M QueueState Job :=
  if negb (bool_decide (state j = INACTIVE)) then throw illegalTransition
  else
    let* now := newDate in
    let j' := withActive now j in
    let* _ := Job_update j' in
    ret j'.

(** Modelled from the spec: [Job.setStateToFailure] is legal from ACTIVE;
    it sets state=FAILURE, failedAt=now, duration=failedAt-startedAt,
    appends the error message to the logs, persists, and emits [Failure]
    with the error. *)
Definition Job_setStateToFailure (error : Error) (j : Job) : M QueueState Job :=
  if negb (bool_decide (state j = ACTIVE)) then throw illegalTransition
  else
    let* now := newDate in
    let j' := withFailure now error j in
    let* _ := Job_update j' in
    let* _ := emit Event.Failure (Some error) (Some j') in
    ret j'.

(** *** Queue: the hand-off of a new job *)

(** The [while] loop of [addJob]: requests are shifted off the head of the
    list until one still wants a job or the list is empty. *)
Fixpoint shiftUntilRequested (w : World) (l : list WaitingWorkerRequest)
    : option WaitingWorkerRequest * list WaitingWorkerRequest :=
  match l with
  | [] => (None, [])
  | headRequest :: l' =>
      if stillRequest headRequest w then (Some headRequest, l')
      else shiftUntilRequested w l'
  end.

Definition Queue_addJob (job : Job) : M QueueState unit :=
  tryCatch
    (let* neDbJob := liftDb (JobRepository.addJob job) in
     fun s =>
       match lookupRequests (type job) s with
       | Undefined => (Ok tt, s)
       | Member _ =>
           (Throw (notAFunction "this.waitingRequests[job.type].shift"), s)
       | Requests requests =>
           let (processRequest, rest) := shiftUntilRequested (world s) requests in
           let s1 := setWaitingRequests (<[type job := rest]> (waitingRequests s)) s in
           match processRequest with
           | None => (Ok tt, s1)
           | Some request =>
               (let* addedJob := Queue_convertNeDbJobToJob neDbJob in
                let* addedJob := Job_setStateToActive addedJob in
                deferResolve request addedJob) s1
           end
       end)
    (emitAndRethrow (Some job)).

(** Modelled from the spec: [Job.save] inserts on the first call and fails
    with "already saved" afterwards; it returns the job itself. *)
Definition Job_save (j : Job) : M QueueState Job :=
  if saved j then throw alreadySaved
  else
    let* _ := Queue_addJob j in
    ret (withSaved j).

(** *** Queue: the public methods *)

Definition Queue_createJob (data : CreateJobData) : M QueueState Job :=
  let* now := newDate in
  let* i := uuid in
  let* job := newJob (mkJobConstructorData
                        i (cjd_type data) (cjd_priority data) (cjd_data data)
                        now now None None None None None None [] false) in
  Job_save job.

Definition Queue_findJob (i : string) : M QueueState (option Job) :=
  tryCatch
    (let* neDbJob := liftDb (JobRepository.findJob i) in
     match neDbJob with
     | None => ret None
     | Some d => let* job := Queue_convertNeDbJobToJob d in ret (Some job)
     end)
    (emitAndRethrow None).

(** [docs.map((neDbJob) => this.convertNeDbJobToJob(neDbJob))] *)
Fixpoint convertAll (docs : list NeDbJob) : M QueueState (list Job) :=
  match docs with
  | [] => ret []
  | d :: docs' =>
      let* job := Queue_convertNeDbJobToJob d in
      let* jobs := convertAll docs' in
      ret (job :: jobs)
  end.

Definition Queue_listJobs (st : option State) : M QueueState (list Job) :=
  tryCatch
    (let* docs := liftDb (JobRepository.listJobs st) in
     convertAll docs)
    (emitAndRethrow None).

Definition notFound (i : string) : Error :=
  mkError ("Job(id:" +:+ i +:+ ") is not found.").

Definition Queue_removeJobById (i : string) : M QueueState unit :=
  let* neDbJob := tryCatch (liftDb (JobRepository.findJob i))
                           (emitAndRethrow None) in
  match neDbJob with
  | None => throw (notFound i)
  | Some d =>
      let* job := Queue_convertNeDbJobToJob d in
      tryCatch (Job_remove job) (emitAndRethrow (Some job))
  end.

(** The local variables of [removeJobsByCallback] that outlive an
    iteration: [removedJobs] and [job]. *)
Record RemoveLocals := mkRemoveLocals {
  removedJobs : list Job;
  currentJob : option Job;
}.

Definition onQueue {A} (m : M QueueState A) : M (QueueState * RemoveLocals) A :=
  fun '(s, v) => let (r, s') := m s in (r, (s', v)).

Definition setCurrentJob (j : option Job) : M (QueueState * RemoveLocals) unit :=
  fun '(s, v) => (Ok tt, (s, mkRemoveLocals (removedJobs v) j)).

Definition pushRemoved (j : Job) : M (QueueState * RemoveLocals) unit :=
  fun '(s, v) => (Ok tt, (s, mkRemoveLocals (removedJobs v ++ [j]) (currentJob v))).

(** The predicate of the caller: it answers or throws. *)
Definition callCallback (callback : Job -> Result bool) (j : Job)
    : M (QueueState * RemoveLocals) bool :=
  fun sv => (callback j, sv).

(** [for (const neDbJob of neDbJobs) { ... }] *)
Fixpoint removeEach (callback : Job -> Result bool) (neDbJobs : list NeDbJob)
    : M (QueueState * RemoveLocals) unit :=
  match neDbJobs with
  | [] => ret tt
  | neDbJob :: rest =>
      let* job := onQueue (Queue_convertNeDbJobToJob neDbJob) in
      let* _ := setCurrentJob (Some job) in
      let* hit := callCallback callback job in
      let* _ := if hit
                then let* _ := pushRemoved job in onQueue (Job_remove job)
                else ret tt in
      let* _ := setCurrentJob None in
      removeEach callback rest
  end.

Definition Queue_removeJobsByCallback (callback : Job -> Result bool)
    : M QueueState (list Job) :=
  fun s =>
    let body :=
      tryCatch
        (let* neDbJobs := onQueue (liftDb (JobRepository.listJobs None)) in
         removeEach callback neDbJobs)
        (fun error '(s', v) =>
           onQueue (emitAndRethrow (currentJob v) error) (s', v)) in
    match body (s, mkRemoveLocals [] None) with
    | (Ok _, (s', v)) => (Ok (removedJobs v), s')
    | (Throw e, (s', _)) => (Throw e, s')
    end.

(** The [TypeError] of a method call on [undefined]. *)
Definition undefinedPush : Error :=
  mkError "Cannot read properties of undefined (reading 'push')".

(** What [requestJobForProcessing] hands to [return]: a value, or the
    promise [new Promise(executor)] made of an executor that threw, which is
    rejected with the error.  Such a promise is returned, not thrown: the
    [catch] block does not run, the [finally] block does, and the caller
    gets the error. *)
Inductive Returns :=
| Value (r : Requested)
| RejectedPromise (e : Error).

Definition settle (x : Result Returns * QueueState) : Result Requested * QueueState :=
  match x with
  | (Ok (Value r), s) => (Ok r, s)
  | (Ok (RejectedPromise e), s) => (Throw e, s)
  | (Throw e, s) => (Throw e, s)
  end.

(** [new Promise((resolve, reject) =>
       this.waitingRequests[type].push({ resolve, reject, stillRequest }))] *)
Definition parkRequest (type : string) (stillRequest : World -> bool)
    : M QueueState Returns :=
  fun s =>
    let p := promises s in
    match lookupRequests type s with
    | Requests requests =>
        (Ok (Value (Parked p)),
         setPromises (S p)
           (setWaitingRequests
              (<[type := requests ++ [mkRequest p stillRequest]]> (waitingRequests s))
              s))
    | Undefined => (Ok (RejectedPromise undefinedPush), setPromises (S p) s)
    | Member _ =>
        (Ok (RejectedPromise (notAFunction "this.waitingRequests[type].push")),
         setPromises (S p) s)
    end.

(** [this.waitingRequests[type] !== undefined
     && this.waitingRequests[type].length > 0] *)
Definition someoneWaiting (type : string) (s : QueueState) : bool :=
  match lookupRequests type s with
  | Requests (_ :: _) => true
  | Member (Some (S _)) => true
  | _ => false
  end.

(** The [try] block of [requestJobForProcessing]. *)
Definition requestUnderMutex (type : string) (stillRequest : World -> bool)
    : M QueueState Returns :=
  let* neDbJob := liftDb (JobRepository.findInactiveJobByType type) in
  match neDbJob with
  | None =>
      let* _ :=
        fun s' =>
          match lookupRequests type s' with
          | Undefined =>
              (Ok tt, setWaitingRequests (<[type := []]> (waitingRequests s')) s')
          | _ => (Ok tt, s')
          end in
      parkRequest type stillRequest
  | Some d =>
      fun s' =>
        if stillRequest (world s')
        then (let* job := Queue_convertNeDbJobToJob d in
              let* job := Job_setStateToActive job in
              ret (Value (Returned (Some job)))) s'
        else (Ok (Value (Returned None)), s')
  end.

Definition Queue_requestJobForProcessing (type : string)
    (stillRequest : World -> bool) : M QueueState Requested :=
  fun s =>
    if someoneWaiting type s
    then settle (parkRequest type stillRequest s)
    else if mutexLocked s then (Ok Suspended, s)
    else
      settle
        (tryFinally
           (tryCatch (requestUnderMutex type stillRequest) (emitAndRethrow None))
           (fun s' => setMutex false (mutexAcquired s') s')
           (setMutex true (S (mutexAcquired s)) s)).

(** *** Queue: start-up *)

Definition unexpectedlyTermination : Error := mkError "unexpectedly termination".

(** [for (const job of jobsNeedCleanup) { await job.setStateToFailure(...) }] *)
Fixpoint failEach (jobs : list Job) : M QueueState unit :=
  match jobs with
  | [] => ret tt
  | job :: jobs' =>
      let* _ := Job_setStateToFailure unexpectedlyTermination job in
      failEach jobs'
  end.

Definition Queue_cleanupAfterUnexpectedlyTermination : M QueueState unit :=
  let* jobsNeedCleanup := Queue_listJobs (Some ACTIVE) in
  failEach jobsNeedCleanup.

(** [new Queue(dbOptions)]: the store is the one the options name, with
    the documents a previous run left in it. *)
Definition Queue_new (persisted : DataStore) (now : Date) (ids : list string)
    (w : World) : QueueState :=
  mkQueue persisted ∅ false 0 [] [] 0 [] [] now ids w.

Definition Queue_createQueue (persisted : DataStore) (now : Date)
    (ids : list string) (w : World) : Result unit * QueueState :=
  (let* _ := liftDb JobRepository.init in
   Queue_cleanupAfterUnexpectedlyTermination)
    (Queue_new persisted now ids w).

End QueueModel.

Arguments WaitingWorkerRequest : clear implicits.
Arguments QueueState : clear implicits.
Arguments RemoveLocals : clear implicits.
Arguments Looked : clear implicits.

(** ** The worker registry

    [_workers] is a reference to an array, and the [workers] getter hands an
    array to the caller: arrays live in a heap, and a caller may mutate any
    array it holds a reference to. *)

(** Modelled from the spec: a [Worker] ([worker.ts] is not among the
    sources) is bound to one job type at construction; two workers are the
    same object when they have the same identity. *)
Record Worker := mkWorker {
  worker_id : nat;
  worker_type : string;
}.

#[global] Instance Worker_eq_dec : EqDecision Worker.
Proof. solve_decision. Defined.

(** The calls the queue makes on its workers. *)
Inductive WorkerCall :=
| Start (w : Worker) (processor : nat)
| Shutdown (w : Worker) (timeoutMilliseconds : Z).

Record Registry := mkRegistry {
  arrays : gmap nat (list Worker);  (* the heap of worker arrays *)
  _workers : nat;                   (* the array this._workers refers to *)
  created : nat;                    (* the workers constructed so far *)
  calls : list WorkerCall;          (* the calls made on workers, oldest first *)
}.

(** The content of the array [this._workers] refers to. *)
Definition registered (r : Registry) : list Worker :=
  default [] (arrays r !! _workers r).

(** [this._workers = []] in the constructor. *)
Definition Registry_new : Registry := mkRegistry {[ 0%nat := [] ]} 0 0 [].

(** [get workers() { return [...this._workers]; }]: a new array with the
    same elements; the result is the reference to it. *)
Definition Queue_workers (r : Registry) : nat * Registry :=
  let copy := fresh (dom (arrays r)) in
  (copy, mkRegistry (<[copy := registered r]> (arrays r)) (_workers r)
                    (created r) (calls r)).

(** What a caller can do with an array it holds: any change of its content
    ([push], [pop], [splice], an assignment to an index or to [length]). *)
Definition mutateArray (ref : nat) (f : list Worker -> list Worker)
    (r : Registry) : Registry :=
  mkRegistry (alter f ref (arrays r)) (_workers r) (created r) (calls r).

(** One iteration of the loop of [process]. *)
Definition spawn (type : string) (processor : nat) (r : Registry) : Registry :=
  let worker := mkWorker (created r) type in
  mkRegistry (alter (fun a => a ++ [worker]) (_workers r) (arrays r))
             (_workers r) (S (created r)) (calls r ++ [Start worker processor]).

(** [for (let i = 0; i < concurrency; i++) { ... }] *)
Definition Queue_process (type : string) (processor : nat) (concurrency : Z)
    (r : Registry) : Registry :=
  Nat.iter (Z.to_nat concurrency) (spawn type processor) r.

(** The workers the loop of [shutdown] does not skip:
    [if (type !== undefined && worker.type !== type) continue;] *)
Definition targeted (type : option string) (worker : Worker) : bool :=
  match type with
  | Some t => bool_decide (worker_type worker = t)
  | None => true
  end.

Definition Queue_shutdown (timeoutMilliseconds : Z) (type : option string)
    (r : Registry) : Registry :=
  let shutdownWorkers :=
    filter (fun worker => targeted type worker = true) (registered r) in
  let kept := filter (fun worker => worker ∉ shutdownWorkers) (registered r) in
  let ref := fresh (dom (arrays r)) in
  mkRegistry (<[ref := kept]> (arrays r)) ref (created r)
             (calls r ++ map (fun w => Shutdown w timeoutMilliseconds) shutdownWorkers).

(** What [process] and [shutdown] leave to observe: the registered workers
    and the calls made on workers. *)
Definition observed (r : Registry) : list Worker * list WorkerCall :=
  (registered r, calls r).

(** [this._workers] refers to an array of the heap. *)
Definition registryAllocated (r : Registry) : Prop :=
  is_Some (arrays r !! _workers r).

(** * Notions the properties are stated with *)

(** What [sanitizePriority] returns. *)
Definition sanitized (p : Z) : Priority :=
  if Priority.known p then p else Priority.NORMAL.

Definition invalidPriority (p : Z) : string := "Invalid Priority: " +:+ pretty p.

(** The job [convertNeDbJobToJob] builds from a document. *)
Definition converted (d : NeDbJob) : Job :=
  mkJob (_id d) (doc_type d) (sanitized (doc_priority d)) (doc_data d)
        (doc_createdAt d) (doc_updatedAt d) (doc_startedAt d)
        (doc_completedAt d) (doc_failedAt d) (default INACTIVE (doc_state d))
        (doc_duration d) (doc_progress d) (doc_logs d) true.

(** The state after the warning, if any, of [sanitizePriority p]. *)
Definition warned {World} (p : Z) (s : QueueState World) : QueueState World :=
  if Priority.known p then s
  else setWarnings (warnings s ++ [invalidPriority p]) s.

(** The [Error] emission of a [catch] block. *)
Definition errorEmission (e : Error) (j : option Job) : Emission :=
  mkEmission Event.Error (Some e) j.

(** The store after a call [op] that did not fail and left the documents
    [l]. *)
Definition served (op : DbOp) (l : list NeDbJob) (ds : DataStore) : DataStore :=
  mkDataStore l (tail (faults ds)) (oplog ds ++ [op]).

(** The methods of the queue that work on jobs or on the store, with their
    arguments. *)
Inductive QueueCall {World : Type} :=
| CallFindJob (i : string)
| CallListJobs (st : option State)
| CallRemoveJobById (i : string)
| CallRemoveJobsByCallback (callback : Job -> Result bool)
| CallRequestJobForProcessing (type : string) (stillRequest : World -> bool)
| CallAddJob (job : Job)
| CallUpdateJob (job : Job)
| CallRemoveJob (job : Job).
Arguments QueueCall : clear implicits.

(** The error a computation ended with, if any. *)
Definition thrown {S A} (x : Result A * S) : option Error * S :=
  (match fst x with
   | Throw e => Some e
   | Ok _ => None
   end, snd x).

(** The error a call ends with, if any, and the state it leaves. *)
Definition raisedBy {World} (c : QueueCall World) (s : QueueState World)
    : option Error * QueueState World :=
  match c with
  | CallFindJob i => thrown (Queue_findJob i s)
  | CallListJobs st => thrown (Queue_listJobs st s)
  | CallRemoveJobById i => thrown (Queue_removeJobById i s)
  | CallRemoveJobsByCallback callback => thrown (Queue_removeJobsByCallback callback s)
  | CallRequestJobForProcessing type stillRequest =>
      thrown (Queue_requestJobForProcessing type stillRequest s)
  | CallAddJob job => thrown (Queue_addJob job s)
  | CallUpdateJob job => thrown (Queue_updateJob job s)
  | CallRemoveJob job => thrown (Queue_removeJob job s)
  end.

(** The next [k] calls to the store are served. *)
Definition servedNext (k : nat) (f : list (option Error)) : Prop :=
  Forall (fun x => x = None) (take k f).

(** The rows left when the rows of the jobs [removed] are deleted one by
    one. *)
Definition without (removed : list Job) (l : list NeDbJob) : list NeDbJob :=
  foldl (fun rs j => removeFirst (id j) rs) l removed.

(** The predicate of [removeJobsByCallback] answered [true]. *)
Definition accepts (callback : Job -> Result bool) (j : Job) : bool :=
  match callback j with
  | Ok true => true
  | _ => false
  end.

(** The jobs of the documents [docs] the predicate accepts, in order. *)
Definition accepted (callback : Job -> Result bool) (docs : list NeDbJob) : list Job :=
  filter (fun j => accepts callback j = true) (map converted docs).

(** The documents [listJobs(state)] returns from the rows [l]. *)
Definition listed (st : option State) (l : list NeDbJob) : list NeDbJob :=
  sortBy (compareDocs [(doc_createdAt, 1)])
         (filter (fun d => match st with
                           | None => fun _ => true
                           | Some x => fun d => bool_decide (doc_state d = Some x)
                           end d = true) l).

(** What crash recovery makes of one row, for the error it fails jobs with:
    an ACTIVE row is in FAILURE, failed now, with the error message appended
    to its logs and its identity, type, payload and creation date kept; any
    other row is unchanged. *)
Definition recoveredRow (error : Error) (now : Date) (d d' : NeDbJob) : Prop :=
  if bool_decide (doc_state d = Some ACTIVE)
  then _id d' = _id d /\ doc_type d' = doc_type d /\ doc_data d' = doc_data d /\
       doc_createdAt d' = doc_createdAt d /\
       doc_state d' = Some FAILURE /\ doc_failedAt d' = Some now /\
       doc_logs d' = doc_logs d ++ [message error]
  else d' = d.

Definition crashRecovered (error : Error) (now : Date)
    (before after : list NeDbJob) : Prop :=
  Forall2 (recoveredRow error now) before after.

(** The row crash recovery writes for a document that was ACTIVE. *)
Definition failedRow (now : Date) (d : NeDbJob) : NeDbJob :=
  JobRepository.updateQuery (withFailure now unexpectedlyTermination (converted d)) d.

(** The [Failure] event crash recovery emits for a document. *)
Definition failureEmission (now : Date) (d : NeDbJob) : Emission :=
  mkEmission Event.Failure (Some unexpectedlyTermination)
             (Some (withFailure now unexpectedlyTermination (converted d))).

(** The state after the warnings, if any, of converting the documents
    [docs] one after the other. *)
Definition warnedAll {World} (docs : list NeDbJob) (s : QueueState World)
    : QueueState World :=
  foldl (fun s' d => warned (doc_priority d) s') s docs.

(** The order a comparator induces: [a] is not after [b]. *)
Definition leq {A} (cmp : A -> A -> Z) (a b : A) : Prop := cmp a b <= 0.

(** [h] is not after any element of [l]. *)
Definition headMin {A} (cmp : A -> A -> Z) (h : A) (l : list A) : Prop :=
  forall y, y ∈ l -> leq cmp h y.

(** The comparator [.sort({ priority: -1, createdAt: 1 })] builds. *)
Definition fetchOrder : NeDbJob -> NeDbJob -> Z :=
  compareDocs [(doc_priority, -1); (doc_createdAt, 1)].

(** A document [findInactiveJobByType type] may return. *)
Definition eligible (type : string) (d : NeDbJob) : Prop :=
  doc_type d = type /\ doc_state d = Some INACTIVE.

(** The fetch as the specification words it: smallest priority value first,
    oldest first among equal priorities, none when nothing is eligible. *)
Definition smallestPriorityFirst (type : string) (l : list NeDbJob)
    (r : option NeDbJob) : Prop :=
  match r with
  | None => forall d, d ∈ l -> ~ eligible type d
  | Some d =>
      d ∈ l /\ eligible type d /\
      forall d', d' ∈ l -> eligible type d' ->
        doc_priority d <= doc_priority d' /\
        (doc_priority d' = doc_priority d -> doc_createdAt d <= doc_createdAt d')
  end.

(** The fetch as the query sorts it: largest priority value first, oldest
    first among equal priorities, none when nothing is eligible. *)
Definition largestPriorityFirst (type : string) (l : list NeDbJob)
    (r : option NeDbJob) : Prop :=
  match r with
  | None => forall d, d ∈ l -> ~ eligible type d
  | Some d =>
      d ∈ l /\ eligible type d /\
      forall d', d' ∈ l -> eligible type d' ->
        doc_priority d' <= doc_priority d /\
        (doc_priority d' = doc_priority d -> doc_createdAt d <= doc_createdAt d')
  end.


(** The rows after the jobs of the documents [todo] have been failed, one
    update after the other. *)
Definition failRows (now : Date) (todo : list NeDbJob) (l : list NeDbJob)
    : list NeDbJob :=
  foldl (fun rs d =>
           snd (updateFirst (_id d)
                  (JobRepository.updateQuery
                     (withFailure now unexpectedlyTermination (converted d))) rs))
        l todo.


(** Between two states of the failure oracle, the store calls that were
    served all went through ... *)
Definition passed (f f' : list (option Error)) : Prop :=
  exists k, f = replicate k None ++ f'.

(** ... or the last of them failed with [e]. *)
Definition failed (e : Error) (f f' : list (option Error)) : Prop :=
  exists k, f = replicate k None ++ Some e :: f'.

(** A computation does not swallow a failure of the store: if it returns,
    every store call it made went through; if it throws, either every store
    call it made went through or the one that failed did so with the error
    thrown. *)
Definition surfaces {S A} (fl : S -> list (option Error)) (m : M S A) : Prop :=
  forall s,
    match m s with
    | (Ok _, s') => passed (fl s) (fl s')
    | (Throw e, s') => passed (fl s) (fl s') \/ failed e (fl s) (fl s')
    end.

(** The failure oracle of the store of a queue. *)
Definition pending {World} (s : QueueState World) : list (option Error) :=
  faults (repository s).

(** The store holds one row per id ([_id] is a unique index). *)
Definition uniqueIds (ds : DataStore) : Prop := NoDup (map _id (rows ds)).

(** * Concrete stores, queues and callers

    The hand-over of closures does not matter here: the world is [unit]. *)

Definition emptyStore : DataStore := mkDataStore [] [] [].

(** A waiting job of type "T". *)
Definition docT (i : string) (p : Z) (t : Date) : NeDbJob :=
  mkNeDbJob i "T" p None t t None None None (Some INACTIVE) None None [].

(** A NORMAL job inserted first and a LOW job inserted after it. *)
Definition twoWaiting : DataStore :=
  mkDataStore [docT "n" Priority.NORMAL 1; docT "l" Priority.LOW 2] [] [].

(** The store a crashed process left: A was running, B waiting, C done. *)
Definition docA : NeDbJob :=
  mkNeDbJob "A" "T" 0 None 1 2 (Some 2) None None (Some ACTIVE) None None [].
Definition docB : NeDbJob :=
  mkNeDbJob "B" "T" 0 None 3 3 None None None (Some INACTIVE) None None [].
Definition docC : NeDbJob :=
  mkNeDbJob "C" "T" 0 None 4 6 (Some 5) (Some 6) None (Some COMPLETE) (Some 1) None [].
Definition crashed : DataStore := mkDataStore [docA; docB; docC] [] [].

(** A queue over a store, with nobody waiting, at time [now]. *)
Definition idle (ds : DataStore) (now : Date) : QueueState unit :=
  Queue_new ds now ["id-1"; "id-2"] tt.

Definition eager : unit -> bool := fun _ => true.
Definition gone : unit -> bool := fun _ => false.

(** A queue where a request is parked for type "T". *)
Definition oneParked : QueueState unit :=
  mkQueue emptyStore {[ "T" := [mkRequest 0%nat eager] ]} false 0 [] [] 1 [] [] 7 [] tt.

(** A queue where three requests are parked for type "T"; the owner of the
    first one has lost interest. *)
Definition threeParked : QueueState unit :=
  mkQueue emptyStore
          {[ "T" := [mkRequest 0%nat gone; mkRequest 1%nat eager; mkRequest 2%nat eager] ]}
          false 0 [] [] 3 [] [] 7 [] tt.

(** A job as [createJob] builds it, before it is saved. *)
Definition freshJob : Job :=
  mkJob "j" "T" Priority.NORMAL None 7 7 None None None INACTIVE None None [] false.

Definition EIO : Error := mkError "EIO".
Definition boom : Error := mkError "boom".

(** A store whose next call fails. *)
Definition failingStore : DataStore := mkDataStore [] [Some EIO] [].

(** A predicate that accepts job "n" and throws on any other job. *)
Definition acceptThenThrow (j : Job) : Result bool :=
  if String.eqb (id j) "n" then Ok true else Throw boom.

(** A store whose third call fails: the listing and the first removal go
    through, the second removal does not. *)
Definition failsAtThirdCall : DataStore :=
  mkDataStore [docT "n" Priority.NORMAL 1; docT "l" Priority.LOW 2]
              [None; None; Some EIO] [].

(** The two waiting jobs in a store that serves the next call and fails the
    one after it. *)
Definition failsAtSecondCallOfTwo : DataStore :=
  mkDataStore [docT "n" Priority.NORMAL 1; docT "l" Priority.LOW 2]
              [None; Some EIO] [].

(** A registry with two workers of type "T". *)
Definition twoWorkers : Registry := Queue_process "T" 0 2 Registry_new.

(** * Further notions *)

(** The next call to the store is served: the oracle holds no failure for
    it. *)
Definition nextCallServed (ds : DataStore) : Prop :=
  head (faults ds) = None \/ head (faults ds) = Some None.

(** The query of [listJobs(state)]: every document when the state is
    omitted, the documents in that state otherwise. *)
Definition wanted (st : option State) (d : NeDbJob) : bool :=
  match st with
  | None => true
  | Some x => bool_decide (doc_state d = Some x)
  end.

(** Older documents first. *)
Definition olderFirst (a b : NeDbJob) : Prop := doc_createdAt a <= doc_createdAt b.

(** What the dispatch protocol keeps in memory: the waiting lists, the
    promises created, the resolutions queued and done, and the mutex. *)
Definition dispatchState {World} (s : QueueState World) :=
  (waitingRequests s, promises s, nextTick s, resolved s, mutexLocked s, mutexAcquired s).

(** A computation leaves a part of the state as it is, however it ends. *)
Definition keeps {S X A} (f : S -> X) (m : M S A) : Prop :=
  forall s, f (snd (m s)) = f s.

(** The calls that only read or write the store: all but
    [requestJobForProcessing] and [addJob]. *)
Definition storageOnly {World} (c : QueueCall World) : Prop :=
  match c with
  | CallRequestJobForProcessing _ _ | CallAddJob _ => False
  | _ => True
  end.

(** The workers [process] constructs: [n] workers of the type, numbered from
    [from]. *)
Definition spawned (type : string) (from n : nat) : list Worker :=
  map (fun k => mkWorker (from + k) type) (seq 0 n).

(** A store that serves the next call and fails the one after it. *)
Definition failsAtSecondCall : DataStore := mkDataStore [] [None; Some EIO] [].

(** Three requests parked for type "T", the first one without interest, over
    a store that accepts the insert and fails the update that follows. *)
Definition parkedOverFailing : QueueState unit :=
  mkQueue failsAtSecondCall
          {[ "T" := [mkRequest 0%nat gone; mkRequest 1%nat eager; mkRequest 2%nat eager] ]}
          false 0 [] [] 3 [] [] 7 [] tt.

(** A predicate that accepts job "n" only. *)
Definition onlyN (j : Job) : Result bool := Ok (String.eqb (id j) "n").

(** A job whose type is the name of a member of [Object.prototype]. *)
Definition constructorJob : Job :=
  mkJob "j" "constructor" Priority.NORMAL None 7 7 None None None INACTIVE None None
        [] false.

(** * Proofs *)

(** Projections of a state built with the setters. *)
Ltac qsimpl :=
  cbn [repository waitingRequests mutexLocked mutexAcquired emitted warnings
       promises nextTick resolved clock uuids world setRepository
       setWaitingRequests setMutex setEmitted setWarnings setPromises
       setTicks setUuids rows faults oplog withRows served fst snd tail] in *.

(** ** What a computation leaves as it is *)

Section Keeping.
Context {S X : Type} (f : S -> X).

Lemma keeps_ret {A} (a : A) : keeps f (ret a).
Proof. done. Qed.

Lemma keeps_throw {A} e : keeps f (throw (A:=A) e).
Proof. done. Qed.

Lemma keeps_bind {A B} (m : M S A) (k : A -> M S B) :
  keeps f m -> (forall a, keeps f (k a)) -> keeps f (bind m k).
Proof.
  intros Hm Hk s. unfold bind. specialize (Hm s).
  destruct (m s) as [[a|e] s1]; [|done]. cbn [snd] in Hm. by rewrite Hk.
Qed.

Lemma keeps_tryCatch {A} (m : M S A) h :
  keeps f m -> (forall e, keeps f (h e)) -> keeps f (tryCatch m h).
Proof.
  intros Hm Hh s. unfold tryCatch. specialize (Hm s).
  destruct (m s) as [[a|e] s1]; [done|]. cbn [snd] in Hm. by rewrite Hh.
Qed.
End Keeping.

(** * Properties of the store and of the repository *)

Section Sorting.
Context {A : Type} (cmp : A -> A -> Z).

Hypothesis leq_total : forall a b, leq cmp a b \/ leq cmp b a.
Hypothesis leq_trans : forall a b c, leq cmp a b -> leq cmp b c -> leq cmp a c.

Lemma elem_of_insertBy x y l : y ∈ insertBy cmp x l <-> y = x \/ y ∈ l.
Proof.
  induction l as [|z l IH]; simpl.
  - rewrite list_elem_of_singleton. split; [by left|].
    intros [?|Hy]; [done|]. by apply elem_of_nil in Hy.
  - destruct (cmp x z <=? 0); rewrite !elem_of_cons; [tauto|].
    rewrite IH. tauto.
Qed.

Lemma elem_of_sortBy y l : y ∈ sortBy cmp l <-> y ∈ l.
Proof.
  induction l as [|z l IH]; simpl; [done|].
  rewrite elem_of_insertBy, IH, elem_of_cons. tauto.
Qed.

Lemma insertBy_head x l h t :
  (forall h' t', l = h' :: t' -> headMin cmp h' l) ->
  insertBy cmp x l = h :: t -> headMin cmp h (h :: t).
Proof using leq_total leq_trans.
  destruct l as [|z l]; simpl; intros Hmin Hins.
  - inversion Hins; subst. intros y Hy. apply list_elem_of_singleton in Hy as ->.
    destruct (leq_total h h); done.
  - specialize (Hmin z l eq_refl).
    destruct (cmp x z <=? 0) eqn:Hc.
    + inversion Hins; subst. apply Z.leb_le in Hc.
      intros y Hy. apply elem_of_cons in Hy as [->|Hy].
      * destruct (leq_total h h); done.
      * apply leq_trans with z; [done|]. by apply Hmin.
    + inversion Hins; subst. apply Z.leb_gt in Hc.
      assert (leq cmp h x) as Hhx.
      { destruct (leq_total h x) as [|Hxh]; [done|]. unfold leq in Hxh. lia. }
      intros y Hy. apply elem_of_cons in Hy as [->|Hy].
      * destruct (leq_total h h); done.
      * apply elem_of_insertBy in Hy as [->|Hy]; [done|].
        apply Hmin. by right.
Qed.

Lemma sortBy_head l h t : sortBy cmp l = h :: t -> headMin cmp h l.
Proof using leq_total leq_trans.
  revert h t. induction l as [|x l IH]; simpl; intros h t Hs; [done|].
  assert (headMin cmp h (h :: t)) as Hm.
  { eapply insertBy_head; [|exact Hs]. intros h' t' Heq y Hy.
    apply (IH h' t' Heq). by apply elem_of_sortBy. }
  intros y Hy. apply Hm. rewrite <- Hs.
  apply elem_of_insertBy. apply elem_of_cons in Hy as [->|Hy]; [by left|].
  right. by apply elem_of_sortBy.
Qed.

Lemma sortBy_nil l : sortBy cmp l = [] <-> l = [].
Proof.
  split; [|by intros ->].
  destruct l as [|x l]; [done|]. simpl. intros H.
  assert (x ∈ insertBy cmp x (sortBy cmp l)) as Hx by (apply elem_of_insertBy; by left).
  rewrite H in Hx. by apply elem_of_nil in Hx.
Qed.
End Sorting.

(** ** C1: the fetch order of [findInactiveJobByType] *)

Lemma fetchOrder_leq a b :
  leq fetchOrder a b <->
  doc_priority b < doc_priority a \/
  (doc_priority a = doc_priority b /\ doc_createdAt a <= doc_createdAt b).
Proof.
  unfold leq, fetchOrder, compareDocs, compareNSB.
  destruct (Z.ltb_spec (doc_priority a) (doc_priority b));
    destruct (Z.ltb_spec (doc_priority b) (doc_priority a));
    destruct (Z.ltb_spec (doc_createdAt a) (doc_createdAt b));
    destruct (Z.ltb_spec (doc_createdAt b) (doc_createdAt a));
    simpl; lia.
Qed.

Lemma fetchOrder_total a b : leq fetchOrder a b \/ leq fetchOrder b a.
Proof. rewrite !fetchOrder_leq. lia. Qed.

Lemma fetchOrder_trans a b c :
  leq fetchOrder a b -> leq fetchOrder b c -> leq fetchOrder a c.
Proof. rewrite !fetchOrder_leq. lia. Qed.

Lemma eligible_query type d :
  bool_decide (doc_type d = type) && bool_decide (doc_state d = Some INACTIVE) = true
  <-> eligible type d.
Proof.
  unfold eligible. rewrite andb_true_iff, !bool_decide_eq_true. tauto.
Qed.

Lemma io_rows op ds : rows (snd (io op ds)) = rows ds.
Proof. unfold io. by destruct (faults ds) as [|[e|] fs]. Qed.

Lemma io_result op ds :
  match fst (io op ds) with
  | Ok _ => True
  | Throw e => head (faults ds) = Some (Some e)
  end.
Proof. unfold io. by destruct (faults ds) as [|[e|] fs]. Qed.

(** C1, amended: on every store, [findInactiveJobByType type] throws only
    when the store call fails, leaves the documents as they are, and
    otherwise returns the INACTIVE document of that type with the largest
    numeric priority value, the oldest among those of that priority, or none
    when there is no INACTIVE document of that type. *)
Theorem findInactiveJobByType_largest_priority_first (type : string) (ds : DataStore) :
  match fst (JobRepository.findInactiveJobByType type ds) with
  | Ok r => largestPriorityFirst type (rows ds) r
  | Throw e => head (faults ds) = Some (Some e)
  end /\
  rows (snd (JobRepository.findInactiveJobByType type ds)) = rows ds.
Proof.
  unfold JobRepository.findInactiveJobByType, db_find, bind, ret.
  pose proof (io_rows OpFind ds) as Hrows.
  pose proof (io_result OpFind ds) as Hres.
  destruct (io OpFind ds) as [[[]|e] ds1]; cbn [fst snd limitOf] in *; [|done].
  set (sel := filter _ (rows ds1)).
  change (compareDocs _) with fetchOrder.
  split; [|done].
  destruct (sortBy fetchOrder sel) as [|h t] eqn:Hs; cbn [take].
  - apply sortBy_nil in Hs. intros d Hd Hel.
    assert (d ∈ sel) as Hin.
    { apply list_elem_of_filter. split; [by apply eligible_query | by rewrite Hrows]. }
    rewrite Hs in Hin. by apply elem_of_nil in Hin.
  - assert (h ∈ sel) as Hh.
    { eapply elem_of_sortBy. rewrite Hs. by left. }
    apply list_elem_of_filter in Hh as [Hq Hh]. apply eligible_query in Hq.
    rewrite Hrows in Hh. split; [done|]. split; [done|].
    intros d' Hd' Hel'.
    assert (leq fetchOrder h d') as Hle.
    { eapply sortBy_head; [apply fetchOrder_total | apply fetchOrder_trans | exact Hs |].
      apply list_elem_of_filter. split; [by apply eligible_query | by rewrite Hrows]. }
    apply fetchOrder_leq in Hle. lia.
Qed.

(** ** C6: [updateJob] demands exactly one affected row *)

Lemma updateFirst_absent i f l :
  i ∉ map _id l -> updateFirst i f l = (0, l).
Proof.
  induction l as [|d l IH]; simpl; [done|].
  intros Hn. apply not_elem_of_cons in Hn as [Hne Hn].
  rewrite bool_decide_eq_false_2 by congruence.
  by rewrite IH.
Qed.

(** C6: whatever number of rows the store reports, [updateJob] returns
    normally when it is 1 and throws the unexpected-rows error when it is
    not (an error of the store call itself is passed on); updating a job
    with no row of its id, removed or never inserted, always throws. *)
Theorem updateJob_exactly_one_row (job : Job) (ds : DataStore) :
  match db_update (id job) (JobRepository.updateQuery job) ds with
  | (Ok numAffected, ds') =>
      (numAffected = 1 -> JobRepository.updateJob job ds = (Ok tt, ds')) /\
      (numAffected <> 1 ->
       JobRepository.updateJob job ds
       = (Throw (JobRepository.unexpectedRows numAffected), ds'))
  | (Throw e, ds') => JobRepository.updateJob job ds = (Throw e, ds')
  end /\
  (id job ∉ map _id (rows ds) ->
   isThrow (fst (JobRepository.updateJob job ds)) = true /\
   rows (snd (JobRepository.updateJob job ds)) = rows ds).
Proof.
  split.
  - unfold JobRepository.updateJob, bind.
    destruct (db_update _ _ ds) as [[n|e] ds']; [|done].
    split; intros Hn.
    + subst n. reflexivity.
    + apply Z.eqb_neq in Hn. by rewrite Hn.
  - intros Habs. unfold JobRepository.updateJob, db_update, bind.
    pose proof (io_rows (OpUpdate (id job)) ds) as Hrows.
    destruct (io _ ds) as [[[]|e] ds1]; simpl in *; [|done].
    rewrite Hrows, updateFirst_absent by done. simpl.
    split; [done|]. done.
Qed.

(** * Properties of the dispatch core *)

Section DispatchProperties.
Context {World : Type}.
Implicit Types (s : QueueState World) (d : NeDbJob) (job : Job).

(** The [catch] blocks: what was thrown inside is emitted, then thrown on. *)
Lemma tryCatch_emitAndRethrow {A} (m : M (QueueState World) A) (j : option Job) s :
  tryCatch m (emitAndRethrow j) s =
  match m s with
  | (Ok a, s') => (Ok a, s')
  | (Throw e, s') =>
      (Throw e, setEmitted (emitted s' ++ [mkEmission Event.Error (Some e) j]) s')
  end.
Proof. unfold tryCatch. by destruct (m s) as [[a|e] s']. Qed.

(** ** C3: the fast path of [requestJobForProcessing] *)

(** C3: when the waiting list of the type exists and is not empty, the
    call returns a new pending promise whose request is appended to the
    tail of that list; the store is not called (same documents, same log
    of calls), the mutex is neither acquired nor locked, nothing is
    emitted, and nothing is resolved or queued for resolution. *)
Theorem requestJobForProcessing_fast_park
    (type : string) (stillRequest : World -> bool) s
    (requests : list (WaitingWorkerRequest World)) :
  waitingRequests s !! type = Some requests ->
  requests <> [] ->
  let (r, s') := Queue_requestJobForProcessing type stillRequest s in
  r = Ok (Parked (promises s)) /\
  waitingRequests s' =
    <[type := requests ++ [mkRequest (promises s) stillRequest]]> (waitingRequests s) /\
  promises s' = S (promises s) /\
  repository s' = repository s /\
  mutexAcquired s' = mutexAcquired s /\
  mutexLocked s' = mutexLocked s /\
  emitted s' = emitted s /\
  nextTick s' = nextTick s /\
  resolved s' = resolved s.
Proof.
  intros Hw Hne.
  unfold Queue_requestJobForProcessing, someoneWaiting, parkRequest, lookupRequests.
  rewrite Hw. destruct requests as [|r0 rs]; [done|]. by cbn.
Qed.

(** ** Looking a type up in [waitingRequests] *)

(** A list is found exactly when the type has one of its own. *)
Lemma lookupRequests_list type s (requests : list (WaitingWorkerRequest World)) :
  lookupRequests type s = Requests requests <-> waitingRequests s !! type = Some requests.
Proof.
  unfold lookupRequests. destruct (waitingRequests s !! type) as [l|].
  - split; by intros [= ->].
  - by destruct (Object_prototype !! type).
Qed.

(** For a type that is not the name of a member of [Object.prototype], the
    look-up is the one in the own properties. *)
Lemma lookupRequests_ordinary type s :
  Object_prototype !! type = None ->
  (lookupRequests type s = Undefined <-> waitingRequests s !! type = None) /\
  (someoneWaiting type s = false <->
   match waitingRequests s !! type with
   | Some (_ :: _) => False
   | _ => True
   end).
Proof.
  intros Hplain. unfold someoneWaiting, lookupRequests. rewrite Hplain.
  by destruct (waitingRequests s !! type) as [[|r l]|].
Qed.

(** ** C4: a candidate is not claimed for a requester that lost interest *)

(** A document the fetch returns is a row of the store, of the type asked
    for and INACTIVE; the fetch is one call to the store and changes no
    row. *)
Lemma findInactiveJobByType_found type ds d ds' :
  JobRepository.findInactiveJobByType type ds = (Ok (Some d), ds') ->
  d ∈ rows ds /\ doc_state d = Some INACTIVE /\
  rows ds' = rows ds /\ oplog ds' = oplog ds ++ [OpFind].
Proof.
  unfold JobRepository.findInactiveJobByType, db_find, bind, ret, io.
  destruct (faults ds) as [|[e|] fs]; [|done|]; cbn [limitOf rows oplog].
  all: set (sorted := sortBy _ _); destruct sorted as [|h t] eqn:Hs; [done|].
  all: cbn [take]; intros [= -> <-]; cbn [rows oplog].
  all: assert (d ∈ sorted) as Hd by (rewrite Hs; by left).
  all: apply elem_of_sortBy, list_elem_of_filter in Hd as [Hq Hd].
  all: apply andb_true_iff in Hq as [_ Hst%bool_decide_eq_true].
  all: done.
Qed.

(** C4: a call that takes the mutex (the test for parked requests of the
    type fails and the mutex is free), finds a candidate and is told by
    [stillRequest()] that the requester lost interest returns none; the
    only call to the store is the query, the documents are the same (the
    candidate is still there, INACTIVE), nothing is parked, emitted or
    queued, and the mutex is free again. *)
Theorem requestJobForProcessing_not_interested
    (type : string) (stillRequest : World -> bool) s d (ds' : DataStore) :
  someoneWaiting type s = false ->
  mutexLocked s = false ->
  JobRepository.findInactiveJobByType type (repository s) = (Ok (Some d), ds') ->
  stillRequest (world s) = false ->
  let (r, s') := Queue_requestJobForProcessing type stillRequest s in
  r = Ok (Returned None) /\
  rows (repository s') = rows (repository s) /\
  oplog (repository s') = oplog (repository s) ++ [OpFind] /\
  d ∈ rows (repository s') /\ doc_state d = Some INACTIVE /\
  waitingRequests s' = waitingRequests s /\
  emitted s' = emitted s /\
  nextTick s' = nextTick s /\
  resolved s' = resolved s /\
  mutexAcquired s' = S (mutexAcquired s) /\
  mutexLocked s' = false.
Proof.
  intros Hw Hfree Hfind Hno.
  destruct (findInactiveJobByType_found _ _ _ _ Hfind) as (Hin & Hst & Hrows & Hlog).
  unfold Queue_requestJobForProcessing. rewrite Hw, Hfree.
  unfold tryFinally. rewrite tryCatch_emitAndRethrow.
  unfold requestUnderMutex, bind at 1. unfold liftDb. cbn [repository setMutex].
  rewrite Hfind. cbn. rewrite Hno. cbn.
  rewrite Hrows. by repeat split.
Qed.
End DispatchProperties.

Section HandoffProperties.
Context {World : Type}.
Implicit Types (s : QueueState World) (d : NeDbJob) (job : Job).

Lemma io_no_fault op ds :
  faults ds = [] -> io op ds = (Ok tt, mkDataStore (rows ds) [] (oplog ds ++ [op])).
Proof. unfold io. by intros ->. Qed.

Lemma sanitizePriority_eq p s :
  Queue_sanitizePriority p s = (Ok (sanitized p), warned p s).
Proof.
  unfold Queue_sanitizePriority, sanitized, warned, Priority.known.
  by destruct (_ || _).
Qed.

Lemma sanitized_known p : Priority.known (sanitized p) = true.
Proof. unfold sanitized. by destruct (Priority.known p) eqn:Hp. Qed.

(** The constructor warns when the priority it is given is not a known one. *)
Lemma newJob_eq c s :
  newJob c s =
  (Ok (mkJob (jcd_id c) (jcd_type c)
             (sanitized (default Priority.NORMAL (jcd_priority c))) (jcd_data c)
             (jcd_createdAt c) (jcd_updatedAt c) (jcd_startedAt c)
             (jcd_completedAt c) (jcd_failedAt c) (default INACTIVE (jcd_state c))
             (jcd_duration c) (jcd_progress c) (jcd_logs c) (jcd_saved c)),
   warned (default Priority.NORMAL (jcd_priority c)) s).
Proof. unfold newJob, bind. by rewrite sanitizePriority_eq. Qed.

Lemma convertNeDbJobToJob_eq d s :
  Queue_convertNeDbJobToJob d s = (Ok (converted d), warned (doc_priority d) s).
Proof.
  unfold Queue_convertNeDbJobToJob, bind. rewrite sanitizePriority_eq, newJob_eq.
  cbn [jcd_id jcd_type jcd_priority jcd_data jcd_createdAt jcd_updatedAt
       jcd_startedAt jcd_completedAt jcd_failedAt jcd_state jcd_duration
       jcd_progress jcd_logs jcd_saved default]. unfold Datatypes.id.
  assert (sanitized (sanitized (doc_priority d)) = sanitized (doc_priority d)) as ->.
  { unfold sanitized at 1. by rewrite sanitized_known. }
  unfold warned at 1. by rewrite sanitized_known.
Qed.

Lemma lookupRequests_own type s (requests : list (WaitingWorkerRequest World)) :
  waitingRequests s !! type = Some requests ->
  lookupRequests type s = Requests requests.
Proof. unfold lookupRequests. by intros ->. Qed.

Lemma warned_repository p s : repository (warned p s) = repository s.
Proof. unfold warned. by destruct (Priority.known p). Qed.

Lemma shiftUntilRequested_spec (w : World) (l : list (WaitingWorkerRequest World)) :
  match shiftUntilRequested w l with
  | (None, rest) =>
      rest = [] /\ Forall (fun r => stillRequest r w = false) l
  | (Some request, rest) =>
      exists skipped,
        l = skipped ++ request :: rest /\
        Forall (fun r => stillRequest r w = false) skipped /\
        stillRequest request w = true
  end.
Proof.
  induction l as [|h l IH]; simpl; [done|].
  destruct (stillRequest h w) eqn:Hh.
  - exists []. by repeat split.
  - destruct (shiftUntilRequested w l) as [[request|] rest].
    + destruct IH as (skipped & -> & Hsk & Hreq).
      exists (h :: skipped). repeat split; [|done]. by constructor.
    + destruct IH as [-> Hall]. split; [done|]. by constructor.
Qed.

Lemma updateFirst_last i f l d :
  i ∉ map _id l -> _id d = i ->
  updateFirst i f (l ++ [d]) = (1, l ++ [f d]).
Proof.
  intros Hn Hd. induction l as [|x l IH]; simpl.
  - by rewrite bool_decide_eq_true_2.
  - simpl in Hn. apply not_elem_of_cons in Hn as [Hne Hn].
    rewrite bool_decide_eq_false_2 by congruence. by rewrite IH.
Qed.

Lemma io_ok op ds :
  head (faults ds) = None \/ head (faults ds) = Some None ->
  io op ds = (Ok tt, served op (rows ds) ds).
Proof.
  unfold io, served. destruct (faults ds) as [|[e|] fs]; cbn; intros [?|?]; done.
Qed.

Lemma no_fault_head ds : faults ds = [] -> head (faults ds) = None \/ head (faults ds) = Some None.
Proof. intros ->. by left. Qed.

Lemma liftDb_addJob_ok job s :
  faults (repository s) = [] ->
  id job ∉ map _id (rows (repository s)) ->
  liftDb (JobRepository.addJob job) s =
  (Ok (JobRepository.insertDoc job),
   setRepository (served (OpInsert (id job))
                         (rows (repository s) ++ [JobRepository.insertDoc job])
                         (repository s)) s).
Proof.
  intros Hf Hfresh. unfold liftDb, JobRepository.addJob, db_insert, bind.
  rewrite io_ok by by apply no_fault_head. qsimpl.
  by rewrite bool_decide_eq_false_2.
Qed.

Lemma Queue_updateJob_ok job s r :
  faults (repository s) = [] ->
  updateFirst (id job) (JobRepository.updateQuery job) (rows (repository s)) = (1, r) ->
  Queue_updateJob job s =
  (Ok tt, setRepository (served (OpUpdate (id job)) r (repository s)) s).
Proof.
  intros Hf Hup. unfold Queue_updateJob. rewrite tryCatch_emitAndRethrow.
  unfold liftDb, JobRepository.updateJob, db_update, bind.
  rewrite io_ok by by apply no_fault_head. qsimpl.
  by rewrite Hup.
Qed.

Lemma Job_setStateToActive_ok job s r :
  state job = INACTIVE ->
  saved job = true ->
  faults (repository s) = [] ->
  updateFirst (id job) (JobRepository.updateQuery (withActive (clock s) job))
              (rows (repository s)) = (1, r) ->
  Job_setStateToActive job s =
  (Ok (withActive (clock s) job),
   setRepository (served (OpUpdate (id job)) r (repository s)) s).
Proof.
  intros Hst Hsv Hf Hup. unfold Job_setStateToActive.
  rewrite Hst. cbn [bool_decide decide_rel negb].
  rewrite bool_decide_eq_true_2 by done. cbn [negb].
  unfold bind, newDate, Job_update. cbn [saved withActive]. rewrite Hsv. cbn [negb].
  by rewrite (Queue_updateJob_ok _ _ r).
Qed.

(** ** C5: the hand-off of a newly inserted job *)

(** C5: when a new INACTIVE job has been inserted (no store failure, no
    row of that id before) and a waiting list exists for its type, the
    requests at the head that lost interest are dropped from the list
    without anything being queued or resolved for them.  Either no request
    is left: the list is empty, the job's row is the inserted one, still
    INACTIVE.  Or the first request that still wants a job is taken off
    the list: the row is ACTIVE (started now), the resolution of that
    request's promise with the ACTIVE job is queued for the next tick and
    not performed by the call; it is performed when the queued callbacks
    run. *)
Theorem addJob_handoff job s (requests : list (WaitingWorkerRequest World)) :
  faults (repository s) = [] ->
  id job ∉ map _id (rows (repository s)) ->
  state job = INACTIVE ->
  waitingRequests s !! type job = Some requests ->
  let (r, s') := Queue_addJob job s in
  r = Ok tt /\
  resolved s' = resolved s /\
  exists skipped,
    Forall (fun w => stillRequest w (world s) = false) skipped /\
    ((requests = skipped /\
      waitingRequests s' !! type job = Some [] /\
      rows (repository s') = rows (repository s) ++ [JobRepository.insertDoc job] /\
      doc_state (JobRepository.insertDoc job) = Some INACTIVE /\
      nextTick s' = nextTick s)
     \/
     (exists request rest activeJob row,
        requests = skipped ++ request :: rest /\
        stillRequest request (world s) = true /\
        waitingRequests s' !! type job = Some rest /\
        rows (repository s') = rows (repository s) ++ [row] /\
        _id row = id job /\ doc_state row = Some ACTIVE /\
        doc_startedAt row = Some (clock s) /\
        id activeJob = id job /\ state activeJob = ACTIVE /\
        nextTick s' = nextTick s ++ [(resolve request, activeJob)] /\
        resolved (runNextTick s') = resolved s ++ nextTick s ++ [(resolve request, activeJob)])).
Proof.
  intros Hf Hfresh Hst Hw.
  unfold Queue_addJob. rewrite tryCatch_emitAndRethrow.
  unfold bind at 1. rewrite liftDb_addJob_ok by done.
  rewrite (lookupRequests_own _ _ requests) by done. qsimpl.
  pose proof (shiftUntilRequested_spec (world s) requests) as Hshift.
  destruct (shiftUntilRequested (world s) requests) as [[request|] rest].
  - destruct Hshift as (skipped & -> & Hsk & Hreq).
    unfold bind at 1. rewrite convertNeDbJobToJob_eq.
    unfold bind at 1.
    erewrite Job_setStateToActive_ok; first last.
    { rewrite warned_repository. qsimpl.
      apply updateFirst_last; [exact Hfresh | reflexivity]. }
    { rewrite warned_repository. qsimpl. by rewrite Hf. }
    { reflexivity. }
    { cbn. by rewrite Hst. }
    unfold deferResolve, warned.
    destruct (Priority.known _); qsimpl.
    all: split; [done|]; split; [done|].
    all: exists skipped; split; [done|]; right.
    all: exists request, rest,
           (withActive (clock s) (converted (JobRepository.insertDoc job))),
           (JobRepository.updateQuery
              (withActive (clock s) (converted (JobRepository.insertDoc job)))
              (JobRepository.insertDoc job)).
    all: unfold runNextTick; qsimpl; rewrite lookup_insert_eq.
    all: repeat split; first [reflexivity | done].
  - destruct Hshift as [-> Hall]. qsimpl.
    split; [done|]. split; [done|]. exists requests. split; [done|]. left.
    rewrite lookup_insert_eq. repeat split; try done.
    cbn. by rewrite Hst.
Qed.
End HandoffProperties.

Section ErrorProperties.
Context {World : Type}.
Implicit Types (s : QueueState World) (d : NeDbJob) (job : Job).

Lemma warned_emitted p s : emitted (warned p s) = emitted s.
Proof. unfold warned. by destruct (Priority.known p). Qed.

(** [job.remove()] on a saved job: either the row is gone, or the store
    call failed, the documents are as before and the queue emitted it. *)
Lemma Job_remove_outcome job s :
  saved job = true ->
  let (r, s') := Job_remove job s in
  (r = Ok tt /\
   rows (repository s') = removeFirst (id job) (rows (repository s)) /\
   emitted s' = emitted s) \/
  (exists e, r = Throw e /\
             rows (repository s') = rows (repository s) /\
             emitted s' = emitted s ++ [errorEmission e (Some job)]).
Proof.
  intros Hsv. unfold Job_remove. rewrite Hsv. cbn [negb].
  unfold Queue_removeJob. rewrite tryCatch_emitAndRethrow.
  unfold liftDb, JobRepository.removeJob, db_remove, bind, io.
  destruct (faults (repository s)) as [|[e|] fs]; qsimpl.
  - by left.
  - right. by exists e.
  - by left.
Qed.

Lemma accepted_cons_true callback d docs :
  callback (converted d) = Ok true ->
  accepted callback (d :: docs) = converted d :: accepted callback docs.
Proof.
  intros H. unfold accepted. cbn [map]. rewrite filter_cons_True; [done|].
  unfold accepts. by rewrite H.
Qed.

Lemma accepted_cons_false callback d docs :
  callback (converted d) = Ok false ->
  accepted callback (d :: docs) = accepted callback docs.
Proof.
  intros H. unfold accepted. cbn [map]. rewrite filter_cons_False; [done|].
  unfold accepts. by rewrite H.
Qed.

(** The loop of [removeJobsByCallback].  When it ends normally, every
    accepted job has been removed.  When it throws at a document, the
    accepted jobs of the documents before it have been removed, and
    nothing else. *)
Lemma removeEach_outcome (callback : Job -> Result bool) docs s (v : RemoveLocals) :
  match removeEach callback docs (s, v) with
  | (r, (s', v')) =>
      exists l,
        emitted s' = emitted s ++ l /\
        match r with
        | Ok _ =>
            rows (repository s') = without (accepted callback docs) (rows (repository s)) /\
            removedJobs v' = removedJobs v ++ accepted callback docs
        | Throw e =>
            exists pre d post,
              docs = pre ++ d :: post /\
              rows (repository s') = without (accepted callback pre) (rows (repository s)) /\
              currentJob v' = Some (converted d) /\
              (callback (converted d) = Throw e \/ callback (converted d) = Ok true)
        end
  end.
Proof.
  revert s v. induction docs as [|d docs IH]; intros s v.
  - cbn. exists []. rewrite !app_nil_r. by repeat split.
  - cbn [removeEach]. unfold bind at 1. unfold onQueue at 1.
    rewrite convertNeDbJobToJob_eq.
    unfold bind at 1. unfold setCurrentJob at 1.
    unfold bind at 1. unfold callCallback at 1.
    destruct (callback (converted d)) as [[|]|e] eqn:Hcb.
    + (* the predicate holds: the job is recorded, then removed *)
      unfold bind at 1. unfold bind at 1. unfold pushRemoved at 1.
      unfold onQueue at 1.
      pose proof (Job_remove_outcome (converted d) (warned (doc_priority d) s) eq_refl) as Hrm.
      destruct (Job_remove (converted d) (warned (doc_priority d) s)) as [r1 s1].
      destruct Hrm as [(-> & Hrows & Hem)|(e & -> & Hrows & Hem)].
      * unfold bind at 1. unfold setCurrentJob at 1.
        specialize (IH s1 (mkRemoveLocals (removedJobs v ++ [converted d]) None)).
        destruct (removeEach callback docs _) as [r [s' v']].
        destruct IH as (l & Hl & Hres). exists l.
        split; [by rewrite Hl, Hem, warned_emitted|].
        rewrite Hrows, warned_repository in Hres.
        destruct r as [[]|e].
        -- destruct Hres as [Hr Hv]. rewrite accepted_cons_true by done.
           split; [done|]. cbn in Hv. by rewrite Hv, <- app_assoc.
        -- destruct Hres as (pre & d' & post & -> & Hr & Hv & Hd').
           exists (d :: pre), d', post. rewrite accepted_cons_true by done.
           by repeat split.
      * exists [errorEmission e (Some (converted d))].
        split; [by rewrite Hem, warned_emitted|].
        exists [], d, docs. repeat split; [|by right].
        by rewrite Hrows, warned_repository.
    + (* the predicate does not hold *)
      unfold bind at 1. unfold ret at 1.
      unfold bind at 1. unfold setCurrentJob at 1.
      specialize (IH (warned (doc_priority d) s) (mkRemoveLocals (removedJobs v) None)).
      destruct (removeEach callback docs _) as [r [s' v']].
      destruct IH as (l & Hl & Hres). exists l.
      split; [by rewrite Hl, warned_emitted|].
      rewrite warned_repository in Hres.
      destruct r as [[]|e].
      -- by rewrite accepted_cons_false.
      -- destruct Hres as (pre & d' & post & -> & Hr & Hv & Hd').
         exists (d :: pre), d', post. rewrite accepted_cons_false by done.
         by repeat split.
    + (* the predicate throws *)
      exists []. rewrite app_nil_r. split; [by rewrite warned_emitted|].
      exists [], d, docs. repeat split; [|by left].
      by rewrite warned_repository.
Qed.

Lemma db_find_rows q c n ds : rows (snd (db_find q c n ds)) = rows ds.
Proof.
  unfold db_find, bind. pose proof (io_rows OpFind ds) as H.
  by destruct (io OpFind ds) as [[[]|e] ds1].
Qed.

End ErrorProperties.

Section RecoveryProperties.
Context {World : Type}.
Implicit Types (s : QueueState World) (d : NeDbJob) (job : Job).

(** *** Sorting permutes *)

Lemma insertBy_Permutation {A} (cmp : A -> A -> Z) x l : insertBy cmp x l ≡ₚ x :: l.
Proof.
  induction l as [|y l IH]; simpl; [done|].
  destruct (cmp x y <=? 0); [done|]. rewrite IH. apply Permutation_swap.
Qed.

Lemma sortBy_Permutation {A} (cmp : A -> A -> Z) l : sortBy cmp l ≡ₚ l.
Proof.
  induction l as [|x l IH]; simpl; [done|].
  by rewrite insertBy_Permutation, IH.
Qed.

(** *** Updating rows by id *)

Lemma same_id_same_row (l : list NeDbJob) a b :
  NoDup (map _id l) -> a ∈ l -> b ∈ l -> _id a = _id b -> a = b.
Proof.
  induction l as [|x l IH]; simpl; intros Hnd Ha Hb Hid.
  - by apply elem_of_nil in Ha.
  - apply NoDup_cons in Hnd as [Hx Hnd].
    apply elem_of_cons in Ha as [->|Ha]; apply elem_of_cons in Hb as [->|Hb].
    + done.
    + destruct Hx. rewrite Hid. apply list_elem_of_In, in_map, list_elem_of_In, Hb.
    + destruct Hx. rewrite <- Hid. apply list_elem_of_In, in_map, list_elem_of_In, Ha.
    + by apply IH.
Qed.

Lemma updateFirst_map i f l :
  NoDup (map _id l) ->
  snd (updateFirst i f l) = map (fun r => if bool_decide (_id r = i) then f r else r) l.
Proof.
  induction l as [|x l IH]; simpl; intros Hnd; [done|].
  apply NoDup_cons in Hnd as [Hx Hnd].
  destruct (bool_decide (_id x = i)) eqn:Hi; simpl.
  - apply bool_decide_eq_true in Hi. f_equal.
    symmetry. rewrite <- (map_id l) at 2. apply map_ext_in. intros r Hr.
    rewrite bool_decide_eq_false_2; [done|].
    intros Hri. apply Hx. rewrite Hi, <- Hri. apply list_elem_of_In, in_map, Hr.
  - specialize (IH Hnd). destruct (updateFirst i f l) as [n r]. simpl in *.
    by rewrite IH.
Qed.

Lemma updateFirst_present i f l :
  i ∈ map _id l -> fst (updateFirst i f l) = 1.
Proof.
  induction l as [|x l IH]; simpl; intros Hi.
  - by apply elem_of_nil in Hi.
  - destruct (bool_decide (_id x = i)) eqn:Hx; [done|].
    apply bool_decide_eq_false in Hx.
    apply elem_of_cons in Hi as [Hi|Hi]; [congruence|].
    specialize (IH Hi). by destruct (updateFirst i f l).
Qed.

Lemma failRows_cons now d todo l :
  failRows now (d :: todo) l =
  failRows now todo
    (snd (updateFirst (_id d)
            (JobRepository.updateQuery
               (withFailure now unexpectedlyTermination (converted d))) l)).
Proof. reflexivity. Qed.

Lemma failRows_map now todo l :
  NoDup (map _id l) ->
  NoDup (map _id todo) ->
  (forall d, d ∈ todo -> d ∈ l) ->
  failRows now todo l =
  map (fun r => if bool_decide (_id r ∈ map _id todo) then failedRow now r else r) l.
Proof.
  revert l. induction todo as [|d todo IH]; intros l Hl Htodo Hsub.
  - cbn. rewrite <- (map_id l) at 1. apply map_ext_in. intros r _.
    rewrite bool_decide_eq_false_2; [done|]. apply not_elem_of_nil.
  - rewrite failRows_cons.
    cbn [map] in Htodo. apply NoDup_cons in Htodo as [Hd Htodo].
    rewrite updateFirst_map by done.
    set (step := fun r => if bool_decide (_id r = _id d) then _ else r).
    assert (map _id (map step l) = map _id l) as Hids.
    { rewrite map_map. apply map_ext_in. intros r _. unfold step.
      by destruct (bool_decide (_id r = _id d)). }
    rewrite IH; first last.
    { intros d' Hd'. assert (d' ∈ l) as Hin by (apply Hsub; by right).
      assert (step d' = d') as <-.
      { unfold step. rewrite bool_decide_eq_false_2; [done|].
        intros Hid. apply Hd. rewrite <- Hid.
        apply list_elem_of_In, in_map, list_elem_of_In, Hd'. }
      apply list_elem_of_In, in_map, list_elem_of_In, Hin. }
    { done. }
    { by rewrite Hids. }
    rewrite map_map. apply map_ext_in. intros r Hr. apply list_elem_of_In in Hr.
    unfold step. cbn [map]. destruct (bool_decide (_id r = _id d)) eqn:Hrd.
    + apply bool_decide_eq_true in Hrd.
      assert (r = d) as ->.
      { eapply same_id_same_row; [exact Hl|exact Hr| |exact Hrd]. apply Hsub. by left. }
      rewrite (bool_decide_eq_true_2 (_id d ∈ _id d :: map _id todo)) by by left.
      cbn [JobRepository.updateQuery _id].
      rewrite bool_decide_eq_false_2 by done. done.
    + apply bool_decide_eq_false in Hrd.
      destruct (bool_decide (_id r ∈ map _id todo)) eqn:Hrt.
      * apply bool_decide_eq_true in Hrt.
        rewrite bool_decide_eq_true_2; [done|]. by right.
      * apply bool_decide_eq_false in Hrt.
        rewrite bool_decide_eq_false_2; [done|].
        intros [?|?]%elem_of_cons; done.
Qed.


(** *** The store keeps one row per id *)

Lemma updateFirst_ids i job l :
  map _id (snd (updateFirst i (JobRepository.updateQuery job) l)) = map _id l.
Proof.
  induction l as [|x l IH]; simpl; [done|].
  destruct (bool_decide (_id x = i)); [done|].
  destruct (updateFirst i _ l) as [n r]. simpl in *. by rewrite IH.
Qed.

Lemma removeFirst_sublist i l : map _id (removeFirst i l) `sublist_of` map _id l.
Proof.
  induction l as [|x l IH]; simpl; [done|].
  destruct (bool_decide (_id x = i)); [by apply sublist_cons | by apply sublist_skip].
Qed.

Lemma uniqueIds_insert d ds : uniqueIds ds -> uniqueIds (snd (db_insert d ds)).
Proof.
  unfold uniqueIds, db_insert, bind. pose proof (io_rows (OpInsert (_id d)) ds) as Hrows.
  destruct (io _ ds) as [[[]|e] ds1]; cbn [snd] in *; rewrite <- Hrows; [|done].
  intros Hnd. destruct (bool_decide (_id d ∈ map _id (rows ds1))) eqn:Hin; [done|].
  apply bool_decide_eq_false in Hin. cbn [snd withRows rows].
  rewrite map_app. apply NoDup_app. split; [done|]. split.
  - intros i Hi Hd. apply list_elem_of_singleton in Hd as ->. done.
  - apply NoDup_singleton.
Qed.

Lemma uniqueIds_update i job ds :
  uniqueIds ds -> uniqueIds (snd (db_update i (JobRepository.updateQuery job) ds)).
Proof.
  unfold uniqueIds, db_update, bind. pose proof (io_rows (OpUpdate i) ds) as Hrows.
  destruct (io _ ds) as [[[]|e] ds1]; cbn [snd] in *; rewrite <- Hrows; [|done].
  intros Hnd. pose proof (updateFirst_ids i job (rows ds1)) as Hids.
  destruct (updateFirst i _ (rows ds1)) as [n r]. cbn [snd withRows rows] in *.
  by rewrite Hids.
Qed.

Lemma uniqueIds_remove i ds : uniqueIds ds -> uniqueIds (snd (db_remove i ds)).
Proof.
  unfold uniqueIds, db_remove, bind. pose proof (io_rows (OpRemove i) ds) as Hrows.
  destruct (io _ ds) as [[[]|e] ds1]; cbn [snd] in *; rewrite <- Hrows; [|done].
  cbn [withRows rows]. intros Hnd.
  eapply sublist_NoDup; [exact Hnd | apply removeFirst_sublist].
Qed.

(** *** The steps of crash recovery when the store does not fail *)

Lemma convertAll_eq docs s :
  convertAll docs s = (Ok (map converted docs), warnedAll docs s).
Proof.
  revert s. induction docs as [|d docs IH]; intros s; [done|].
  cbn [convertAll]. unfold bind at 1. rewrite convertNeDbJobToJob_eq.
  unfold bind at 1. by rewrite IH.
Qed.

Lemma warnedAll_frame docs s :
  repository (warnedAll docs s) = repository s /\
  emitted (warnedAll docs s) = emitted s /\
  clock (warnedAll docs s) = clock s.
Proof.
  revert s. induction docs as [|d docs IH]; intros s; [done|].
  cbn [warnedAll foldl]. fold (warnedAll docs (warned (doc_priority d) s)).
  destruct (IH (warned (doc_priority d) s)) as (-> & -> & ->).
  unfold warned. by destruct (Priority.known _).
Qed.

Lemma Queue_listJobs_ok st s :
  faults (repository s) = [] ->
  Queue_listJobs st s =
  (Ok (map converted (listed st (rows (repository s)))),
   warnedAll (listed st (rows (repository s)))
             (setRepository (served OpFind (rows (repository s)) (repository s)) s)).
Proof.
  intros Hf. unfold Queue_listJobs. rewrite tryCatch_emitAndRethrow.
  unfold bind at 1. unfold liftDb, JobRepository.listJobs, db_find.
  unfold bind at 1. rewrite io_ok by by apply no_fault_head.
  cbn [limitOf]. by rewrite convertAll_eq.
Qed.

Lemma Job_setStateToFailure_ok job s r :
  state job = ACTIVE ->
  saved job = true ->
  faults (repository s) = [] ->
  updateFirst (id job)
    (JobRepository.updateQuery (withFailure (clock s) unexpectedlyTermination job))
    (rows (repository s)) = (1, r) ->
  Job_setStateToFailure unexpectedlyTermination job s =
  (Ok (withFailure (clock s) unexpectedlyTermination job),
   setEmitted
     (emitted s ++ [mkEmission Event.Failure (Some unexpectedlyTermination)
                      (Some (withFailure (clock s) unexpectedlyTermination job))])
     (setRepository (served (OpUpdate (id job)) r (repository s)) s)).
Proof.
  intros Hst Hsv Hf Hup. unfold Job_setStateToFailure.
  rewrite Hst. rewrite bool_decide_eq_true_2 by done. cbn [negb].
  unfold bind at 1. unfold newDate. unfold bind at 1.
  unfold Job_update. cbn [saved withFailure]. rewrite Hsv. cbn [negb].
  by rewrite (Queue_updateJob_ok _ _ r).
Qed.

Lemma failEach_ok docs s :
  faults (repository s) = [] ->
  (forall d, d ∈ docs ->
             doc_state d = Some ACTIVE /\ _id d ∈ map _id (rows (repository s))) ->
  exists s',
    failEach (map converted docs) s = (Ok tt, s') /\
    rows (repository s') = failRows (clock s) docs (rows (repository s)) /\
    oplog (repository s') = oplog (repository s) ++ map (fun d => OpUpdate (_id d)) docs /\
    emitted s' = emitted s ++ map (failureEmission (clock s)) docs.
Proof.
  revert s. induction docs as [|d docs IH]; intros s Hf Hdocs.
  - exists s. cbn. by rewrite !app_nil_r.
  - destruct (Hdocs d) as [Hact Hin]; [by left|].
    pose proof (updateFirst_present (_id d)
                  (JobRepository.updateQuery
                     (withFailure (clock s) unexpectedlyTermination (converted d)))
                  _ Hin) as Hone.
    destruct (updateFirst (_id d) _ (rows (repository s))) as [n r] eqn:Hup.
    cbn [fst] in Hone. subst n.
    cbn [map failEach]. unfold bind at 1.
    rewrite (Job_setStateToFailure_ok _ _ r); [|by cbn; rewrite Hact|done|done|exact Hup].
    match goal with |- context [failEach _ ?s1] =>
      destruct (IH s1) as (s' & Hrun & Hrows & Hlog & Hem) end.
    { qsimpl. by rewrite Hf. }
    { intros d' Hd'. destruct (Hdocs d') as [Hact' Hin']; [by right|].
      split; [done|]. qsimpl.
      replace r with (snd (updateFirst (_id d)
                             (JobRepository.updateQuery
                                (withFailure (clock s) unexpectedlyTermination (converted d)))
                             (rows (repository s)))) by by rewrite Hup.
      by rewrite updateFirst_ids. }
    exists s'. rewrite Hrun. split; [done|]. qsimpl.
    rewrite Hrows, Hlog, Hem, failRows_cons, Hup. cbn [map snd].
    rewrite <- !app_assoc. by repeat split.
Qed.

Lemma listed_elem st l d :
  d ∈ listed st l <->
  d ∈ l /\ match st with None => True | Some x => doc_state d = Some x end.
Proof.
  unfold listed. rewrite elem_of_sortBy, list_elem_of_filter.
  destruct st as [x|]; [rewrite bool_decide_eq_true|]; tauto.
Qed.

Lemma listed_NoDup st l : NoDup (map _id l) -> NoDup (map _id (listed st l)).
Proof.
  intros Hl. unfold listed.
  rewrite (Permutation_map _id (sortBy_Permutation _ _)).
  induction l as [|x l IH]; [constructor|].
  cbn [map] in Hl. apply NoDup_cons in Hl as [Hx Hl].
  rewrite filter_cons. destruct (decide _); [|by apply IH].
  cbn [map]. apply NoDup_cons. split; [|by apply IH].
  intros Hin. apply Hx. apply list_elem_of_In, in_map_iff in Hin as (y & Hy & Hin).
  apply list_elem_of_In, list_elem_of_filter in Hin as [_ Hin].
  rewrite <- Hy. apply list_elem_of_In, in_map, list_elem_of_In, Hin.
Qed.

Lemma failedRow_recovered now d :
  doc_state d = Some ACTIVE -> recoveredRow unexpectedlyTermination now d (failedRow now d).
Proof.
  intros Hact. unfold recoveredRow. rewrite bool_decide_eq_true_2 by done.
  by repeat split.
Qed.

(** ** C2: crash recovery at start-up *)

(** C2, amended: when the store does not fail and holds one row per id,
    creating the queue succeeds; it loads the store once and lists the
    ACTIVE jobs once, then updates each of them once, oldest first: every
    row that was ACTIVE is in FAILURE, failed now, with the message
    "unexpectedly termination" appended to its logs, every other row is
    unchanged, and one [Failure] event carrying that error is emitted per
    failed job. *)
Theorem createQueue_crash_recovery (persisted : DataStore) (now : Date)
    (ids : list string) (w : World) :
  faults persisted = [] ->
  uniqueIds persisted ->
  let (r, q) := Queue_createQueue persisted now ids w in
  r = Ok tt /\
  crashRecovered unexpectedlyTermination now (rows persisted) (rows (repository q)) /\
  oplog (repository q) =
    oplog persisted ++ [OpLoad; OpFind]
    ++ map (fun d => OpUpdate (_id d)) (listed (Some ACTIVE) (rows persisted)) /\
  emitted q = map (failureEmission now) (listed (Some ACTIVE) (rows persisted)).
Proof.
  intros Hf Hnd. unfold uniqueIds in Hnd.
  unfold Queue_createQueue, Queue_cleanupAfterUnexpectedlyTermination.
  unfold bind at 1. unfold liftDb, JobRepository.init, Queue_new. qsimpl.
  rewrite io_ok by by apply no_fault_head.
  unfold bind at 1. rewrite Queue_listJobs_ok by (qsimpl; by rewrite Hf).
  qsimpl. set (active := listed (Some ACTIVE) (rows persisted)).
  match goal with |- context [failEach _ ?s1] =>
    destruct (failEach_ok active s1) as (q & -> & Hrows & Hlog & Hem) end.
  { destruct (warnedAll_frame active
      (setRepository (served OpFind (rows persisted) (served OpLoad (rows persisted) persisted))
         (setRepository (served OpLoad (rows persisted) persisted)
            (mkQueue persisted ∅ false 0 [] [] 0 [] [] now ids w)))) as (-> & _ & _).
    qsimpl. by rewrite Hf. }
  { intros d Hd. apply listed_elem in Hd as [Hin Hact]. split; [done|].
    match goal with |- context [repository (warnedAll active ?s0)] =>
      destruct (warnedAll_frame active s0) as (-> & _ & _) end.
    qsimpl. apply list_elem_of_In, in_map, list_elem_of_In, Hin. }
  match type of Hrows with context [warnedAll active ?s0] =>
    destruct (warnedAll_frame active s0) as (Hr0 & He0 & Hc0) end.
  rewrite Hr0 in Hrows, Hlog. rewrite He0 in Hem. rewrite Hc0 in Hrows, Hem.
  clear Hr0 He0 Hc0. qsimpl.
  split; [done|]. split; [|split].
  - rewrite Hrows, failRows_map; [|done|by apply listed_NoDup|].
    2:{ intros d Hd. by apply listed_elem in Hd as [Hin _]. }
    unfold crashRecovered. apply Forall2_fmap_r, Forall_Forall2_diag, Forall_forall.
    intros r Hr. unfold compose.
    destruct (decide (doc_state r = Some ACTIVE)) as [Hact|Hact].
    + rewrite bool_decide_eq_true_2; [by apply failedRow_recovered|].
      apply list_elem_of_In, in_map, list_elem_of_In, listed_elem. by split.
    + rewrite bool_decide_eq_false_2.
      * unfold recoveredRow. by rewrite bool_decide_eq_false_2.
      * intros Hin. apply list_elem_of_In, in_map_iff in Hin as (d & Hid & Hd).
        apply list_elem_of_In, listed_elem in Hd as [Hd Hdact].
        assert (d = r) as -> by (by eapply same_id_same_row). done.
  - rewrite Hlog. by rewrite <- !app_assoc.
  - by rewrite Hem.
Qed.
End RecoveryProperties.
Section PriorityProperties.
Context {World : Type}.
Implicit Types (s : QueueState World) (d : NeDbJob) (job : Job).

(** *** No warning but the sanitizer's *)

Abbreviation keepsWarnings := (keeps (warnings (World:=World))).

Lemma keepsWarnings_liftDb {A} (m : M DataStore A) : keepsWarnings (liftDb m).
Proof. intros s. unfold liftDb. by destruct (m (repository s)). Qed.

Lemma keepsWarnings_caught {A} (m : M (QueueState World) A) j :
  keepsWarnings m -> keepsWarnings (tryCatch m (emitAndRethrow j)).
Proof. intros Hm. by apply keeps_tryCatch. Qed.

Lemma keepsWarnings_setStateToActive job : keepsWarnings (Job_setStateToActive job).
Proof.
  unfold Job_setStateToActive. destruct (negb _); [apply keeps_throw|].
  apply keeps_bind; [done|]. intros now.
  apply keeps_bind; [|intros _; apply keeps_ret].
  unfold Job_update. destruct (negb _); [apply keeps_throw|].
  apply keepsWarnings_caught, keepsWarnings_liftDb.
Qed.

Lemma db_insert_returns doc ds d ds1 :
  db_insert doc ds = (Ok d, ds1) -> d = doc.
Proof.
  unfold db_insert, bind. destruct (io _ ds) as [[[]|e] ds0]; [|done].
  destruct (bool_decide _); [done|]. by intros [= <- _].
Qed.

(** A job of a known priority is added without a warning. *)
Lemma keepsWarnings_addJob job :
  Priority.known (priority job) = true -> keepsWarnings (Queue_addJob job).
Proof.
  intros Hknown. apply keepsWarnings_caught. intros s. unfold bind, liftDb.
  destruct (JobRepository.addJob job (repository s)) as [[d|e] ds1] eqn:Hins; [|done].
  apply db_insert_returns in Hins as ->.
  destruct (lookupRequests _ _) as [|requests|len]; [done| |done].
  destruct (shiftUntilRequested _ requests) as [[request|] rest]; [|done].
  rewrite convertNeDbJobToJob_eq. unfold warned.
  cbn [doc_priority JobRepository.insertDoc]. rewrite Hknown.
  match goal with |- context [Job_setStateToActive ?j ?s1] =>
    pose proof (keepsWarnings_setStateToActive j s1) as Hk;
    destruct (Job_setStateToActive j s1) as [[j'|e'] s2] end; cbn [snd] in Hk |- *.
  - unfold deferResolve. cbn. by rewrite Hk.
  - by rewrite Hk.
Qed.

(** ** C8: priorities of the jobs the queue materializes *)

(** C8: [sanitizePriority] never fails and returns a known priority: a
    known value unchanged and without a warning, NORMAL with one warning
    for any other value.  Every job built from a document
    ([convertNeDbJobToJob], hence [findJob] and [listJobs]) has the
    sanitized priority of its document.  A job [createJob] returns has the
    supplied priority coerced by the same sanitizer, with the sanitizer's
    warning and no other, and NORMAL when the priority is omitted. *)
Theorem priorities_of_materialized_jobs :
  (forall (p : Z) s,
      Queue_sanitizePriority p s = (Ok (sanitized p), warned p s) /\
      Priority.known (sanitized p) = true /\
      (Priority.known p = true -> sanitized p = p /\ warned p s = s) /\
      (Priority.known p = false ->
       sanitized p = Priority.NORMAL /\
       warnings (warned p s) = warnings s ++ [invalidPriority p])) /\
  (forall d s,
      Queue_convertNeDbJobToJob d s = (Ok (converted d), warned (doc_priority d) s) /\
      priority (converted d) = sanitized (doc_priority d)) /\
  (forall i s job s',
      Queue_findJob i s = (Ok (Some job), s') -> Priority.known (priority job) = true) /\
  (forall st s jobs s',
      Queue_listJobs st s = (Ok jobs, s') ->
      Forall (fun job => Priority.known (priority job) = true) jobs) /\
  (forall (data : CreateJobData) s job s',
      Queue_createJob data s = (Ok job, s') ->
      priority job = sanitized (default Priority.NORMAL (cjd_priority data)) /\
      Priority.known (priority job) = true /\
      (cjd_priority data = None -> priority job = Priority.NORMAL) /\
      warnings s' = warnings (warned (default Priority.NORMAL (cjd_priority data)) s)).
Proof.
  split; [|split; [|split; [|split]]].
  - intros p s. split; [apply sanitizePriority_eq|]. split; [apply sanitized_known|].
    unfold sanitized, warned. split; intros ->; by split.
  - intros d s. split; [apply convertNeDbJobToJob_eq | reflexivity].
  - intros i s job s'. unfold Queue_findJob. rewrite tryCatch_emitAndRethrow.
    unfold bind at 1. destruct (liftDb _ s) as [[[d|]|e] s1]; [| |done].
    + unfold bind. rewrite convertNeDbJobToJob_eq. intros [= <- _].
      apply sanitized_known.
    + by intros [= ? _].
  - intros st s jobs s'. unfold Queue_listJobs. rewrite tryCatch_emitAndRethrow.
    unfold bind at 1. destruct (liftDb _ s) as [[docs|e] s1]; [|done].
    rewrite convertAll_eq. intros [= <- _].
    apply Forall_forall. intros job Hjob.
    apply list_elem_of_In, in_map_iff in Hjob as (d & <- & _). apply sanitized_known.
  - intros data s job s'. unfold Queue_createJob.
    unfold bind at 1. unfold newDate. unfold bind at 1.
    set (p := default Priority.NORMAL (cjd_priority data)).
    assert (forall u s0,
               warnings s0 = warnings s ->
               (let* job0 := newJob (mkJobConstructorData
                                       u (cjd_type data) (cjd_priority data) (cjd_data data)
                                       (clock s) (clock s) None None None None None None
                                       [] false) in
                Job_save job0) s0 = (Ok job, s') ->
               priority job = sanitized p /\ warnings s' = warnings (warned p s)) as Hrun.
    { intros u s0 Hw0. unfold bind at 1. rewrite newJob_eq. cbn [jcd_priority].
      fold p. unfold Job_save. cbn [saved jcd_saved]. unfold bind at 1.
      match goal with |- context [Queue_addJob ?j ?s1] =>
        pose proof (keepsWarnings_addJob j (sanitized_known p) s1) as Hk;
        destruct (Queue_addJob j s1) as [[[]|e] s2] end; [|done].
      cbn [snd] in Hk. intros [= <- <-]. split; [done|].
      rewrite Hk. unfold warned. destruct (Priority.known p); [done|].
      cbn. by rewrite Hw0. }
    unfold uuid. intros Hsave.
    assert (priority job = sanitized p /\ warnings s' = warnings (warned p s)) as [Hp Hw].
    { destruct (uuids s) as [|u us].
      - by apply (Hrun "" s).
      - by apply (Hrun u (setUuids us s)). }
    split; [done|]. split; [rewrite Hp; apply sanitized_known|]. split; [|done].
    intros Hnone. rewrite Hp. unfold p. by rewrite Hnone.
Qed.
End PriorityProperties.

(** * Properties of the worker registry *)

Lemma spawn_registered type processor r :
  registryAllocated r ->
  registered (spawn type processor r) = registered r ++ [mkWorker (created r) type] /\
  registryAllocated (spawn type processor r).
Proof.
  intros [a Ha]. unfold registered, registryAllocated, spawn. cbn.
  rewrite lookup_alter_eq, Ha. cbn. eauto.
Qed.

(** [process] sees of the heap only the registered workers. *)
Lemma process_observed type processor n r r' :
  registryAllocated r -> registryAllocated r' ->
  registered r = registered r' -> created r = created r' -> calls r = calls r' ->
  registryAllocated (Nat.iter n (spawn type processor) r) /\
  registryAllocated (Nat.iter n (spawn type processor) r') /\
  registered (Nat.iter n (spawn type processor) r)
  = registered (Nat.iter n (spawn type processor) r') /\
  created (Nat.iter n (spawn type processor) r)
  = created (Nat.iter n (spawn type processor) r') /\
  calls (Nat.iter n (spawn type processor) r)
  = calls (Nat.iter n (spawn type processor) r').
Proof.
  intros Ha Ha' Hr Hc Hl. induction n as [|n IH]; [done|].
  rewrite !Nat.iter_succ.
  destruct IH as (Hpa & Hpa' & Hpr & Hpc & Hpl).
  destruct (spawn_registered type processor _ Hpa) as [Hs Hsa].
  destruct (spawn_registered type processor _ Hpa') as [Hs' Hsa'].
  split; [done|]. split; [done|]. rewrite Hs, Hs', Hpr, Hpc.
  split; [done|]. unfold spawn at 1 3 5 7. cbn [created calls].
  by rewrite Hpc, Hpl.
Qed.

Lemma shutdown_observed timeoutMilliseconds type r :
  observed (Queue_shutdown timeoutMilliseconds type r) =
  (filter (fun worker =>
             worker ∉ filter (fun worker => targeted type worker = true) (registered r))
          (registered r),
   calls r ++ map (fun w => Shutdown w timeoutMilliseconds)
                  (filter (fun worker => targeted type worker = true) (registered r))).
Proof.
  unfold observed, Queue_shutdown, registered at 1. cbn.
  by rewrite lookup_insert_eq.
Qed.

(** C9: when [_workers] refers to an array of the heap, the [workers] getter
    returns a reference to another array, new in the heap, with the same
    elements; whatever the caller then does to the content of that array,
    the registered workers stay the same, and [process] and [shutdown] leave
    the same registered workers and make the same calls on workers as they
    would have without the mutation. *)
Theorem workers_getter_returns_fresh_copy (r : Registry)
    (f : list Worker -> list Worker) :
  registryAllocated r ->
  let (ref, r1) := Queue_workers r in
  ref <> _workers r1 /\
  arrays r !! ref = None /\
  arrays r1 !! ref = Some (registered r) /\
  registered r1 = registered r /\
  registered (mutateArray ref f r1) = registered r1 /\
  (forall type processor concurrency,
      observed (Queue_process type processor concurrency (mutateArray ref f r1)) =
      observed (Queue_process type processor concurrency r1)) /\
  (forall timeoutMilliseconds type,
      observed (Queue_shutdown timeoutMilliseconds type (mutateArray ref f r1)) =
      observed (Queue_shutdown timeoutMilliseconds type r1)).
Proof.
  intros Halloc. unfold Queue_workers.
  set (ref := fresh (dom (arrays r))).
  assert (arrays r !! ref = None) as Hfresh.
  { apply not_elem_of_dom. apply is_fresh. }
  assert (ref <> _workers r) as Hne.
  { intros Heq. destruct Halloc as [a Ha]. rewrite <- Heq in Ha. congruence. }
  set (r1 := mkRegistry _ _ _ _).
  assert (registered r1 = registered r) as Hr1.
  { unfold registered, r1. cbn. by rewrite lookup_insert_ne. }
  assert (registered (mutateArray ref f r1) = registered r1) as Hmut.
  { unfold registered, mutateArray, r1. cbn. by rewrite lookup_alter_ne. }
  assert (registryAllocated r1) as Ha1.
  { unfold registryAllocated, r1. cbn. by rewrite lookup_insert_ne. }
  assert (registryAllocated (mutateArray ref f r1)) as Ham.
  { unfold registryAllocated, mutateArray, r1. cbn.
    rewrite lookup_alter_ne, lookup_insert_ne by done. exact Halloc. }
  split; [done|]. split; [done|].
  split; [by unfold r1; cbn; rewrite lookup_insert_eq|].
  split; [done|]. split; [done|]. split.
  - intros type processor concurrency. unfold Queue_process, observed.
    destruct (process_observed type processor (Z.to_nat concurrency)
                (mutateArray ref f r1) r1 Ham Ha1 Hmut eq_refl eq_refl)
      as (_ & _ & -> & _ & ->).
    done.
  - intros timeoutMilliseconds type. rewrite !shutdown_observed. by rewrite Hmut.
Qed.

(** * Failures of the store are not swallowed *)

Section Surfacing.
Context {S : Type} (fl : S -> list (option Error)).

Lemma passed_refl f : passed f f.
Proof. by exists 0%nat. Qed.

Lemma passed_trans f1 f2 f3 : passed f1 f2 -> passed f2 f3 -> passed f1 f3.
Proof.
  intros [k1 ->] [k2 ->]. exists (k1 + k2)%nat.
  by rewrite replicate_add, <- app_assoc.
Qed.

Lemma passed_failed e f1 f2 f3 : passed f1 f2 -> failed e f2 f3 -> failed e f1 f3.
Proof.
  intros [k1 ->] [k2 ->]. exists (k1 + k2)%nat.
  by rewrite replicate_add, <- app_assoc.
Qed.

Lemma surfaces_same {A} (m : M S A) :
  (forall s, fl (snd (m s)) = fl s) -> surfaces fl m.
Proof.
  intros H s. specialize (H s). destruct (m s) as [[a|e] s']; cbn in H; rewrite H.
  - apply passed_refl.
  - left. apply passed_refl.
Qed.

Lemma surfaces_ret {A} (a : A) : surfaces fl (ret a).
Proof. by apply surfaces_same. Qed.

Lemma surfaces_throw {A} e : surfaces fl (throw (A:=A) e).
Proof. by apply surfaces_same. Qed.

Lemma surfaces_bind {A B} (m : M S A) (k : A -> M S B) :
  surfaces fl m -> (forall a, surfaces fl (k a)) -> surfaces fl (bind m k).
Proof.
  intros Hm Hk s. unfold bind. specialize (Hm s).
  destruct (m s) as [[a|e] s1]; [|done].
  specialize (Hk a s1). destruct (k a s1) as [[b|e] s2].
  - by eapply passed_trans.
  - destruct Hk as [Hk|Hk]; [left; by eapply passed_trans|right; by eapply passed_failed].
Qed.

(** A handler that throws on the error it was given, without a store call. *)
Lemma surfaces_rethrow {A} (m : M S A) (h : Error -> M S A) :
  surfaces fl m ->
  (forall e s, fst (h e s) = Throw e /\ fl (snd (h e s)) = fl s) ->
  surfaces fl (tryCatch m h).
Proof.
  intros Hm Hh s. unfold tryCatch. specialize (Hm s).
  destruct (m s) as [[a|e] s1]; [done|].
  destruct (Hh e s1) as [Hr Hf]. destruct (h e s1) as [r s2]. cbn in *.
  subst r. by rewrite Hf.
Qed.
End Surfacing.

Section StoreSurfacing.

Lemma surfaces_io op : surfaces faults (io op).
Proof.
  intros ds. unfold io. destruct (faults ds) as [|[e|] fs]; cbn.
  - apply passed_refl.
  - right. by exists 0%nat.
  - by exists 1%nat.
Qed.

Lemma surfaces_after_io {A} op (k : DataStore -> Result A * DataStore) :
  (forall ds, faults (snd (k ds)) = faults ds) ->
  surfaces faults (let* _ := io op in k).
Proof.
  intros Hk. apply surfaces_bind; [apply surfaces_io|]. intros _.
  by apply surfaces_same.
Qed.

Lemma surfaces_db_find q c n : surfaces faults (db_find q c n).
Proof. by apply surfaces_after_io. Qed.

Lemma surfaces_db_findOne i : surfaces faults (db_findOne i).
Proof. by apply surfaces_after_io. Qed.

Lemma surfaces_db_count i : surfaces faults (db_count i).
Proof. by apply surfaces_after_io. Qed.

Lemma surfaces_db_insert d : surfaces faults (db_insert d).
Proof. apply surfaces_after_io. intros ds. by destruct (bool_decide _). Qed.

Lemma surfaces_db_update i f : surfaces faults (db_update i f).
Proof. apply surfaces_after_io. intros ds. by destruct (updateFirst _ _ _). Qed.

Lemma surfaces_db_remove i : surfaces faults (db_remove i).
Proof. by apply surfaces_after_io. Qed.

Lemma surfaces_findInactiveJobByType type :
  surfaces faults (JobRepository.findInactiveJobByType type).
Proof.
  apply surfaces_bind; [apply surfaces_db_find|]. intros docs. apply surfaces_ret.
Qed.

Lemma surfaces_repo_updateJob job : surfaces faults (JobRepository.updateJob job).
Proof.
  apply surfaces_bind; [apply surfaces_db_update|]. intros n.
  destruct (negb _); [apply surfaces_throw | apply surfaces_ret].
Qed.
End StoreSurfacing.

Section QueueSurfacing.
Context {World : Type}.
Implicit Types (s : QueueState World) (d : NeDbJob) (job : Job).

Abbreviation surfacesQ := (surfaces (pending (World:=World))).

Lemma surfaces_liftDb {A} (m : M DataStore A) : surfaces faults m -> surfacesQ (liftDb m).
Proof.
  intros Hm s. unfold liftDb, pending. specialize (Hm (repository s)).
  by destruct (m (repository s)) as [[a|e] ds].
Qed.

Lemma surfaces_caught {A} (m : M (QueueState World) A) j :
  surfacesQ m -> surfacesQ (tryCatch m (emitAndRethrow j)).
Proof. intros Hm. by apply surfaces_rethrow. Qed.

Lemma surfaces_convert d : surfacesQ (Queue_convertNeDbJobToJob d).
Proof.
  apply surfaces_same. intros s. rewrite convertNeDbJobToJob_eq.
  unfold pending. cbn [snd]. by rewrite warned_repository.
Qed.

Lemma surfaces_convertAll docs : surfacesQ (convertAll docs).
Proof.
  induction docs as [|d docs IH]; simpl; [apply surfaces_ret|].
  apply surfaces_bind; [apply surfaces_convert|]. intros j.
  apply surfaces_bind; [apply IH|]. intros js. apply surfaces_ret.
Qed.

Lemma surfaces_updateJob job : surfacesQ (Queue_updateJob job).
Proof. apply surfaces_caught, surfaces_liftDb, surfaces_repo_updateJob. Qed.

Lemma surfaces_removeJob job : surfacesQ (Queue_removeJob job).
Proof. apply surfaces_caught, surfaces_liftDb, surfaces_db_remove. Qed.

Lemma surfaces_Job_remove job : surfacesQ (Job_remove job).
Proof.
  unfold Job_remove. destruct (negb _); [apply surfaces_throw | apply surfaces_removeJob].
Qed.

Lemma surfaces_setStateToActive job : surfacesQ (Job_setStateToActive job).
Proof.
  unfold Job_setStateToActive. destruct (negb _); [apply surfaces_throw|].
  apply surfaces_bind; [by apply surfaces_same|]. intros now.
  apply surfaces_bind; [|intros _; apply surfaces_ret].
  unfold Job_update. destruct (negb _); [apply surfaces_throw | apply surfaces_updateJob].
Qed.

Lemma surfaces_parkRequest type (sr : World -> bool) : surfacesQ (parkRequest type sr).
Proof.
  apply surfaces_same. intros s. unfold parkRequest.
  by destruct (lookupRequests type s).
Qed.

(** A rejected promise handed to the caller comes with no store call of
    its own. *)
Lemma surfaces_settle (m : M (QueueState World) Returns) :
  surfacesQ m -> surfacesQ (fun s => settle (m s)).
Proof.
  intros Hm s. specialize (Hm s). destruct (m s) as [[[r|e]|e] s']; cbn; auto.
Qed.

Lemma surfaces_findJob i : surfacesQ (Queue_findJob i).
Proof.
  apply surfaces_caught, surfaces_bind; [apply surfaces_liftDb, surfaces_db_findOne|].
  intros [d|]; [|apply surfaces_ret].
  apply surfaces_bind; [apply surfaces_convert|]. intros j. apply surfaces_ret.
Qed.

Lemma surfaces_listJobs st : surfacesQ (Queue_listJobs st).
Proof.
  apply surfaces_caught, surfaces_bind; [apply surfaces_liftDb, surfaces_db_find|].
  intros docs. apply surfaces_convertAll.
Qed.

Lemma surfaces_removeJobById i : surfacesQ (Queue_removeJobById i).
Proof.
  apply surfaces_bind; [apply surfaces_caught, surfaces_liftDb, surfaces_db_findOne|].
  intros [d|]; [|apply surfaces_throw].
  apply surfaces_bind; [apply surfaces_convert|]. intros j.
  apply surfaces_caught, surfaces_Job_remove.
Qed.

Lemma surfaces_addJob job : surfacesQ (Queue_addJob job).
Proof.
  apply surfaces_caught, surfaces_bind; [apply surfaces_liftDb, surfaces_db_insert|].
  intros d s1.
  destruct (lookupRequests (type job) s1) as [|requests|len];
    [apply passed_refl| |left; apply passed_refl].
  destruct (shiftUntilRequested (world s1) requests) as [[request|] rest];
    [|apply passed_refl].
  cbv zeta.
  match goal with |- context [ ?m (setWaitingRequests ?w s1) ] =>
    assert (surfacesQ m) as Hm end.
  { apply surfaces_bind; [apply surfaces_convert|]. intros j.
    apply surfaces_bind; [apply surfaces_setStateToActive|]. intros j'.
    by apply surfaces_same. }
  exact (Hm (setWaitingRequests (<[type job:=rest]> (waitingRequests s1)) s1)).
Qed.

Lemma surfaces_requestJobForProcessing type (sr : World -> bool) :
  surfacesQ (Queue_requestJobForProcessing type sr).
Proof.
  intros s. unfold Queue_requestJobForProcessing.
  destruct (someoneWaiting type s).
  { apply (surfaces_settle _ (surfaces_parkRequest type sr)). }
  destruct (mutexLocked s); [apply passed_refl|].
  match goal with |- context [tryFinally ?m ?f ?s1] =>
    assert (surfacesQ (tryFinally m f)) as Hm;
      [|exact (surfaces_settle _ Hm s1)] end.
  assert (surfacesQ (tryCatch (requestUnderMutex type sr) (emitAndRethrow None))) as Hbody.
  { apply surfaces_caught, surfaces_bind;
      [apply surfaces_liftDb, surfaces_findInactiveJobByType|].
    intros [d|].
    - intros s3. destruct (sr (world s3)); [|apply passed_refl].
      revert s3. apply surfaces_bind; [apply surfaces_convert|]. intros j.
      apply surfaces_bind; [apply surfaces_setStateToActive|]. intros j'.
      apply surfaces_ret.
    - apply surfaces_bind; [|intros _; apply surfaces_parkRequest].
      apply surfaces_same. intros s3. by destruct (lookupRequests type s3). }
  intros s1. unfold tryFinally. specialize (Hbody s1).
  by destruct (tryCatch _ _ s1) as [[r|e] s2].
Qed.

Lemma surfaces_removeEach (callback : Job -> Result bool) docs :
  surfaces (fun sv : QueueState World * RemoveLocals => pending (fst sv))
           (removeEach callback docs).
Proof.
  assert (forall A (m : M (QueueState World) A),
             surfacesQ m ->
             surfaces (fun sv : QueueState World * RemoveLocals => pending (fst sv))
                      (onQueue m)) as Hon.
  { intros A m Hm [s v]. unfold onQueue. specialize (Hm s).
    by destruct (m s) as [[a|e] s']. }
  induction docs as [|d docs IH]; cbn [removeEach]; [apply surfaces_ret|].
  apply surfaces_bind; [apply Hon, surfaces_convert|]. intros j.
  apply surfaces_bind; [apply surfaces_same; by intros [s v]|]. intros _.
  apply surfaces_bind; [apply surfaces_same; by intros [s v]|]. intros hit.
  apply surfaces_bind.
  { destruct hit; [|apply surfaces_ret].
    apply surfaces_bind; [apply surfaces_same; by intros [s v]|]. intros _.
    apply Hon, surfaces_Job_remove. }
  intros _. apply surfaces_bind; [apply surfaces_same; by intros [s v]|].
  intros _. apply IH.
Qed.

Lemma surfaces_removeJobsByCallback (callback : Job -> Result bool) :
  surfacesQ (Queue_removeJobsByCallback callback).
Proof.
  intros s. unfold Queue_removeJobsByCallback.
  match goal with |- context [tryCatch ?m ?h ?arg] =>
    assert (surfaces (fun sv : QueueState World * RemoveLocals => pending (fst sv))
                     (tryCatch m h)) as Hm; [|specialize (Hm arg);
      destruct (tryCatch m h arg) as [[a|e] [s' v']]] end.
  { apply surfaces_rethrow.
    - apply surfaces_bind; [|intros docs; apply surfaces_removeEach].
      intros [s0 v0]. unfold onQueue.
      pose proof (surfaces_liftDb _ (surfaces_db_find (fun _ => true) [(doc_createdAt, 1)] None) s0) as H.
      unfold JobRepository.listJobs. by destruct (liftDb _ s0) as [[a|e] s1].
    - by intros e [s0 v0]. }
  - exact Hm.
  - exact Hm.
Qed.
End QueueSurfacing.
Section ErrorsTheorem.
Context {World : Type}.
Implicit Types (s : QueueState World) (d : NeDbJob) (job : Job).

(** *** Store calls that are served, and the one that fails *)

Lemma servedNext_head k f :
  servedNext (S k) f -> (head f = None \/ head f = Some None) /\ servedNext k (tail f).
Proof.
  unfold servedNext. destruct f as [|x f]; cbn [take head tail].
  - intros _. split; [by left|]. by rewrite take_nil.
  - intros H. apply Forall_cons in H as [-> H]. split; [by right|done].
Qed.

Lemma drop_tail {A} k (f : list A) : drop (S k) f = drop k (tail f).
Proof. destruct f; cbn [tail drop]; [by rewrite drop_nil|done]. Qed.

Lemma lookup_tail {A} k (f : list A) : f !! S k = tail f !! k.
Proof. by destruct f. Qed.

Lemma listJobs_served st ds :
  head (faults ds) = None \/ head (faults ds) = Some None ->
  JobRepository.listJobs st ds = (Ok (listed st (rows ds)), served OpFind (rows ds) ds).
Proof.
  intros Hs. unfold JobRepository.listJobs, db_find, bind. rewrite io_ok by done.
  unfold listed. cbn [limitOf rows served]. by destruct st.
Qed.

Lemma Job_remove_served job s :
  saved job = true ->
  head (faults (repository s)) = None \/ head (faults (repository s)) = Some None ->
  Job_remove job s =
  (Ok tt, setRepository (served (OpRemove (id job))
                                (removeFirst (id job) (rows (repository s)))
                                (repository s)) s).
Proof.
  intros Hsv Hs. unfold Job_remove. rewrite Hsv. cbn [negb].
  unfold Queue_removeJob. rewrite tryCatch_emitAndRethrow.
  unfold liftDb, JobRepository.removeJob, db_remove, bind.
  by rewrite io_ok by done.
Qed.

Lemma Job_remove_fails job s e :
  saved job = true ->
  head (faults (repository s)) = Some (Some e) ->
  exists s',
    Job_remove job s = (Throw e, s') /\
    rows (repository s') = rows (repository s) /\
    emitted s' = emitted s ++ [errorEmission e (Some job)].
Proof.
  intros Hsv Hs. unfold Job_remove. rewrite Hsv. cbn [negb].
  unfold Queue_removeJob. rewrite tryCatch_emitAndRethrow.
  unfold liftDb, JobRepository.removeJob, db_remove, bind, io.
  destruct (faults (repository s)) as [|[e'|] fs]; [done| |done].
  injection Hs as ->. eexists. by repeat split.
Qed.

(** *** The loop of [removeJobsByCallback], iteration by iteration *)

Lemma removeEach_app (callback : Job -> Result bool) pre rest
    (sv : QueueState World * RemoveLocals) :
  removeEach callback (pre ++ rest) sv =
  match removeEach callback pre sv with
  | (Ok _, sv') => removeEach callback rest sv'
  | (Throw e, sv') => (Throw e, sv')
  end.
Proof.
  revert sv. induction pre as [|x pre IH]; intros sv; [by cbn|].
  cbn [app removeEach]. unfold bind.
  destruct (onQueue (Queue_convertNeDbJobToJob x) sv) as [[j|e] sv1]; [|done].
  destruct (setCurrentJob (Some j) sv1) as [[[]|e] sv2]; [|done].
  destruct (callCallback callback j sv2) as [[hit|e] sv3]; [|done].
  destruct hit.
  - destruct (pushRemoved j sv3) as [[[]|e] sv4]; [|done].
    destruct (onQueue (Job_remove j) sv4) as [[[]|e] sv5]; [|done].
    destruct (setCurrentJob None sv5) as [[[]|e] sv6]; [|done].
    apply IH.
  - unfold ret. destruct (setCurrentJob None sv3) as [[[]|e] sv4]; [|done].
    apply IH.
Qed.

Lemma without_cons j (removed : list Job) l :
  without (j :: removed) l = without removed (removeFirst (id j) l).
Proof. done. Qed.

(** The iterations over documents on which the predicate answers, with
    every removal served: the accepted jobs are removed, in order. *)
Lemma removeEach_served (callback : Job -> Result bool) pre s (v : RemoveLocals) :
  Forall (fun x => exists b, callback (converted x) = Ok b) pre ->
  servedNext (length (accepted callback pre)) (faults (repository s)) ->
  exists s' v',
    removeEach callback pre (s, v) = (Ok tt, (s', v')) /\
    rows (repository s') = without (accepted callback pre) (rows (repository s)) /\
    faults (repository s')
    = drop (length (accepted callback pre)) (faults (repository s)) /\
    emitted s' = emitted s /\
    removedJobs v' = removedJobs v ++ accepted callback pre.
Proof.
  intros Hans. revert s v. induction Hans as [|x pre [b Hb] _ IH]; intros s v Hserved.
  - exists s, v. cbn. by rewrite app_nil_r.
  - cbn [removeEach]. unfold bind at 1. unfold onQueue at 1.
    rewrite convertNeDbJobToJob_eq.
    unfold bind at 1. unfold setCurrentJob at 1.
    unfold bind at 1. unfold callCallback at 1. rewrite Hb.
    destruct b.
    + rewrite accepted_cons_true in Hserved |- * by done. cbn [length] in Hserved |- *.
      apply servedNext_head in Hserved as [Hhead Hrest].
      unfold bind at 1. unfold bind at 1. unfold pushRemoved at 1.
      unfold onQueue at 1.
      rewrite Job_remove_served; [|done|by rewrite warned_repository].
      unfold bind at 1. unfold setCurrentJob at 1.
      match goal with |- context [removeEach callback pre (?s1, ?v1)] =>
        destruct (IH s1 v1) as (s' & v' & -> & Hrows & Hfaults & Hem & Hrem) end.
      { qsimpl. by rewrite warned_repository. }
      exists s', v'. split; [done|].
      rewrite Hrows, Hfaults, Hem, Hrem, without_cons, drop_tail.
      qsimpl. rewrite warned_repository, warned_emitted.
      cbn [removedJobs id converted]. by rewrite <- app_assoc.
    + rewrite accepted_cons_false in Hserved |- * by done.
      unfold bind at 1. unfold ret at 1.
      unfold bind at 1. unfold setCurrentJob at 1.
      match goal with |- context [removeEach callback pre (?s1, ?v1)] =>
        destruct (IH s1 v1) as (s' & v' & -> & Hrows & Hfaults & Hem & Hrem) end.
      { by rewrite warned_repository. }
      exists s', v'. split; [done|].
      by rewrite Hrows, Hfaults, Hem, Hrem, warned_repository, warned_emitted.
Qed.

(** The call when the loop fails at a document, after the iterations
    before it went through. *)
Lemma removeJobsByCallback_predicate_throws (callback : Job -> Result bool)
    s pre d post ds s2 (v2 : RemoveLocals) e :
  JobRepository.listJobs None (repository s) = (Ok (pre ++ d :: post), ds) ->
  removeEach callback pre (setRepository ds s, mkRemoveLocals [] None)
  = (Ok tt, (s2, v2)) ->
  callback (converted d) = Throw e ->
  Queue_removeJobsByCallback callback s
  = (Throw e,
     setEmitted (emitted s2 ++ [errorEmission e (Some (converted d))])
                (warned (doc_priority d) s2)).
Proof.
  intros Hlist Hpre Hcb. unfold Queue_removeJobsByCallback, tryCatch.
  unfold bind at 1. unfold onQueue at 1. unfold liftDb. rewrite Hlist.
  rewrite removeEach_app, Hpre. cbn [removeEach].
  unfold bind at 1. unfold onQueue at 1. rewrite convertNeDbJobToJob_eq.
  unfold bind at 1. unfold setCurrentJob at 1.
  unfold bind at 1. unfold callCallback at 1. rewrite Hcb.
  unfold onQueue, emitAndRethrow, bind, emit, throw. cbn [currentJob].
  by rewrite warned_emitted.
Qed.

Lemma removeJobsByCallback_removal_throws (callback : Job -> Result bool)
    s pre d post ds s2 (v2 : RemoveLocals) s3 e :
  JobRepository.listJobs None (repository s) = (Ok (pre ++ d :: post), ds) ->
  removeEach callback pre (setRepository ds s, mkRemoveLocals [] None)
  = (Ok tt, (s2, v2)) ->
  callback (converted d) = Ok true ->
  Job_remove (converted d) (warned (doc_priority d) s2) = (Throw e, s3) ->
  Queue_removeJobsByCallback callback s
  = (Throw e, setEmitted (emitted s3 ++ [errorEmission e (Some (converted d))]) s3).
Proof.
  intros Hlist Hpre Hcb Hrm. unfold Queue_removeJobsByCallback, tryCatch.
  unfold bind at 1. unfold onQueue at 1. unfold liftDb. rewrite Hlist.
  rewrite removeEach_app, Hpre. cbn [removeEach].
  unfold bind at 1. unfold onQueue at 1. rewrite convertNeDbJobToJob_eq.
  unfold bind at 1. unfold setCurrentJob at 1.
  unfold bind at 1. unfold callCallback at 1. rewrite Hcb.
  unfold bind at 1. unfold bind at 1. unfold pushRemoved at 1.
  unfold onQueue at 1. rewrite Hrm.
  unfold onQueue, emitAndRethrow, bind, emit, throw. by cbn [currentJob].
Qed.

(** ** C10: [removeJobsByCallback] does not undo on error *)

(** C10: the listing returns the documents [pre], then [d], then [post];
    the predicate answers on the jobs of [pre], and the listing and the
    removals of the jobs it accepted there are served by the store.  If
    then the predicate throws [e] on the job of [d], or accepts it and the
    store fails its removal with [e], the call throws [e]: the caller gets
    no list of jobs.  The rows of the accepted jobs of [pre] are gone from
    the store and stay so, every other row is as before, and the last
    event emitted is the [Error] event carrying [e] and the job of [d]. *)
Theorem removeJobsByCallback_not_atomic (callback : Job -> Result bool) s
    (pre : list NeDbJob) d (post : list NeDbJob) (e : Error) :
  listed None (rows (repository s)) = pre ++ d :: post ->
  Forall (fun x => exists b, callback (converted x) = Ok b) pre ->
  servedNext (S (length (accepted callback pre))) (faults (repository s)) ->
  (callback (converted d) = Throw e \/
   (callback (converted d) = Ok true /\
    faults (repository s) !! S (length (accepted callback pre)) = Some (Some e))) ->
  let (r, s') := Queue_removeJobsByCallback callback s in
  r = Throw e /\
  rows (repository s') = without (accepted callback pre) (rows (repository s)) /\
  exists l, emitted s' = emitted s ++ l ++ [errorEmission e (Some (converted d))].
Proof.
  intros Hdocs Hans Hserved Hfail.
  apply servedNext_head in Hserved as [Hhead Hrest].
  pose proof (listJobs_served None _ Hhead) as Hlist. rewrite Hdocs in Hlist.
  destruct (removeEach_served callback pre
              (setRepository (served OpFind (rows (repository s)) (repository s)) s)
              (mkRemoveLocals [] None) Hans Hrest)
    as (s2 & v2 & Hpre & Hrows & Hfaults & Hem & _).
  qsimpl.
  destruct Hfail as [Hcb|[Hcb Hfault]].
  - rewrite (removeJobsByCallback_predicate_throws _ _ _ _ _ _ _ _ _ Hlist Hpre Hcb).
    qsimpl. rewrite warned_repository, Hem. split; [done|]. split; [done|]. by exists [].
  - destruct (Job_remove_fails (converted d) (warned (doc_priority d) s2) e eq_refl)
      as (s3 & Hrm & Hrows3 & Hem3).
    { rewrite warned_repository, Hfaults.
      rewrite lookup_tail in Hfault. rewrite <- Hfault.
      generalize (length (accepted callback pre)) (tail (faults (repository s))).
      intros k f. by rewrite head_lookup, lookup_drop, Nat.add_0_r. }
    rewrite (removeJobsByCallback_removal_throws _ _ _ _ _ _ _ _ _ _ Hlist Hpre Hcb Hrm).
    qsimpl. rewrite Hrows3, warned_repository, Hem3, warned_emitted, Hem.
    split; [done|]. split; [done|].
    exists [errorEmission e (Some (converted d))]. by rewrite <- app_assoc.
Qed.

(** ** C7: errors are emitted and raised again *)

(** C7: for every error [e] that arises in a job or storage operation of
    one of the eight methods, the method throws [e] and the last event it
    emits is an [Error] event carrying [e], together with the job where
    the [catch] block names one.  Operation by operation: the look-up of
    [findJob] and the listing of [listJobs] (no job); the write of
    [updateJob], the delete of [removeJob] and the insert of [addJob] (the
    job given); the activation of the inserted job in [addJob] (the job
    given); the fetch and the activation in [requestJobForProcessing] (no
    job; the mutex is released); the look-up (no job) and the removal (the
    job found) in [removeJobById]; the listing (no job), the predicate and
    the removal (the job at hand) in [removeJobsByCallback].  And no
    method swallows a failure of the store: a call that returns has had no
    failing store call, and a call that throws has had none, or one that
    failed with the error thrown. *)
Theorem queue_errors_emitted_and_raised (e : Error) s :
  (forall i ds,
      JobRepository.findJob i (repository s) = (Throw e, ds) ->
      let (r, s') := Queue_findJob i s in
      r = Throw e /\ emitted s' = emitted s ++ [errorEmission e None]) /\
  (forall st ds,
      JobRepository.listJobs st (repository s) = (Throw e, ds) ->
      let (r, s') := Queue_listJobs st s in
      r = Throw e /\ emitted s' = emitted s ++ [errorEmission e None]) /\
  (forall job ds,
      JobRepository.updateJob job (repository s) = (Throw e, ds) ->
      let (r, s') := Queue_updateJob job s in
      r = Throw e /\ emitted s' = emitted s ++ [errorEmission e (Some job)]) /\
  (forall job ds,
      JobRepository.removeJob (id job) (repository s) = (Throw e, ds) ->
      let (r, s') := Queue_removeJob job s in
      r = Throw e /\ emitted s' = emitted s ++ [errorEmission e (Some job)]) /\
  (forall job ds,
      JobRepository.addJob job (repository s) = (Throw e, ds) ->
      let (r, s') := Queue_addJob job s in
      r = Throw e /\ emitted s' = emitted s ++ [errorEmission e (Some job)]) /\
  (forall job d ds (requests rest : list (WaitingWorkerRequest World)) request s2,
      JobRepository.addJob job (repository s) = (Ok d, ds) ->
      waitingRequests s !! type job = Some requests ->
      shiftUntilRequested (world s) requests = (Some request, rest) ->
      Job_setStateToActive (converted d)
        (warned (doc_priority d)
           (setWaitingRequests (<[type job := rest]> (waitingRequests s))
              (setRepository ds s)))
      = (Throw e, s2) ->
      let (r, s') := Queue_addJob job s in
      r = Throw e /\ emitted s' = emitted s2 ++ [errorEmission e (Some job)]) /\
  (forall type (sr : World -> bool) ds,
      someoneWaiting type s = false ->
      mutexLocked s = false ->
      JobRepository.findInactiveJobByType type (repository s) = (Throw e, ds) ->
      let (r, s') := Queue_requestJobForProcessing type sr s in
      r = Throw e /\ emitted s' = emitted s ++ [errorEmission e None] /\
      mutexLocked s' = false) /\
  (forall type (sr : World -> bool) d ds s2,
      someoneWaiting type s = false ->
      mutexLocked s = false ->
      JobRepository.findInactiveJobByType type (repository s) = (Ok (Some d), ds) ->
      sr (world s) = true ->
      Job_setStateToActive (converted d)
        (warned (doc_priority d)
           (setRepository ds (setMutex true (S (mutexAcquired s)) s)))
      = (Throw e, s2) ->
      let (r, s') := Queue_requestJobForProcessing type sr s in
      r = Throw e /\ emitted s' = emitted s2 ++ [errorEmission e None] /\
      mutexLocked s' = false) /\
  (forall i ds,
      JobRepository.findJob i (repository s) = (Throw e, ds) ->
      let (r, s') := Queue_removeJobById i s in
      r = Throw e /\ emitted s' = emitted s ++ [errorEmission e None]) /\
  (forall i d ds s2,
      JobRepository.findJob i (repository s) = (Ok (Some d), ds) ->
      Job_remove (converted d) (warned (doc_priority d) (setRepository ds s))
      = (Throw e, s2) ->
      let (r, s') := Queue_removeJobById i s in
      r = Throw e /\
      emitted s' = emitted s2 ++ [errorEmission e (Some (converted d))]) /\
  (forall (callback : Job -> Result bool) ds,
      JobRepository.listJobs None (repository s) = (Throw e, ds) ->
      let (r, s') := Queue_removeJobsByCallback callback s in
      r = Throw e /\ emitted s' = emitted s ++ [errorEmission e None]) /\
  (forall (callback : Job -> Result bool) pre d post ds s2 (v2 : RemoveLocals),
      JobRepository.listJobs None (repository s) = (Ok (pre ++ d :: post), ds) ->
      removeEach callback pre (setRepository ds s, mkRemoveLocals [] None)
      = (Ok tt, (s2, v2)) ->
      callback (converted d) = Throw e ->
      let (r, s') := Queue_removeJobsByCallback callback s in
      r = Throw e /\
      emitted s' = emitted s2 ++ [errorEmission e (Some (converted d))]) /\
  (forall (callback : Job -> Result bool) pre d post ds s2 (v2 : RemoveLocals) s3,
      JobRepository.listJobs None (repository s) = (Ok (pre ++ d :: post), ds) ->
      removeEach callback pre (setRepository ds s, mkRemoveLocals [] None)
      = (Ok tt, (s2, v2)) ->
      callback (converted d) = Ok true ->
      Job_remove (converted d) (warned (doc_priority d) s2) = (Throw e, s3) ->
      let (r, s') := Queue_removeJobsByCallback callback s in
      r = Throw e /\
      emitted s' = emitted s3 ++ [errorEmission e (Some (converted d))]) /\
  (forall c : QueueCall World,
      let (r, s') := raisedBy c s in
      match r with
      | None => passed (pending s) (pending s')
      | Some e' => passed (pending s) (pending s') \/ failed e' (pending s) (pending s')
      end).
Proof.
  repeat match goal with |- _ /\ _ => split end.
  - intros i ds H. unfold Queue_findJob. rewrite tryCatch_emitAndRethrow.
    unfold bind, liftDb. by rewrite H.
  - intros st ds H. unfold Queue_listJobs. rewrite tryCatch_emitAndRethrow.
    unfold bind, liftDb. by rewrite H.
  - intros job ds H. unfold Queue_updateJob. rewrite tryCatch_emitAndRethrow.
    unfold liftDb. by rewrite H.
  - intros job ds H. unfold Queue_removeJob. rewrite tryCatch_emitAndRethrow.
    unfold liftDb. by rewrite H.
  - intros job ds H. unfold Queue_addJob. rewrite tryCatch_emitAndRethrow.
    unfold bind, liftDb. by rewrite H.
  - intros job d ds requests rest request s2 Hins Hw Hshift Hact.
    unfold Queue_addJob. rewrite tryCatch_emitAndRethrow.
    unfold bind at 1. unfold liftDb. rewrite Hins.
    rewrite (lookupRequests_own _ _ requests) by done. qsimpl. rewrite Hshift.
    unfold bind at 1. rewrite convertNeDbJobToJob_eq.
    unfold bind at 1. by rewrite Hact.
  - intros type sr ds Hw Hfree H. unfold Queue_requestJobForProcessing.
    rewrite Hw, Hfree. unfold tryFinally. rewrite tryCatch_emitAndRethrow.
    unfold requestUnderMutex, bind, liftDb. cbn [repository setMutex]. by rewrite H.
  - intros type sr d ds s2 Hw Hfree H Hsr Hact. unfold Queue_requestJobForProcessing.
    rewrite Hw, Hfree. unfold tryFinally. rewrite tryCatch_emitAndRethrow.
    unfold requestUnderMutex. unfold bind at 1. unfold liftDb.
    cbn [repository setMutex]. rewrite H. qsimpl. rewrite Hsr.
    unfold bind at 1. rewrite convertNeDbJobToJob_eq.
    unfold bind at 1. by rewrite Hact.
  - intros i ds H. unfold Queue_removeJobById. unfold bind at 1.
    rewrite tryCatch_emitAndRethrow. unfold liftDb. by rewrite H.
  - intros i d ds s2 H Hrm. unfold Queue_removeJobById. unfold bind at 1.
    rewrite tryCatch_emitAndRethrow. unfold liftDb. rewrite H.
    unfold bind at 1. rewrite convertNeDbJobToJob_eq.
    rewrite tryCatch_emitAndRethrow. by rewrite Hrm.
  - intros callback ds H. unfold Queue_removeJobsByCallback, tryCatch.
    unfold bind at 1. unfold onQueue at 1. unfold liftDb. rewrite H.
    unfold onQueue, emitAndRethrow, bind, emit, throw. by cbn.
  - intros callback pre d post ds s2 v2 Hlist Hpre Hcb.
    rewrite (removeJobsByCallback_predicate_throws _ _ _ _ _ _ _ _ _ Hlist Hpre Hcb).
    done.
  - intros callback pre d post ds s2 v2 s3 Hlist Hpre Hcb Hrm.
    rewrite (removeJobsByCallback_removal_throws _ _ _ _ _ _ _ _ _ _ Hlist Hpre Hcb Hrm).
    done.
  - intros c. destruct c as [i|st|i|callback|type sr|job|job|job];
      cbn [raisedBy]; unfold thrown.
    + pose proof (surfaces_findJob i s) as Hs.
      by destruct (Queue_findJob i s) as [[a|e'] s'].
    + pose proof (surfaces_listJobs st s) as Hs.
      by destruct (Queue_listJobs st s) as [[a|e'] s'].
    + pose proof (surfaces_removeJobById i s) as Hs.
      by destruct (Queue_removeJobById i s) as [[a|e'] s'].
    + pose proof (surfaces_removeJobsByCallback callback s) as Hs.
      by destruct (Queue_removeJobsByCallback callback s) as [[a|e'] s'].
    + pose proof (surfaces_requestJobForProcessing type sr s) as Hs.
      by destruct (Queue_requestJobForProcessing type sr s) as [[a|e'] s'].
    + pose proof (surfaces_addJob job s) as Hs.
      by destruct (Queue_addJob job s) as [[a|e'] s'].
    + pose proof (surfaces_updateJob job s) as Hs.
      by destruct (Queue_updateJob job s) as [[a|e'] s'].
    + pose proof (surfaces_removeJob job s) as Hs.
      by destruct (Queue_removeJob job s) as [[a|e'] s'].
Qed.
End ErrorsTheorem.

(** * The properties at concrete inputs *)

(** C1 as stated fails: with a NORMAL (0) job and a younger LOW (10) job
    waiting, the fetch returns the LOW one, whose priority value is not the
    smallest. *)
Lemma findInactiveJobByType_not_smallest_priority :
  fst (JobRepository.findInactiveJobByType "T" twoWaiting)
  = Ok (Some (docT "l" Priority.LOW 2)) /\
  ~ smallestPriorityFirst "T" (rows twoWaiting) (Some (docT "l" Priority.LOW 2)).
Proof.
  split; [reflexivity|].
  intros (_ & _ & Hmin).
  destruct (Hmin (docT "n" Priority.NORMAL 1)) as [Hle _].
  - by left.
  - by split.
  - vm_compute in Hle. by apply Hle.
Qed.

(** The first scenario of the specification (J1 NORMAL at 1, J2 HIGH at 2,
    J3 NORMAL at 3) with the enum values of the document schema, where HIGH
    is -10: the fetch returns J1, J3 and J2 in this order. *)
Lemma fetch_order_of_three_jobs :
  let j1 := docT "J1" Priority.NORMAL 1 in
  let j2 := docT "J2" Priority.HIGH 2 in
  let j3 := docT "J3" Priority.NORMAL 3 in
  fst (JobRepository.findInactiveJobByType "T" (mkDataStore [j1; j2; j3] [] [])) = Ok (Some j1) /\
  fst (JobRepository.findInactiveJobByType "T" (mkDataStore [j2; j3] [] [])) = Ok (Some j3) /\
  fst (JobRepository.findInactiveJobByType "T" (mkDataStore [j2] [] [])) = Ok (Some j2) /\
  fst (JobRepository.findInactiveJobByType "T" emptyStore) = Ok None.
Proof. repeat split; reflexivity. Qed.

(** C2 as stated fails: after a crash with job A running, start-up fails A
    with the message "unexpectedly termination", which is not the
    "unexpectedly terminated" of the claim. *)
Lemma createQueue_error_is_not_unexpectedly_terminated :
  fst (Queue_createQueue crashed 10 [] tt) = Ok tt /\
  ~ crashRecovered (mkError "unexpectedly terminated") 10 (rows crashed)
      (rows (repository (snd (Queue_createQueue crashed 10 [] tt)))).
Proof.
  split; [reflexivity|].
  intros Hrec. vm_compute in Hrec.
  apply Forall2_cons_1 in Hrec as [(_ & _ & _ & _ & _ & _ & Hlogs) _].
  discriminate Hlogs.
Qed.

(** C2, amended, at the store a crash left with A running, B waiting and C
    done. *)
Lemma createQueue_crash_recovery_witness :
  faults crashed = [] /\
  uniqueIds crashed /\
  let (r, q) := Queue_createQueue crashed 10 [] tt in
  r = Ok tt /\
  crashRecovered unexpectedlyTermination 10 (rows crashed) (rows (repository q)) /\
  oplog (repository q) =
    oplog crashed ++ [OpLoad; OpFind]
    ++ map (fun d => OpUpdate (_id d)) (listed (Some ACTIVE) (rows crashed)) /\
  emitted q = map (failureEmission 10) (listed (Some ACTIVE) (rows crashed)).
Proof.
  assert (uniqueIds crashed) as Hnd by (unfold uniqueIds; compute_done).
  split; [reflexivity|]. split; [exact Hnd|].
  exact (createQueue_crash_recovery crashed 10 [] tt eq_refl Hnd).
Defined.

(** C3 where one request is parked for "T". *)
Lemma requestJobForProcessing_fast_park_witness :
  waitingRequests oneParked !! "T" = Some [mkRequest 0%nat eager] /\
  [mkRequest 0%nat eager] <> [] /\
  let (r, s') := Queue_requestJobForProcessing "T" eager oneParked in
  r = Ok (Parked (promises oneParked)) /\
  waitingRequests s' =
    <["T" := [mkRequest 0%nat eager] ++ [mkRequest (promises oneParked) eager]]>
      (waitingRequests oneParked) /\
  promises s' = S (promises oneParked) /\
  repository s' = repository oneParked /\
  mutexAcquired s' = mutexAcquired oneParked /\
  mutexLocked s' = mutexLocked oneParked /\
  emitted s' = emitted oneParked /\
  nextTick s' = nextTick oneParked /\
  resolved s' = resolved oneParked.
Proof.
  assert (waitingRequests oneParked !! "T" = Some [mkRequest 0%nat eager]) as Hw
    by reflexivity.
  assert ([mkRequest 0%nat eager] <> []) as Hne by discriminate.
  split; [exact Hw|]. split; [exact Hne|].
  exact (requestJobForProcessing_fast_park "T" eager oneParked _ Hw Hne).
Defined.

(** C4 where two jobs wait and the requester has lost interest. *)
Lemma requestJobForProcessing_not_interested_witness :
  someoneWaiting "T" (idle twoWaiting 5) = false /\
  mutexLocked (idle twoWaiting 5) = false /\
  (JobRepository.findInactiveJobByType "T" (repository (idle twoWaiting 5))
   = (Ok (Some (docT "l" Priority.LOW 2)), served OpFind (rows twoWaiting) twoWaiting)) /\
  gone (world (idle twoWaiting 5)) = false /\
  let (r, s') := Queue_requestJobForProcessing "T" gone (idle twoWaiting 5) in
  r = Ok (Returned None) /\
  rows (repository s') = rows (repository (idle twoWaiting 5)) /\
  oplog (repository s') = oplog (repository (idle twoWaiting 5)) ++ [OpFind] /\
  docT "l" Priority.LOW 2 ∈ rows (repository s') /\
  doc_state (docT "l" Priority.LOW 2) = Some INACTIVE /\
  waitingRequests s' = waitingRequests (idle twoWaiting 5) /\
  emitted s' = emitted (idle twoWaiting 5) /\
  nextTick s' = nextTick (idle twoWaiting 5) /\
  resolved s' = resolved (idle twoWaiting 5) /\
  mutexAcquired s' = S (mutexAcquired (idle twoWaiting 5)) /\
  mutexLocked s' = false.
Proof.
  split; [reflexivity|]. split; [reflexivity|]. split; [reflexivity|]. split; [reflexivity|].
  exact (requestJobForProcessing_not_interested "T" gone (idle twoWaiting 5)
           (docT "l" Priority.LOW 2) (served OpFind (rows twoWaiting) twoWaiting)
           eq_refl eq_refl eq_refl eq_refl).
Defined.

(** C5 where three requests are parked and the first has lost interest: the
    second one gets the job, the third one stays parked. *)
Lemma addJob_handoff_witness :
  faults (repository threeParked) = [] /\
  (id freshJob ∉ map _id (rows (repository threeParked))) /\
  state freshJob = INACTIVE /\
  (waitingRequests threeParked !! type freshJob
   = Some [mkRequest 0%nat gone; mkRequest 1%nat eager; mkRequest 2%nat eager]) /\
  fst (Queue_addJob freshJob threeParked) = Ok tt /\
  (waitingRequests (snd (Queue_addJob freshJob threeParked)) !! "T"
   = Some [mkRequest 2%nat eager]) /\
  map fst (nextTick (snd (Queue_addJob freshJob threeParked))) = [1%nat] /\
  resolved (snd (Queue_addJob freshJob threeParked)) = [].
Proof.
  assert (id freshJob ∉ map _id (rows (repository threeParked))) as Hfresh
    by apply not_elem_of_nil.
  split; [reflexivity|]. split; [exact Hfresh|]. split; [reflexivity|].
  split; [reflexivity|].
  pose proof (addJob_handoff freshJob threeParked _ eq_refl Hfresh eq_refl eq_refl) as H.
  destruct (Queue_addJob freshJob threeParked) as [r s'] eqn:Hrun.
  destruct H as (Hr & Hres & _). split; [exact Hr|]. split; [|split; [|exact Hres]].
  - apply (f_equal snd) in Hrun. cbn [snd] in Hrun. rewrite <- Hrun. reflexivity.
  - apply (f_equal snd) in Hrun. cbn [snd] in Hrun. rewrite <- Hrun. reflexivity.
Defined.

(** C6 at a job that was never inserted: the store reports no affected row
    and [updateJob] throws. *)
Lemma updateJob_never_inserted :
  JobRepository.updateJob freshJob emptyStore
  = (Throw (mkError "update unexpected number of rows. (expected: 1, actual: 0)"),
     mkDataStore [] [] [OpUpdate "j"]).
Proof. reflexivity. Qed.

(** C6 at a job whose row has been removed. *)
Lemma updateJob_after_remove :
  let job := converted (docT "n" Priority.NORMAL 1) in
  let removed := snd (JobRepository.removeJob (id job) twoWaiting) in
  fst (JobRepository.updateJob job twoWaiting) = Ok tt /\
  fst (JobRepository.updateJob job removed)
  = Throw (mkError "update unexpected number of rows. (expected: 1, actual: 0)").
Proof. split; reflexivity. Qed.

(** C7 where the error is not a failure of the store: [updateJob] of a job
    that was never inserted throws the exactly-one-row error, after the
    [Error] event with it and the job; and where the store fails the
    removal in [removeJobById]: the event carries the job found. *)
Lemma queue_errors_emitted_and_raised_witness :
  (JobRepository.updateJob freshJob (repository (idle emptyStore 0))
   = (Throw (JobRepository.unexpectedRows 0), mkDataStore [] [] [OpUpdate "j"]) /\
   let (r, s') := Queue_updateJob freshJob (idle emptyStore 0) in
   r = Throw (JobRepository.unexpectedRows 0) /\
   emitted s' = emitted (idle emptyStore 0)
                ++ [errorEmission (JobRepository.unexpectedRows 0) (Some freshJob)]) /\
  (JobRepository.findJob "n" (repository (idle failsAtSecondCallOfTwo 0))
   = (Ok (Some (docT "n" Priority.NORMAL 1)),
      served OpFindOne (rows failsAtSecondCallOfTwo) failsAtSecondCallOfTwo) /\
   fst (Job_remove (converted (docT "n" Priority.NORMAL 1))
          (warned Priority.NORMAL
             (setRepository
                (served OpFindOne (rows failsAtSecondCallOfTwo) failsAtSecondCallOfTwo)
                (idle failsAtSecondCallOfTwo 0))))
   = Throw EIO /\
   let (r, s') := Queue_removeJobById "n" (idle failsAtSecondCallOfTwo 0) in
   r = Throw EIO /\
   emitted s' = [errorEmission EIO (Some (converted (docT "n" Priority.NORMAL 1)))]
                ++ [errorEmission EIO (Some (converted (docT "n" Priority.NORMAL 1)))]).
Proof.
  split.
  - split; [reflexivity|].
    destruct (queue_errors_emitted_and_raised (World:=unit)
                (JobRepository.unexpectedRows 0) (idle emptyStore 0))
      as (_ & _ & Hupdate & _).
    exact (Hupdate freshJob _ eq_refl).
  - split; [reflexivity|]. split; [reflexivity|].
    destruct (queue_errors_emitted_and_raised (World:=unit) EIO
                (idle failsAtSecondCallOfTwo 0))
      as (_ & _ & _ & _ & _ & _ & _ & _ & _ & Hremove & _).
    exact (Hremove "n" (docT "n" Priority.NORMAL 1) _ _ eq_refl eq_refl).
Defined.

(** There [findJob] throws the error of the store, and its only emission is
    the [Error] event with that error. *)
Lemma findJob_store_failure :
  raisedBy (CallFindJob "x") (idle failingStore 0)
  = (Some EIO,
     setEmitted [errorEmission EIO None]
       (setRepository (mkDataStore [] [] [OpFindOne]) (idle failingStore 0))).
Proof. reflexivity. Qed.

(** The error [removeJobById] raises when the lookup finds nothing comes
    from the method's own check, outside its [try] blocks: it is thrown and
    not emitted. *)
Lemma removeJobById_not_found_is_not_emitted :
  fst (Queue_removeJobById "x" (idle emptyStore 0)) = Throw (notFound "x") /\
  emitted (snd (Queue_removeJobById "x" (idle emptyStore 0))) = [].
Proof. split; reflexivity. Qed.

(** C8 for a document of priority 7, which is none of the five known
    values, for the two waiting jobs, and for [createJob] with the priority
    7: the job is NORMAL and the sanitizer's warning is the only one. *)
Lemma priorities_of_materialized_jobs_witness :
  Priority.known (priority (converted (docT "x" 7 1))) = true /\
  priority (converted (docT "x" 7 1)) = Priority.NORMAL /\
  Forall (fun job => Priority.known (priority job) = true)
         (map converted (listed None (rows twoWaiting))) /\
  Queue_createJob (mkCreateJobData "T" (Some 7) None) (idle emptyStore 0)
  = (Ok (mkJob "id-1" "T" Priority.NORMAL None 0 0 None None None INACTIVE None None
               [] true),
     snd (Queue_createJob (mkCreateJobData "T" (Some 7) None) (idle emptyStore 0))) /\
  warnings (snd (Queue_createJob (mkCreateJobData "T" (Some 7) None) (idle emptyStore 0)))
  = warnings (warned 7 (idle emptyStore 0)) /\
  warnings (warned 7 (idle emptyStore 0)) = ["Invalid Priority: 7"].
Proof.
  destruct (priorities_of_materialized_jobs (World:=unit))
    as (Hsan & Hconv & Hfind & Hlist & Hcreate).
  split; [|split; [|split; [|split; [|split]]]].
  - destruct (Hconv (docT "x" 7 1) (idle emptyStore 0)) as [_ ->].
    by destruct (Hsan 7 (idle emptyStore 0)) as (_ & ? & _).
  - destruct (Hconv (docT "x" 7 1) (idle emptyStore 0)) as [_ ->].
    by destruct (Hsan 7 (idle emptyStore 0)) as (_ & _ & _ & [? _]).
  - exact (Hlist None (idle twoWaiting 0) _ _ eq_refl).
  - reflexivity.
  - by destruct (Hcreate (mkCreateJobData "T" (Some 7) None) (idle emptyStore 0)
                   _ _ eq_refl) as (_ & _ & _ & ?).
  - reflexivity.
Defined.

(** C9 at a registry of two workers, for a caller that empties the array it
    was given. *)
Lemma workers_getter_returns_fresh_copy_witness :
  registryAllocated twoWorkers /\
  let (ref, r1) := Queue_workers twoWorkers in
  ref <> _workers r1 /\
  arrays twoWorkers !! ref = None /\
  arrays r1 !! ref = Some (registered twoWorkers) /\
  registered r1 = registered twoWorkers /\
  registered (mutateArray ref (fun _ => []) r1) = registered r1 /\
  (forall type processor concurrency,
      observed (Queue_process type processor concurrency (mutateArray ref (fun _ => []) r1)) =
      observed (Queue_process type processor concurrency r1)) /\
  (forall timeoutMilliseconds type,
      observed (Queue_shutdown timeoutMilliseconds type (mutateArray ref (fun _ => []) r1)) =
      observed (Queue_shutdown timeoutMilliseconds type r1)).
Proof.
  assert (registryAllocated twoWorkers) as Halloc by (eexists; reflexivity).
  split; [exact Halloc|].
  exact (workers_getter_returns_fresh_copy twoWorkers (fun _ => []) Halloc).
Defined.

(** Had the getter returned [_workers] itself, the same caller would have
    emptied the registry: the copy matters. *)
Lemma mutating_the_registry_array_itself :
  registered (mutateArray (_workers twoWorkers) (fun _ => []) twoWorkers) = [] /\
  registered twoWorkers = [mkWorker 0 "T"; mkWorker 1 "T"].
Proof. split; reflexivity. Qed.

(** C10 where the predicate accepts the first job and throws on the second,
    and where it accepts both and the store fails the second removal: the
    first row stays removed. *)
Lemma removeJobsByCallback_not_atomic_witness :
  (listed None (rows (repository (idle twoWaiting 0)))
   = [docT "n" Priority.NORMAL 1] ++ docT "l" Priority.LOW 2 :: [] /\
   Forall (fun x => exists b, acceptThenThrow (converted x) = Ok b)
          [docT "n" Priority.NORMAL 1] /\
   servedNext (S (length (accepted acceptThenThrow [docT "n" Priority.NORMAL 1])))
              (faults (repository (idle twoWaiting 0))) /\
   acceptThenThrow (converted (docT "l" Priority.LOW 2)) = Throw boom /\
   rows (repository (snd (Queue_removeJobsByCallback acceptThenThrow (idle twoWaiting 0))))
   = [docT "l" Priority.LOW 2] /\
   let (r, s') := Queue_removeJobsByCallback acceptThenThrow (idle twoWaiting 0) in
   r = Throw boom /\
   rows (repository s')
   = without (accepted acceptThenThrow [docT "n" Priority.NORMAL 1])
             (rows (repository (idle twoWaiting 0))) /\
   exists l, emitted s' = emitted (idle twoWaiting 0) ++ l
                          ++ [errorEmission boom (Some (converted (docT "l" Priority.LOW 2)))]) /\
  (faults (repository (idle failsAtThirdCall 0)) !! 2%nat = Some (Some EIO) /\
   let (r, s') := Queue_removeJobsByCallback (fun _ => Ok true) (idle failsAtThirdCall 0) in
   r = Throw EIO /\
   rows (repository s')
   = without (accepted (fun _ => Ok true) [docT "n" Priority.NORMAL 1])
             (rows (repository (idle failsAtThirdCall 0))) /\
   exists l, emitted s' = emitted (idle failsAtThirdCall 0) ++ l
                          ++ [errorEmission EIO (Some (converted (docT "l" Priority.LOW 2)))]).
Proof.
  assert (Forall (fun x => exists b, acceptThenThrow (converted x) = Ok b)
                 [docT "n" Priority.NORMAL 1]) as Hans.
  { constructor; [by exists true|constructor]. }
  assert (servedNext (S (length (accepted acceptThenThrow [docT "n" Priority.NORMAL 1])))
                     (faults (repository (idle twoWaiting 0)))) as Hserved.
  { unfold servedNext. cbn [idle Queue_new repository twoWaiting faults].
    rewrite take_nil. constructor. }
  assert (Forall (fun x => exists b, (fun _ : Job => Ok true) (converted x) = Ok b)
                 [docT "n" Priority.NORMAL 1]) as Hans2.
  { constructor; [by exists true|constructor]. }
  assert (servedNext (S (length (accepted (fun _ => Ok true) [docT "n" Priority.NORMAL 1])))
                     (faults (repository (idle failsAtThirdCall 0)))) as Hserved2.
  { unfold servedNext. cbn. by repeat constructor. }
  split.
  - split; [reflexivity|]. split; [exact Hans|]. split; [exact Hserved|].
    split; [reflexivity|]. split; [reflexivity|].
    exact (removeJobsByCallback_not_atomic acceptThenThrow (idle twoWaiting 0)
             [docT "n" Priority.NORMAL 1] (docT "l" Priority.LOW 2) [] boom
             eq_refl Hans Hserved (or_introl eq_refl)).
  - split; [reflexivity|].
    exact (removeJobsByCallback_not_atomic (fun _ => Ok true) (idle failsAtThirdCall 0)
             [docT "n" Priority.NORMAL 1] (docT "l" Priority.LOW 2) [] EIO
             eq_refl Hans2 Hserved2 (or_intror (conj eq_refl eq_refl))).
Defined.

(** C10 where the second removal fails in the store: the first row stays
    removed, the second is still there. *)
Lemma removeJobsByCallback_removal_fails_midway :
  fst (Queue_removeJobsByCallback (fun _ => Ok true) (idle failsAtThirdCall 0)) = Throw EIO /\
  rows (repository (snd (Queue_removeJobsByCallback (fun _ => Ok true)
                           (idle failsAtThirdCall 0))))
  = [docT "l" Priority.LOW 2].
Proof. split; reflexivity. Qed.

(** * Further properties of the repository *)

Section SortingKeepsOrder.
Context {A : Type} (cmp : A -> A -> Z).

Hypothesis leq_total : forall a b, leq cmp a b \/ leq cmp b a.
Hypothesis leq_trans : forall a b c, leq cmp a b -> leq cmp b c -> leq cmp a c.

Lemma insertBy_StronglySorted x l :
  StronglySorted (leq cmp) l -> StronglySorted (leq cmp) (insertBy cmp x l).
Proof using leq_total leq_trans.
  induction l as [|a l IH]; simpl; intros Hs.
  - by repeat constructor.
  - apply StronglySorted_inv in Hs as [Hs Ha].
    destruct (cmp x a <=? 0) eqn:Hc.
    + apply Z.leb_le in Hc. constructor; [by constructor|].
      constructor; [done|].
      eapply Forall_impl; [exact Ha|]. intros y Hy. by eapply leq_trans.
    + apply Z.leb_gt in Hc. constructor; [by apply IH|].
      apply Forall_forall. intros y Hy.
      apply elem_of_insertBy in Hy as [->|Hy].
      * destruct (leq_total a x) as [|Hxa]; [done|]. unfold leq in Hxa. lia.
      * rewrite Forall_forall in Ha. by apply Ha.
Qed.

Lemma sortBy_StronglySorted l : StronglySorted (leq cmp) (sortBy cmp l).
Proof using leq_total leq_trans.
  induction l as [|x l IH]; simpl; [constructor|]. by apply insertBy_StronglySorted.
Qed.
End SortingKeepsOrder.

Lemma StronglySorted_weaken {A} (R R' : A -> A -> Prop) l :
  (forall a b, R a b -> R' a b) -> StronglySorted R l -> StronglySorted R' l.
Proof.
  intros HR. induction 1 as [|a l Hs IH Ha]; constructor; [done|].
  eapply Forall_impl; [exact Ha|]. intros y. apply HR.
Qed.

Lemma byCreatedAt_leq a b :
  leq (compareDocs [(doc_createdAt, 1)]) a b <-> olderFirst a b.
Proof.
  unfold leq, olderFirst, compareDocs, compareNSB.
  destruct (Z.ltb_spec (doc_createdAt a) (doc_createdAt b));
    destruct (Z.ltb_spec (doc_createdAt b) (doc_createdAt a)); simpl; lia.
Qed.

Lemma listed_wanted st l :
  listed st l = sortBy (compareDocs [(doc_createdAt, 1)])
                       (filter (fun d => wanted st d = true) l).
Proof. unfold listed, wanted. by destruct st. Qed.

Lemma listJobs_eq st ds :
  JobRepository.listJobs st ds =
  match io OpFind ds with
  | (Ok _, ds') => (Ok (listed st (rows ds')), ds')
  | (Throw e, ds') => (Throw e, ds')
  end.
Proof.
  unfold JobRepository.listJobs, db_find, bind, listed.
  by destruct (io OpFind ds) as [[[]|e] ds'].
Qed.

(** X1: [listJobs(state)] changes no row and throws only when the store call
    fails; what it returns is, up to order, the rows in that state (all rows
    when the state is omitted), each as often as it is stored, and it is in
    ascending order of [createdAt]. *)
Theorem listJobs_selects_and_sorts (st : option State) (ds : DataStore) :
  match fst (JobRepository.listJobs st ds) with
  | Ok docs =>
      docs ≡ₚ filter (fun d => wanted st d = true) (rows ds) /\
      StronglySorted olderFirst docs
  | Throw e => head (faults ds) = Some (Some e)
  end /\
  rows (snd (JobRepository.listJobs st ds)) = rows ds.
Proof.
  rewrite listJobs_eq.
  pose proof (io_rows OpFind ds) as Hrows. pose proof (io_result OpFind ds) as Hres.
  destruct (io OpFind ds) as [[[]|e] ds']; cbn [fst snd] in *; [|done].
  split; [|done]. rewrite listed_wanted, Hrows. split.
  - apply sortBy_Permutation.
  - eapply StronglySorted_weaken; [|apply sortBy_StronglySorted].
    + intros a b. apply byCreatedAt_leq.
    + intros a b. rewrite !byCreatedAt_leq. unfold olderFirst. lia.
    + intros a b c. rewrite !byCreatedAt_leq. unfold olderFirst. lia.
Qed.

(** *** Rows by id *)

Lemma filter_id_absent i (l : list NeDbJob) :
  i ∉ map _id l -> filter (fun d => _id d = i) l = [].
Proof.
  induction l as [|x l IH]; simpl; intros Hn; [done|].
  apply not_elem_of_cons in Hn as [Hne Hn].
  rewrite filter_cons_False by congruence. by apply IH.
Qed.

Lemma filter_id_head i (l : list NeDbJob) d :
  head (filter (fun d => _id d = i) l) = Some d -> d ∈ l /\ _id d = i.
Proof.
  intros Hh. assert (d ∈ filter (fun d => _id d = i) l) as Hd.
  { destruct (filter _ l) as [|y t]; [done|]. injection Hh as ->. by left. }
  apply list_elem_of_filter in Hd. tauto.
Qed.

Lemma filter_id_none i (l : list NeDbJob) :
  head (filter (fun d => _id d = i) l) = None -> i ∉ map _id l.
Proof.
  intros Hh Hin. apply list_elem_of_In, in_map_iff in Hin as (d & Hd & Hin).
  assert (d ∈ filter (fun d => _id d = i) l) as Hf.
  { apply list_elem_of_filter. split; [done|]. by apply list_elem_of_In. }
  destruct (filter _ l); [by apply elem_of_nil in Hf | done].
Qed.

Lemma filter_id_unique (l : list NeDbJob) old :
  NoDup (map _id l) -> old ∈ l -> filter (fun d => _id d = _id old) l = [old].
Proof.
  induction l as [|x l IH]; simpl; intros Hnd Hin; [by apply elem_of_nil in Hin|].
  apply NoDup_cons in Hnd as [Hx Hnd].
  apply elem_of_cons in Hin as [->|Hin].
  - rewrite filter_cons_True by done. f_equal. by apply filter_id_absent.
  - rewrite filter_cons_False; [by apply IH|].
    intros Heq. apply Hx. rewrite Heq. apply list_elem_of_In, in_map, list_elem_of_In, Hin.
Qed.

Lemma filter_all {A} (P : A -> Prop) `{forall x, Decision (P x)} (l : list A) :
  (forall x, x ∈ l -> P x) -> filter P l = l.
Proof.
  induction l as [|x l IH]; intros Hall; [done|].
  rewrite filter_cons_True by (apply Hall; by left).
  f_equal. apply IH. intros y Hy. apply Hall. by right.
Qed.

Lemma removeFirst_filter i (l : list NeDbJob) :
  NoDup (map _id l) -> removeFirst i l = filter (fun d => _id d <> i) l.
Proof.
  induction l as [|x l IH]; simpl; intros Hnd; [done|].
  apply NoDup_cons in Hnd as [Hx Hnd].
  destruct (bool_decide (_id x = i)) eqn:Hi.
  - apply bool_decide_eq_true in Hi. rewrite filter_cons_False by (intros H; by apply H).
    symmetry. apply filter_all. intros y Hy Hyi.
    apply Hx. rewrite Hi, <- Hyi. apply list_elem_of_In, in_map, list_elem_of_In, Hy.
  - apply bool_decide_eq_false in Hi. rewrite filter_cons_True by done.
    by rewrite IH.
Qed.

Lemma io_served op ds :
  nextCallServed ds -> io op ds = (Ok tt, served op (rows ds) ds).
Proof. intros H. by apply io_ok. Qed.

(** X2: [findJob(id)] changes no row and throws only when the store call
    fails; it returns a stored row of that id when there is one, and null
    exactly when no row has the id. *)
Theorem findJob_by_id (i : string) (ds : DataStore) :
  match fst (JobRepository.findJob i ds) with
  | Ok (Some d) => d ∈ rows ds /\ _id d = i
  | Ok None => i ∉ map _id (rows ds)
  | Throw e => head (faults ds) = Some (Some e)
  end /\
  rows (snd (JobRepository.findJob i ds)) = rows ds.
Proof.
  unfold JobRepository.findJob, db_findOne, bind.
  pose proof (io_rows OpFindOne ds) as Hrows. pose proof (io_result OpFindOne ds) as Hres.
  destruct (io OpFindOne ds) as [[[]|e] ds']; cbn [fst snd] in *; [|done].
  split; [|done]. rewrite Hrows.
  destruct (head _) as [d|] eqn:Hh; [by apply filter_id_head | by apply filter_id_none].
Qed.

(** X3: on a store with one row per id, [isExistJob(id)] changes no row,
    throws only when the store call fails, and answers true exactly when a
    row of that id is stored. *)
Theorem isExistJob_iff_stored (i : string) (ds : DataStore) :
  uniqueIds ds ->
  match fst (JobRepository.isExistJob i ds) with
  | Ok b => b = true <-> i ∈ map _id (rows ds)
  | Throw e => head (faults ds) = Some (Some e)
  end /\
  rows (snd (JobRepository.isExistJob i ds)) = rows ds.
Proof.
  intros Hnd. unfold JobRepository.isExistJob, db_count, bind, ret.
  pose proof (io_rows OpCount ds) as Hrows. pose proof (io_result OpCount ds) as Hres.
  destruct (io OpCount ds) as [[[]|e] ds']; cbn [fst snd] in *; [|done].
  split; [|done]. rewrite Hrows.
  destruct (decide (i ∈ map _id (rows ds))) as [Hin|Hin].
  - apply list_elem_of_In, in_map_iff in Hin as (d & <- & Hd).
    rewrite filter_id_unique; [|done|by apply list_elem_of_In].
    split; [|done]. intros _. apply list_elem_of_In, in_map, Hd.
  - rewrite filter_id_absent by done. split; [done|]. intros; done.
Qed.

(** X4: when [addJob(job)] returns, the row it added is the last one, it
    carries the job's id, type, priority, data, dates, state and logs and none
    of the later fields, and a following [findJob] of the job's id returns that
    row and [isExistJob] answers true. *)
Theorem addJob_then_findJob (job : Job) (ds ds1 : DataStore) (d : NeDbJob) :
  JobRepository.addJob job ds = (Ok d, ds1) ->
  nextCallServed ds1 ->
  d = mkNeDbJob (id job) (type job) (priority job) (data job) (createdAt job)
                (updatedAt job) None None None (Some (state job)) None None (logs job) /\
  rows ds1 = rows ds ++ [d] /\
  fst (JobRepository.findJob (id job) ds1) = Ok (Some d) /\
  fst (JobRepository.isExistJob (id job) ds1) = Ok true.
Proof.
  unfold JobRepository.addJob, db_insert, bind at 1.
  pose proof (io_rows (OpInsert (_id (JobRepository.insertDoc job))) ds) as Hrows.
  destruct (io _ ds) as [[[]|e] ds']; cbn [snd] in Hrows; [|done].
  destruct (bool_decide _) eqn:Hin; [done|]. apply bool_decide_eq_false in Hin.
  intros [= <- <-] Hnext. rewrite Hrows in *.
  split; [done|]. split; [done|].
  assert (filter (fun x => _id x = id job) (rows ds ++ [JobRepository.insertDoc job])
          = [JobRepository.insertDoc job]) as Hf.
  { rewrite filter_app, filter_id_absent by done. by rewrite filter_cons_True. }
  unfold JobRepository.findJob, JobRepository.isExistJob, db_findOne, db_count, bind, ret.
  rewrite !io_served by done. cbn [fst served rows withRows]. by rewrite Hf.
Qed.

(** X5: on a store with one row per id, when [updateJob(job)] returns, the
    row of the job's id, and no other row, has been replaced: it keeps its
    [_id] and its [type] and has the job's priority, data, dates, state,
    duration, progress and logs; a following [findJob] returns it. *)
Theorem updateJob_then_findJob (job : Job) (ds ds1 : DataStore) :
  uniqueIds ds ->
  JobRepository.updateJob job ds = (Ok tt, ds1) ->
  nextCallServed ds1 ->
  exists old,
    old ∈ rows ds /\ _id old = id job /\
    rows ds1 = map (fun d => if bool_decide (_id d = id job)
                             then JobRepository.updateQuery job d else d) (rows ds) /\
    fst (JobRepository.findJob (id job) ds1)
    = Ok (Some (mkNeDbJob (_id old) (doc_type old) (priority job) (data job)
                          (createdAt job) (updatedAt job) (startedAt job)
                          (completedAt job) (failedAt job) (Some (state job))
                          (duration job) (progress job) (logs job))).
Proof.
  intros Hnd. unfold JobRepository.updateJob, db_update, bind at 1 2.
  pose proof (io_rows (OpUpdate (id job)) ds) as Hrows.
  destruct (io _ ds) as [[[]|e] ds']; cbn [snd] in Hrows; [|done].
  pose proof (updateFirst_map (id job) (JobRepository.updateQuery job) (rows ds') ) as Hmap.
  rewrite Hrows in Hmap. specialize (Hmap Hnd).
  destruct (decide (id job ∈ map _id (rows ds))) as [Hin|Hin]; first last.
  { rewrite Hrows, updateFirst_absent by done. done. }
  rewrite Hrows in *. destruct (updateFirst _ _ (rows ds)) as [n r]. cbn [snd] in Hmap.
  destruct (negb (n =? 1)); [done|]. intros [= <-] Hnext.
  apply list_elem_of_In, in_map_iff in Hin as (old & Hid & Hold). apply list_elem_of_In in Hold.
  exists old. split; [done|]. split; [done|]. split; [by rewrite <- Hmap|].
  unfold JobRepository.findJob, db_findOne, bind. rewrite io_served by done.
  cbn [fst served rows withRows]. rewrite Hmap.
  assert (filter (fun d => _id d = id job)
            (map (fun d => if bool_decide (_id d = id job)
                           then JobRepository.updateQuery job d else d) (rows ds))
          = map (fun d => if bool_decide (_id d = id job)
                          then JobRepository.updateQuery job d else d)
                (filter (fun d => _id d = id job) (rows ds))) as ->.
  { clear. induction (rows ds) as [|x l IH]; [done|]. cbn [map].
    destruct (decide (_id x = id job)) as [Hx|Hx].
    - rewrite (filter_cons_True _ x) by done. rewrite filter_cons_True.
      + cbn [map]. by rewrite IH.
      + rewrite bool_decide_eq_true_2 by done. done.
    - rewrite (filter_cons_False _ x) by done. rewrite filter_cons_False; [done|].
      by rewrite bool_decide_eq_false_2. }
  rewrite <- Hid, filter_id_unique by done. cbn [map head].
  by rewrite bool_decide_eq_true_2.
Qed.

(** X6: on a store with one row per id, when [removeJob(id)] returns, the row
    of that id is gone and every other row is kept, in order; in particular
    nothing changes when no row had the id, and a following [findJob] of the
    id returns null. *)
Theorem removeJob_removes_only_that_row (i : string) (ds ds1 : DataStore) :
  uniqueIds ds ->
  JobRepository.removeJob i ds = (Ok tt, ds1) ->
  rows ds1 = filter (fun d => _id d <> i) (rows ds) /\
  (i ∉ map _id (rows ds) -> rows ds1 = rows ds) /\
  (nextCallServed ds1 -> fst (JobRepository.findJob i ds1) = Ok None).
Proof.
  intros Hnd. unfold JobRepository.removeJob, db_remove, bind at 1.
  pose proof (io_rows (OpRemove i) ds) as Hrows.
  destruct (io _ ds) as [[[]|e] ds']; cbn [snd] in Hrows; [|done].
  intros [= <-]. cbn [rows withRows]. rewrite Hrows, removeFirst_filter by done.
  split; [done|]. split.
  - intros Hab. apply filter_all. intros d Hd Hid.
    apply Hab. rewrite <- Hid. apply list_elem_of_In, in_map, list_elem_of_In, Hd.
  - intros Hnext. unfold JobRepository.findJob, db_findOne, bind.
    rewrite io_served by done. cbn [fst served rows withRows].
    rewrite filter_id_absent; [done|].
    intros Hin. apply list_elem_of_In, in_map_iff in Hin as (d & Hid & Hd).
    apply list_elem_of_In, list_elem_of_filter in Hd as [Hne _]. done.
Qed.

(** * Further properties of the queue *)

Section QueueExtras.
Context {World : Type}.
Implicit Types (s : QueueState World) (d : NeDbJob) (job : Job).

Abbreviation keepsDispatch := (keeps (dispatchState (World:=World))).

Lemma settle_snd (x : Result Returns * QueueState World) : snd (settle x) = snd x.
Proof. by destruct x as [[[r|e]|e] s]. Qed.

Lemma lookupRequests_setRepository type ds s :
  lookupRequests type (setRepository ds s) = lookupRequests type s.
Proof. done. Qed.

Lemma keepsDispatch_liftDb {A} (m : M DataStore A) : keepsDispatch (liftDb m).
Proof. intros s. unfold liftDb. by destruct (m (repository s)). Qed.

Lemma keepsDispatch_emitAndRethrow {A} j e : keepsDispatch (emitAndRethrow (A:=A) j e).
Proof. done. Qed.

Lemma keepsDispatch_caught {A} (m : M (QueueState World) A) j :
  keepsDispatch m -> keepsDispatch (tryCatch m (emitAndRethrow j)).
Proof. intros Hm. apply keeps_tryCatch; [done|]. intros e. apply keepsDispatch_emitAndRethrow. Qed.

Lemma keepsDispatch_convert d : keepsDispatch (Queue_convertNeDbJobToJob d).
Proof.
  intros s. rewrite convertNeDbJobToJob_eq. unfold warned.
  by destruct (Priority.known _).
Qed.

Lemma keepsDispatch_convertAll docs : keepsDispatch (convertAll docs).
Proof.
  induction docs as [|d docs IH]; simpl; [apply keeps_ret|].
  apply keeps_bind; [apply keepsDispatch_convert|]. intros j.
  apply keeps_bind; [apply IH|]. intros js. apply keeps_ret.
Qed.

Lemma keepsDispatch_updateJob job : keepsDispatch (Queue_updateJob job).
Proof. apply keepsDispatch_caught, keepsDispatch_liftDb. Qed.

Lemma keepsDispatch_removeJob job : keepsDispatch (Queue_removeJob job).
Proof. apply keepsDispatch_caught, keepsDispatch_liftDb. Qed.

Lemma keepsDispatch_Job_update job : keepsDispatch (Job_update job).
Proof.
  unfold Job_update. destruct (negb _); [apply keeps_throw | apply keepsDispatch_updateJob].
Qed.

Lemma keepsDispatch_Job_remove job : keepsDispatch (Job_remove job).
Proof.
  unfold Job_remove. destruct (negb _); [apply keeps_throw | apply keepsDispatch_removeJob].
Qed.

Lemma keepsDispatch_setStateToActive job : keepsDispatch (Job_setStateToActive job).
Proof.
  unfold Job_setStateToActive. destruct (negb _); [apply keeps_throw|].
  apply keeps_bind; [done|]. intros now.
  apply keeps_bind; [apply keepsDispatch_Job_update|]. intros _. apply keeps_ret.
Qed.

Lemma keepsDispatch_findJob i : keepsDispatch (Queue_findJob i).
Proof.
  apply keepsDispatch_caught, keeps_bind; [apply keepsDispatch_liftDb|].
  intros [d|]; [|apply keeps_ret].
  apply keeps_bind; [apply keepsDispatch_convert|]. intros j. apply keeps_ret.
Qed.

Lemma keepsDispatch_listJobs st : keepsDispatch (Queue_listJobs st).
Proof.
  apply keepsDispatch_caught, keeps_bind; [apply keepsDispatch_liftDb|].
  intros docs. apply keepsDispatch_convertAll.
Qed.

Lemma keepsDispatch_removeJobById i : keepsDispatch (Queue_removeJobById i).
Proof.
  apply keeps_bind; [apply keepsDispatch_caught, keepsDispatch_liftDb|].
  intros [d|]; [|apply keeps_throw].
  apply keeps_bind; [apply keepsDispatch_convert|]. intros j.
  apply keepsDispatch_caught, keepsDispatch_Job_remove.
Qed.

Lemma keepsDispatch_removeEach (callback : Job -> Result bool) docs :
  keeps (fun sv : QueueState World * RemoveLocals => dispatchState (fst sv))
        (removeEach callback docs).
Proof.
  assert (forall A (m : M (QueueState World) A),
             keepsDispatch m ->
             keeps (fun sv : QueueState World * RemoveLocals => dispatchState (fst sv))
                   (onQueue m)) as Hon.
  { intros A m Hm [s v]. unfold onQueue. specialize (Hm s). by destruct (m s). }
  induction docs as [|d docs IH]; cbn [removeEach]; [apply keeps_ret|].
  apply keeps_bind; [apply Hon, keepsDispatch_convert|]. intros j.
  apply keeps_bind; [by intros [s v]|]. intros _.
  apply keeps_bind; [by intros [s v]|]. intros hit.
  apply keeps_bind.
  { destruct hit; [|apply keeps_ret].
    apply keeps_bind; [by intros [s v]|]. intros _.
    apply Hon, keepsDispatch_Job_remove. }
  intros _. apply keeps_bind; [by intros [s v]|]. intros _. apply IH.
Qed.

Lemma keepsDispatch_removeJobsByCallback (callback : Job -> Result bool) :
  keepsDispatch (Queue_removeJobsByCallback callback).
Proof.
  intros s. unfold Queue_removeJobsByCallback.
  match goal with |- context [tryCatch ?m ?h ?arg] =>
    assert (keeps (fun sv : QueueState World * RemoveLocals => dispatchState (fst sv))
                  (tryCatch m h)) as Hm; [|specialize (Hm arg);
      destruct (tryCatch m h arg) as [[a|e] [s' v']]] end.
  { apply keeps_tryCatch.
    - apply keeps_bind; [|intros docs; apply keepsDispatch_removeEach].
      intros [s0 v0]. unfold onQueue.
      pose proof (keepsDispatch_liftDb (JobRepository.listJobs None) s0) as H.
      by destruct (liftDb _ s0).
    - by intros e [s0 v0]. }
  - exact Hm.
  - exact Hm.
Qed.

(** X7: [findJob], [listJobs], [removeJobById], [removeJobsByCallback],
    [updateJob] and [removeJob] never touch the dispatch protocol: however
    they end, the waiting lists, the promises, the queued and the done
    resolutions and the mutex are as before. *)
Theorem storage_calls_keep_dispatch_state (c : QueueCall World) s :
  storageOnly c ->
  dispatchState (snd (raisedBy c s)) = dispatchState s.
Proof.
  destruct c as [i|st|i|callback|type sr|job|job|job];
    cbn [storageOnly raisedBy]; unfold thrown; cbn [snd]; intros Hc; try done.
  - apply keepsDispatch_findJob.
  - apply keepsDispatch_listJobs.
  - apply keepsDispatch_removeJobById.
  - apply keepsDispatch_removeJobsByCallback.
  - apply keepsDispatch_updateJob.
  - apply keepsDispatch_removeJob.
Qed.

(** X8: [sanitizePriority] is idempotent: what it returns it returns again,
    this time without a warning. *)
Theorem sanitizePriority_idempotent (p : Z) s :
  exists q,
    fst (Queue_sanitizePriority p s) = Ok q /\
    Queue_sanitizePriority q (snd (Queue_sanitizePriority p s))
    = (Ok q, snd (Queue_sanitizePriority p s)).
Proof.
  exists (sanitized p). rewrite !sanitizePriority_eq. cbn [fst snd].
  split; [done|]. f_equal.
  - unfold sanitized at 1. by rewrite sanitized_known.
  - unfold warned at 1. by rewrite sanitized_known.
Qed.

(** X9: when the store serves the call, [findJob(id)] of the queue emits
    nothing and changes no row; it returns null exactly when no row has the
    id, and otherwise a job built from a row of that id: saved, with the
    row's type, data, dates and logs, with the row's state (INACTIVE when the
    row has none), and with a known priority. *)
Theorem Queue_findJob_materializes (i : string) s :
  nextCallServed (repository s) ->
  let (r, s') := Queue_findJob i s in
  emitted s' = emitted s /\
  rows (repository s') = rows (repository s) /\
  match r with
  | Ok (Some job) =>
      id job = i /\ saved job = true /\ Priority.known (priority job) = true /\
      exists d, d ∈ rows (repository s) /\ _id d = i /\
                type job = doc_type d /\ data job = doc_data d /\
                createdAt job = doc_createdAt d /\ updatedAt job = doc_updatedAt d /\
                state job = default INACTIVE (doc_state d) /\ logs job = doc_logs d
  | Ok None => i ∉ map _id (rows (repository s))
  | Throw _ => False
  end.
Proof.
  intros Hnext. unfold Queue_findJob. rewrite tryCatch_emitAndRethrow.
  unfold bind at 1. unfold liftDb, JobRepository.findJob, db_findOne, bind at 1.
  rewrite io_served by done. cbn [served].
  destruct (head _) as [d|] eqn:Hh.
  - apply filter_id_head in Hh as [Hd Hid]. cbn [rows] in Hd.
    unfold bind. rewrite convertNeDbJobToJob_eq. unfold ret.
    rewrite warned_emitted, warned_repository. qsimpl.
    split; [done|]. split; [done|]. split; [done|]. split; [done|].
    split; [apply sanitized_known|]. exists d. by repeat split.
  - apply filter_id_none in Hh. cbn [rows] in Hh. unfold ret. qsimpl. done.
Qed.

(** X10: when the store serves the call and no row has the id,
    [removeJobById(id)] throws its not-found error; it has looked the id up
    once, changed no row and emitted nothing. *)
Theorem removeJobById_not_found (i : string) s :
  nextCallServed (repository s) ->
  i ∉ map _id (rows (repository s)) ->
  let (r, s') := Queue_removeJobById i s in
  r = Throw (mkError ("Job(id:" +:+ i +:+ ") is not found.")) /\
  emitted s' = emitted s /\
  rows (repository s') = rows (repository s) /\
  oplog (repository s') = oplog (repository s) ++ [OpFindOne].
Proof.
  intros Hnext Habs. unfold Queue_removeJobById. unfold bind at 1.
  rewrite tryCatch_emitAndRethrow.
  unfold liftDb, JobRepository.findJob, db_findOne, bind.
  rewrite io_served by done. cbn [served rows].
  by rewrite filter_id_absent.
Qed.

(** X11: on a store that does not fail and holds one row per id,
    [removeJobById(id)] of a stored id returns normally; the row of that id
    is gone and every other row is kept, in order. *)
Theorem removeJobById_removes_the_row (i : string) s :
  faults (repository s) = [] ->
  uniqueIds (repository s) ->
  i ∈ map _id (rows (repository s)) ->
  let (r, s') := Queue_removeJobById i s in
  r = Ok tt /\
  rows (repository s') = filter (fun d => _id d <> i) (rows (repository s)) /\
  (i ∉ map _id (rows (repository s'))).
Proof.
  intros Hf Hnd Hin. unfold Queue_removeJobById. unfold bind at 1.
  rewrite tryCatch_emitAndRethrow.
  unfold liftDb at 1. unfold JobRepository.findJob, db_findOne, bind at 1.
  rewrite io_ok by by apply no_fault_head. cbn [served rows].
  apply list_elem_of_In, in_map_iff in Hin as (d & <- & Hd). apply list_elem_of_In in Hd.
  rewrite filter_id_unique by done. cbn [head].
  unfold bind at 1. rewrite convertNeDbJobToJob_eq.
  rewrite tryCatch_emitAndRethrow.
  unfold Job_remove. cbn [saved converted negb].
  unfold Queue_removeJob. rewrite tryCatch_emitAndRethrow.
  unfold liftDb, JobRepository.removeJob, db_remove, bind.
  rewrite warned_repository. qsimpl.
  rewrite io_ok by (apply no_fault_head; cbn; by rewrite Hf).
  cbn [id converted]. qsimpl.
  rewrite removeFirst_filter by done.
  split; [done|]. split; [done|].
  intros Hin. apply list_elem_of_In, in_map_iff in Hin as (x & Hx & Hin).
  apply list_elem_of_In, list_elem_of_filter in Hin as [Hne _]. done.
Qed.

Lemma findInactiveJobByType_rows type ds :
  rows (snd (JobRepository.findInactiveJobByType type ds)) = rows ds.
Proof.
  unfold JobRepository.findInactiveJobByType, bind, ret.
  pose proof (db_find_rows (fun d => bool_decide (doc_type d = type)
                                     && bool_decide (doc_state d = Some INACTIVE))
                [(doc_priority, -1); (doc_createdAt, 1)] (Some 1%nat) ds) as H.
  by destruct (db_find _ _ _ ds) as [[docs|e] ds1].
Qed.

(** Parking under the mutex. *)
Lemma requestJobForProcessing_parks (type : string) (sr : World -> bool) s (ds' : DataStore) :
  mutexLocked s = false ->
  lookupRequests type s = Undefined \/ lookupRequests type s = Requests [] ->
  JobRepository.findInactiveJobByType type (repository s) = (Ok None, ds') ->
  exists s',
    Queue_requestJobForProcessing type sr s = (Ok (Parked (promises s)), s') /\
    waitingRequests s' !! type = Some [mkRequest (promises s) sr] /\
    promises s' = S (promises s) /\
    repository s' = ds' /\
    emitted s' = emitted s /\
    nextTick s' = nextTick s /\
    resolved s' = resolved s /\
    mutexLocked s' = false /\
    mutexAcquired s' = S (mutexAcquired s) /\
    world s' = world s.
Proof.
  intros Hfree Hw Hfind.
  assert (someoneWaiting type s = false) as Hnone.
  { unfold someoneWaiting. by destruct Hw as [->| ->]. }
  unfold Queue_requestJobForProcessing. rewrite Hnone, Hfree.
  unfold tryFinally. rewrite tryCatch_emitAndRethrow.
  unfold requestUnderMutex, bind at 1. unfold liftDb. cbn [repository setMutex].
  rewrite Hfind. unfold bind.
  assert (forall ds n, lookupRequests type (setRepository ds (setMutex true n s))
                       = lookupRequests type s) as Hsame by done.
  rewrite Hsame. destruct Hw as [Hw|Hw]; rewrite Hw.
  - unfold parkRequest.
    match goal with |- context [lookupRequests type ?s1] =>
      assert (lookupRequests type s1 = Requests []) as -> end.
    { unfold lookupRequests. qsimpl. by rewrite lookup_insert_eq. }
    cbn. eexists. split; [reflexivity|]. cbn.
    rewrite insert_insert_eq, lookup_insert_eq. by repeat split.
  - unfold parkRequest. rewrite Hsame, Hw. cbn.
    eexists. split; [reflexivity|]. cbn.
    rewrite lookup_insert_eq. by repeat split.
Qed.

(** X12: a call of [requestJobForProcessing] that takes the mutex and finds
    no candidate parks, when [waitingRequests[type]] is undefined or an
    empty list: the waiting list of the type, created if it was missing,
    holds exactly the new request, whose pending promise is returned; no
    row is changed, nothing is emitted or queued, and the mutex is free
    again. *)
Theorem requestJobForProcessing_parks_without_candidate
    (type : string) (sr : World -> bool) s (ds' : DataStore) :
  mutexLocked s = false ->
  lookupRequests type s = Undefined \/ lookupRequests type s = Requests [] ->
  JobRepository.findInactiveJobByType type (repository s) = (Ok None, ds') ->
  let (r, s') := Queue_requestJobForProcessing type sr s in
  r = Ok (Parked (promises s)) /\
  waitingRequests s' !! type = Some [mkRequest (promises s) sr] /\
  promises s' = S (promises s) /\
  rows (repository s') = rows (repository s) /\
  emitted s' = emitted s /\
  nextTick s' = nextTick s /\
  resolved s' = resolved s /\
  mutexLocked s' = false /\
  mutexAcquired s' = S (mutexAcquired s).
Proof.
  intros Hfree Hw Hfind.
  pose proof (findInactiveJobByType_rows type (repository s)) as Hrows.
  rewrite Hfind in Hrows. cbn [snd] in Hrows.
  destruct (requestJobForProcessing_parks type sr s ds' Hfree Hw Hfind)
    as (s' & -> & Hlist & Hp & Hrepo & Hem & Htick & Hres & Hlock & Hacq & _).
  rewrite Hrepo. by repeat split.
Qed.

Lemma keeps_of_dispatch {X A} (g : _ -> X) (m : M (QueueState World) A) :
  keepsDispatch m -> keeps (fun s => g (dispatchState s)) m.
Proof. intros Hm s. by rewrite Hm. Qed.

(** The [try] block of [requestJobForProcessing] keeps whatever parking a
    request keeps. *)
Lemma keeps_request_body {X} (g : QueueState World -> X) type (sr : World -> bool) :
  (forall A (m : M (QueueState World) A), keepsDispatch m -> keeps g m) ->
  (forall w s, g (setWaitingRequests (<[type := w]> (waitingRequests s)) s) = g s) ->
  (forall n s, g (setPromises n s) = g s) ->
  keeps g (tryCatch (requestUnderMutex type sr) (emitAndRethrow None)).
Proof.
  intros Hd Hw Hp. apply keeps_tryCatch; [|intros e; apply Hd, keepsDispatch_emitAndRethrow].
  apply keeps_bind; [apply Hd, keepsDispatch_liftDb|]. intros [d|].
  - intros s. destruct (sr (world s)); [|done]. revert s.
    apply keeps_bind; [apply Hd, keepsDispatch_convert|]. intros j.
    apply keeps_bind; [apply Hd, keepsDispatch_setStateToActive|]. intros j'.
    apply keeps_ret.
  - apply keeps_bind.
    + intros s. destruct (lookupRequests type s); [|done|done]. cbn [snd]. apply Hw.
    + intros _ s. unfold parkRequest. destruct (lookupRequests type s); cbn [snd].
      * apply Hp.
      * rewrite Hp. apply Hw.
      * apply Hp.
Qed.

(** X13: [requestJobForProcessing] called with the mutex free leaves it free
    on every path (when it parks, when it returns a job or null, and when the
    query or the claim throws) and has taken it at most once. *)
Theorem requestJobForProcessing_releases_mutex (type : string) (sr : World -> bool) s :
  mutexLocked s = false ->
  let s' := snd (Queue_requestJobForProcessing type sr s) in
  mutexLocked s' = false /\
  (mutexAcquired s' = mutexAcquired s \/ mutexAcquired s' = S (mutexAcquired s)).
Proof.
  intros Hfree. unfold Queue_requestJobForProcessing.
  destruct (someoneWaiting type s).
  - rewrite settle_snd. unfold parkRequest.
    destruct (lookupRequests type s); cbn; auto.
  - rewrite Hfree, settle_snd. unfold tryFinally.
    pose proof (keeps_request_body (fun s => mutexAcquired s) type sr) as Hk.
    match goal with |- context [tryCatch ?m ?h ?s1] =>
      specialize (Hk (fun A m0 Hm => keeps_of_dispatch (fun '(_, _, _, _, _, a) => a) m0 Hm)
                     (fun _ _ => eq_refl) (fun _ _ => eq_refl) s1);
      destruct (tryCatch m h s1) as [r s2] end.
    cbn in Hk |- *. auto.
Qed.

(** X14: the waiting lists of the other types are out of reach: whatever
    [requestJobForProcessing(type)] and [addJob(job)] do, and however they
    end, the waiting list of any type other than [type], or than the job's
    type, is as before. *)
Theorem waiters_of_other_types_untouched (other : string) s :
  (forall type (sr : World -> bool),
      type <> other ->
      waitingRequests (snd (Queue_requestJobForProcessing type sr s)) !! other
      = waitingRequests s !! other) /\
  (forall job,
      type job <> other ->
      waitingRequests (snd (Queue_addJob job s)) !! other = waitingRequests s !! other).
Proof.
  assert (forall A (m : M (QueueState World) A),
             keepsDispatch m -> keeps (fun s => waitingRequests s !! other) m) as Hd.
  { intros A m Hm. exact (keeps_of_dispatch (fun '(w, _, _, _, _, _) => w !! other) m Hm). }
  split.
  - intros type sr Hne. unfold Queue_requestJobForProcessing.
    destruct (someoneWaiting type s).
    + rewrite settle_snd. unfold parkRequest.
      destruct (lookupRequests type s); [done| |done].
      cbn. by rewrite lookup_insert_ne.
    + destruct (mutexLocked s); [done|]. rewrite settle_snd. unfold tryFinally.
      pose proof (keeps_request_body (fun s => waitingRequests s !! other) type sr Hd) as Hk.
      match goal with |- context [tryCatch ?m ?h ?s1] =>
        specialize (Hk (fun w s0 => lookup_insert_ne (waitingRequests s0) type other w Hne)
                       (fun _ _ => eq_refl) s1);
        destruct (tryCatch m h s1) as [r s2] end.
      cbn in Hk |- *. done.
  - intros job Hne. unfold Queue_addJob.
    match goal with |- context [tryCatch ?m ?h s] =>
      assert (keeps (fun s => waitingRequests s !! other) (tryCatch m h)) as Hk end.
    { apply keeps_tryCatch; [|intros e; apply Hd, keepsDispatch_emitAndRethrow].
      apply keeps_bind; [apply Hd, keepsDispatch_liftDb|]. intros d s1.
      destruct (lookupRequests (type job) s1) as [|requests|len]; [done| |done].
      destruct (shiftUntilRequested (world s1) requests) as [[request|] rest];
        [|cbn; by rewrite lookup_insert_ne].
      cbv zeta.
      match goal with |- context [ ?m (setWaitingRequests ?w s1) ] =>
        assert (keeps (fun s => waitingRequests s !! other) m) as Hm end.
      { apply keeps_bind; [apply Hd, keepsDispatch_convert|]. intros j.
        apply keeps_bind; [apply Hd, keepsDispatch_setStateToActive|]. intros j'.
        done. }
      rewrite Hm. cbn. by rewrite lookup_insert_ne. }
    apply Hk.
Qed.

(** X15: [addJob] of a job for whose type [waitingRequests[job.type]] is
    undefined only inserts: when the store serves the call and no row has
    the job's id, the call returns, the new row is the last one and has the
    state the job had, and there is no other call to the store, no waiting
    list created, nothing queued, resolved or emitted. *)
Theorem addJob_without_waiting_list job s :
  nextCallServed (repository s) ->
  id job ∉ map _id (rows (repository s)) ->
  lookupRequests (type job) s = Undefined ->
  let (r, s') := Queue_addJob job s in
  r = Ok tt /\
  rows (repository s') = rows (repository s) ++ [JobRepository.insertDoc job] /\
  doc_state (JobRepository.insertDoc job) = Some (state job) /\
  oplog (repository s') = oplog (repository s) ++ [OpInsert (id job)] /\
  dispatchState s' = dispatchState s /\
  emitted s' = emitted s.
Proof.
  intros Hnext Hfresh Hw. unfold Queue_addJob. rewrite tryCatch_emitAndRethrow.
  unfold bind at 1. unfold liftDb, JobRepository.addJob, db_insert, bind.
  rewrite io_served by done. cbn [served rows].
  rewrite bool_decide_eq_false_2 by done.
  rewrite lookupRequests_setRepository, Hw. qsimpl.
  by repeat split.
Qed.

(** X16: [addJob] of a job whose id is already stored fails before it looks
    at the waiting lists: when the store serves the call, it throws the
    error of the unique index, emits one [Error] event with that error and
    the job, and changes no row, no waiting list, nothing queued or
    resolved. *)
Theorem addJob_id_collision job s :
  nextCallServed (repository s) ->
  id job ∈ map _id (rows (repository s)) ->
  let (r, s') := Queue_addJob job s in
  r = Throw (uniqueViolated (id job)) /\
  rows (repository s') = rows (repository s) /\
  dispatchState s' = dispatchState s /\
  emitted s' = emitted s ++ [errorEmission (uniqueViolated (id job)) (Some job)].
Proof.
  intros Hnext Hin. unfold Queue_addJob. rewrite tryCatch_emitAndRethrow.
  unfold bind at 1. unfold liftDb, JobRepository.addJob, db_insert, bind.
  rewrite io_served by done. cbn [served rows].
  rewrite bool_decide_eq_true_2 by done. qsimpl. by repeat split.
Qed.

Lemma shiftUntilRequested_app (w : World) skipped request rest :
  Forall (fun r => stillRequest r w = false) skipped ->
  stillRequest request w = true ->
  shiftUntilRequested w (skipped ++ request :: rest) = (Some request, rest).
Proof.
  intros Hsk Hreq. induction Hsk as [|x l Hx Hl IH]; simpl.
  - by rewrite Hreq.
  - by rewrite Hx.
Qed.

(** X17: a request can be lost.  When [addJob] has inserted the job and
    taken the first willing request off the waiting list, and then fails
    (the write of the ACTIVE state fails, or the job was not INACTIVE), the
    request is not put back: the list holds only the requests behind it,
    nothing is queued for its promise and nothing is resolved. *)
Theorem addJob_failure_loses_the_request job s
    (skipped rest : list (WaitingWorkerRequest World)) request d ds1 e s' :
  JobRepository.addJob job (repository s) = (Ok d, ds1) ->
  waitingRequests s !! type job = Some (skipped ++ request :: rest) ->
  Forall (fun r => stillRequest r (world s) = false) skipped ->
  stillRequest request (world s) = true ->
  Queue_addJob job s = (Throw e, s') ->
  waitingRequests s' !! type job = Some rest /\
  nextTick s' = nextTick s /\
  resolved s' = resolved s /\
  promises s' = promises s.
Proof.
  intros Hins Hw Hsk Hreq. unfold Queue_addJob. rewrite tryCatch_emitAndRethrow.
  unfold bind at 1. unfold liftDb. rewrite Hins.
  rewrite (lookupRequests_own _ _ (skipped ++ request :: rest)) by done. qsimpl.
  rewrite shiftUntilRequested_app by done.
  unfold bind at 1. rewrite convertNeDbJobToJob_eq. unfold bind at 1.
  match goal with |- context [Job_setStateToActive ?j ?s1] =>
    pose proof (keepsDispatch_setStateToActive j s1) as Hk;
    destruct (Job_setStateToActive j s1) as [[j'|e'] s2] end; [done|].
  intros [= -> <-]. cbn [snd] in Hk. unfold dispatchState in Hk.
  injection Hk as Hw2 Hp2 Ht2 Hr2 _ _. qsimpl.
  rewrite Hw2, Hp2, Ht2, Hr2. unfold warned. destruct (Priority.known _); qsimpl.
  all: by rewrite lookup_insert_eq.
Qed.

(** *** Start-up *)

Lemma listed_nothing st l :
  (forall d, d ∈ l -> wanted st d = false) -> listed st l = [].
Proof.
  intros Hno. rewrite listed_wanted.
  assert (filter (fun d => wanted st d = true) l = []) as ->; [|done].
  induction l as [|x l IH]; [done|].
  rewrite filter_cons_False.
  - apply IH. intros d Hd. apply Hno. by right.
  - rewrite Hno by by left. done.
Qed.

(** X18: start-up on a store that does not fail and holds no ACTIVE job is a
    load and one listing and nothing else: [createQueue] returns, no row is
    changed, no row is written and nothing is emitted. *)
Theorem createQueue_without_active_jobs (persisted : DataStore) (now : Date)
    (ids : list string) (w : World) :
  faults persisted = [] ->
  (forall d, d ∈ rows persisted -> doc_state d <> Some ACTIVE) ->
  let (r, q) := Queue_createQueue persisted now ids w in
  r = Ok tt /\
  rows (repository q) = rows persisted /\
  oplog (repository q) = oplog persisted ++ [OpLoad; OpFind] /\
  emitted q = [] /\
  waitingRequests q = ∅.
Proof.
  intros Hf Hno. unfold Queue_createQueue, Queue_cleanupAfterUnexpectedlyTermination.
  unfold bind at 1. unfold liftDb, JobRepository.init, Queue_new. qsimpl.
  rewrite io_ok by by apply no_fault_head.
  unfold bind at 1. rewrite Queue_listJobs_ok by (qsimpl; by rewrite Hf).
  qsimpl. rewrite listed_nothing.
  - cbn. rewrite <- app_assoc. by repeat split.
  - intros d Hd. apply bool_decide_eq_false_2. by apply Hno.
Qed.

Lemma surfaces_setStateToFailure error job :
  surfaces (pending (World:=World)) (Job_setStateToFailure error job).
Proof.
  unfold Job_setStateToFailure. destruct (negb _); [apply surfaces_throw|].
  apply surfaces_bind; [by apply surfaces_same|]. intros now.
  apply surfaces_bind.
  { unfold Job_update. destruct (negb _); [apply surfaces_throw | apply surfaces_updateJob]. }
  intros _. apply surfaces_bind; [by apply surfaces_same|]. intros _. apply surfaces_ret.
Qed.

Lemma surfaces_failEach jobs : surfaces (pending (World:=World)) (failEach jobs).
Proof.
  induction jobs as [|j jobs IH]; cbn [failEach]; [apply surfaces_ret|].
  apply surfaces_bind; [apply surfaces_setStateToFailure|]. intros _. apply IH.
Qed.

(** X19: [createQueue] does not swallow a failure of the store: when it
    returns, the load, the listing and every write it made were served; when
    it throws, either they all were, or the one that failed did so with the
    error thrown. *)
Theorem createQueue_surfaces_store_failures (persisted : DataStore) (now : Date)
    (ids : list string) (w : World) :
  let (r, q) := Queue_createQueue persisted now ids w in
  match r with
  | Ok _ => passed (faults persisted) (faults (repository q))
  | Throw e =>
      passed (faults persisted) (faults (repository q)) \/
      failed e (faults persisted) (faults (repository q))
  end.
Proof.
  unfold Queue_createQueue.
  match goal with |- context [bind ?m ?k ?s0] =>
    assert (surfaces (pending (World:=World)) (bind m k)) as Hs; [|exact (Hs s0)] end.
  apply surfaces_bind; [apply surfaces_liftDb, surfaces_io|]. intros _.
  apply surfaces_bind; [apply surfaces_listJobs|]. intros jobs. apply surfaces_failEach.
Qed.

(** The rows start-up leaves on a store that does not fail and holds one row
    per id. *)
Lemma createQueue_recovered_rows (persisted : DataStore) (now : Date)
    (ids : list string) (w : World) :
  faults persisted = [] ->
  uniqueIds persisted ->
  let (r, q) := Queue_createQueue persisted now ids w in
  r = Ok tt /\
  rows (repository q) =
    map (fun r => if bool_decide (doc_state r = Some ACTIVE)
                  then failedRow now r else r) (rows persisted).
Proof.
  intros Hf Hnd. unfold uniqueIds in Hnd.
  unfold Queue_createQueue, Queue_cleanupAfterUnexpectedlyTermination.
  unfold bind at 1. unfold liftDb, JobRepository.init, Queue_new. qsimpl.
  rewrite io_ok by by apply no_fault_head.
  unfold bind at 1. rewrite Queue_listJobs_ok by (qsimpl; by rewrite Hf).
  qsimpl. set (active := listed (Some ACTIVE) (rows persisted)).
  match goal with |- context [failEach _ ?s1] =>
    destruct (failEach_ok active s1) as (q & -> & Hrows & _) end.
  { match goal with |- context [repository (warnedAll active ?s0)] =>
      destruct (warnedAll_frame active s0) as (-> & _ & _) end.
    qsimpl. by rewrite Hf. }
  { intros d Hd. apply listed_elem in Hd as [Hin Hact]. split; [done|].
    match goal with |- context [repository (warnedAll active ?s0)] =>
      destruct (warnedAll_frame active s0) as (-> & _ & _) end.
    qsimpl. apply list_elem_of_In, in_map, list_elem_of_In, Hin. }
  match type of Hrows with context [warnedAll active ?s0] =>
    destruct (warnedAll_frame active s0) as (Hr0 & _ & Hc0) end.
  rewrite Hr0, Hc0 in Hrows. clear Hr0 Hc0. qsimpl.
  split; [done|]. rewrite Hrows, failRows_map; [|done|by apply listed_NoDup|].
  2:{ intros d Hd. by apply listed_elem in Hd as [Hin _]. }
  apply map_ext_in. intros r Hr. apply list_elem_of_In in Hr.
  destruct (decide (doc_state r = Some ACTIVE)) as [Hact|Hact].
  - rewrite (bool_decide_eq_true_2 (doc_state r = Some ACTIVE)) by done.
    rewrite bool_decide_eq_true_2; [done|].
    apply list_elem_of_In, in_map, list_elem_of_In, listed_elem. by split.
  - rewrite (bool_decide_eq_false_2 (doc_state r = Some ACTIVE)) by done.
    rewrite bool_decide_eq_false_2; [done|].
    intros Hin. apply list_elem_of_In, in_map_iff in Hin as (d & Hid & Hd).
    apply list_elem_of_In, listed_elem in Hd as [Hd Hdact].
    assert (d = r) as -> by (by eapply same_id_same_row). done.
Qed.

(** X20: crash recovery is idempotent: on a store that does not fail and
    holds one row per id, creating a queue again over the store a first
    start-up left returns, changes no row and emits nothing. *)
Theorem createQueue_twice (persisted : DataStore) (now now' : Date)
    (ids ids' : list string) (w w' : World) :
  faults persisted = [] ->
  uniqueIds persisted ->
  let recovered := repository (snd (Queue_createQueue persisted now ids w)) in
  let (r, q) := Queue_createQueue recovered now' ids' w' in
  r = Ok tt /\
  rows (repository q) = rows recovered /\
  emitted q = [].
Proof.
  intros Hf Hnd.
  pose proof (createQueue_recovered_rows persisted now ids w Hf Hnd) as Hrec.
  assert (rows (repository (snd (Queue_createQueue persisted now ids w))) =
          map (fun r => if bool_decide (doc_state r = Some ACTIVE)
                        then failedRow now r else r) (rows persisted)) as Hrows.
  { destruct (Queue_createQueue persisted now ids w) as [r1 q1]. by destruct Hrec. }
  clear Hrec.
  assert (faults (repository (snd (Queue_createQueue persisted now ids w))) = []) as Hf1.
  { unfold Queue_createQueue.
    match goal with |- context [bind ?m ?k ?s0] =>
      assert (surfaces (pending (World:=World)) (bind m k)) as Hs;
        [|specialize (Hs s0); destruct (bind m k s0) as [r1 q1]] end.
    { apply surfaces_bind; [apply surfaces_liftDb, surfaces_io|]. intros _.
      apply surfaces_bind; [apply surfaces_listJobs|]. intros jobs. apply surfaces_failEach. }
    unfold pending, Queue_new in Hs. qsimpl. rewrite Hf in Hs.
    assert (passed [] (faults (repository q1)) \/
            exists e, failed e [] (faults (repository q1))) as [[k Hk]|[e [k Hk]]].
    { destruct r1; [by left|]. destruct Hs; [by left | right; by eexists]. }
    - symmetry in Hk. by apply app_eq_nil in Hk as [_ ?].
    - symmetry in Hk. by apply app_eq_nil in Hk as [_ ?]. }
  set (q1 := snd (Queue_createQueue persisted now ids w)) in *.
  cbv zeta.
  assert (forall d, d ∈ rows (repository q1) -> doc_state d <> Some ACTIVE) as Hno.
  { intros d Hd. rewrite Hrows in Hd.
    apply list_elem_of_In, in_map_iff in Hd as (x & <- & _).
    destruct (bool_decide (doc_state x = Some ACTIVE)) eqn:Hx; [done|].
    by apply bool_decide_eq_false in Hx. }
  unfold Queue_createQueue, Queue_cleanupAfterUnexpectedlyTermination.
  unfold bind at 1. unfold liftDb, JobRepository.init, Queue_new. qsimpl.
  rewrite io_ok by by apply no_fault_head.
  unfold bind at 1. rewrite Queue_listJobs_ok by (qsimpl; by rewrite Hf1).
  qsimpl. rewrite listed_nothing.
  - cbn. by repeat split.
  - intros d Hd. apply bool_decide_eq_false_2. by apply Hno.
Qed.

(** *** Removal by predicate, when it succeeds *)

Lemma filter_keeps_unique_ids (P : NeDbJob -> Prop) `{forall d, Decision (P d)} l :
  NoDup (map _id l) -> NoDup (map _id (filter P l)).
Proof.
  induction l as [|x l IH]; [done|]. cbn [map]. intros [Hx Hl]%NoDup_cons.
  rewrite filter_cons. destruct (decide (P x)); [|by apply IH].
  cbn [map]. apply NoDup_cons. split; [|by apply IH].
  intros Hin. apply Hx. apply list_elem_of_In, in_map_iff in Hin as (y & Hy & Hin).
  apply list_elem_of_In, list_elem_of_filter in Hin as [_ Hin].
  rewrite <- Hy. apply list_elem_of_In, in_map, list_elem_of_In, Hin.
Qed.

Lemma without_filter removed l :
  NoDup (map _id l) ->
  without removed l = filter (fun d => _id d ∉ map id removed) l.
Proof.
  revert l. induction removed as [|j removed IH]; intros l Hnd.
  - cbn. symmetry. apply filter_all. intros d _. apply not_elem_of_nil.
  - change (without (j :: removed) l) with (without removed (removeFirst (id j) l)).
    rewrite removeFirst_filter by done.
    rewrite IH by by apply filter_keeps_unique_ids.
    rewrite list_filter_filter. apply list_filter_iff. intros d. cbn [map].
    rewrite not_elem_of_cons. tauto.
Qed.

(** X21: on a store with one row per id, when [removeJobsByCallback] returns,
    what it returns is the jobs of the rows the predicate accepted, in
    ascending order of [createdAt] (the order of the listing), and the rows
    left are exactly the rows of the other ids, in their order. *)
Theorem removeJobsByCallback_returns_the_removed
    (callback : Job -> Result bool) s jobs s' :
  uniqueIds (repository s) ->
  Queue_removeJobsByCallback callback s = (Ok jobs, s') ->
  jobs = accepted callback (listed None (rows (repository s))) /\
  rows (repository s') = filter (fun d => _id d ∉ map id jobs) (rows (repository s)).
Proof.
  intros Hnd. unfold Queue_removeJobsByCallback, tryCatch.
  unfold bind at 1. unfold onQueue at 1. unfold liftDb.
  rewrite listJobs_eq. pose proof (io_rows OpFind (repository s)) as Hrows.
  destruct (io OpFind (repository s)) as [[[]|e] ds1]; cbn [snd] in Hrows; [|done].
  pose proof (removeEach_outcome callback (listed None (rows ds1)) (setRepository ds1 s)
                (mkRemoveLocals [] None)) as Hloop.
  destruct (removeEach callback _ _) as [[[]|e] [s1 v1]]; [|done].
  destruct Hloop as (l & _ & Hr & Hv). intros [= <- <-].
  qsimpl. rewrite Hrows in *. rewrite Hv. split; [done|].
  rewrite Hr. by apply without_filter.
Qed.

(** *** Claiming a job *)

Lemma passed_nil f : passed [] f -> f = [].
Proof. intros [k Hk]. symmetry in Hk. by apply app_eq_nil in Hk as [_ ?]. Qed.

Lemma findInactiveJobByType_no_fault type ds r ds' :
  faults ds = [] ->
  JobRepository.findInactiveJobByType type ds = (r, ds') -> faults ds' = [].
Proof.
  intros Hf Hrun. pose proof (surfaces_findInactiveJobByType type ds) as Hs.
  rewrite Hrun, Hf in Hs. destruct r as [a|e].
  - by apply passed_nil.
  - destruct Hs as [Hs|[k Hk]]; [by apply passed_nil|].
    symmetry in Hk. by apply app_eq_nil in Hk as [_ ?].
Qed.

(** X22: a claimed job is not offered again.  On a store that does not fail
    and holds one row per id, a call of [requestJobForProcessing] that takes
    the mutex (the test for parked requests of the type fails and the mutex
    is free), finds a candidate and is still wanted returns the job of the
    candidate, ACTIVE and started now; only the row of that id has changed,
    and the next query for an inactive job of the type does not return a row
    of that id. *)
Theorem requestJobForProcessing_claims_once
    (type : string) (sr : World -> bool) s d (ds' : DataStore) :
  mutexLocked s = false ->
  someoneWaiting type s = false ->
  faults (repository s) = [] ->
  uniqueIds (repository s) ->
  JobRepository.findInactiveJobByType type (repository s) = (Ok (Some d), ds') ->
  sr (world s) = true ->
  let (r, s') := Queue_requestJobForProcessing type sr s in
  exists job,
    r = Ok (Returned (Some job)) /\
    id job = _id d /\ state job = ACTIVE /\ startedAt job = Some (clock s) /\
    rows (repository s') =
      map (fun x => if bool_decide (_id x = _id d)
                    then JobRepository.updateQuery job x else x) (rows (repository s)) /\
    mutexLocked s' = false /\
    forall d2 ds2,
      JobRepository.findInactiveJobByType type (repository s') = (Ok (Some d2), ds2) ->
      _id d2 <> _id d.
Proof.
  intros Hfree Hw Hf Hnd Hfind Hsr.
  destruct (findInactiveJobByType_found _ _ _ _ Hfind) as (Hin & Hst & Hrows & _).
  pose proof (findInactiveJobByType_no_fault _ _ _ _ Hf Hfind) as Hf'.
  unfold Queue_requestJobForProcessing. rewrite Hw, Hfree.
  unfold tryFinally. rewrite tryCatch_emitAndRethrow.
  unfold requestUnderMutex, bind at 1. unfold liftDb. cbn [repository setMutex].
  rewrite Hfind. qsimpl. rewrite Hsr.
  unfold bind at 1. rewrite convertNeDbJobToJob_eq. unfold bind at 1.
  set (job := withActive (clock s) (converted d)).
  assert (updateFirst (_id d) (JobRepository.updateQuery job) (rows ds')
          = (1, map (fun x => if bool_decide (_id x = _id d)
                              then JobRepository.updateQuery job x else x) (rows ds'))) as Hup.
  { rewrite Hrows.
    rewrite (surjective_pairing (updateFirst (_id d) (JobRepository.updateQuery job)
                                   (rows (repository s)))).
    f_equal; [apply updateFirst_present | by apply updateFirst_map].
    apply list_elem_of_In, in_map, list_elem_of_In, Hin. }
  erewrite Job_setStateToActive_ok; first last.
  { rewrite warned_repository. qsimpl.
    unfold warned. destruct (Priority.known _); qsimpl; exact Hup. }
  { rewrite warned_repository. qsimpl. exact Hf'. }
  { reflexivity. }
  { cbn. by rewrite Hst. }
  unfold ret. rewrite warned_repository.
  assert (forall p, clock (warned p (setRepository ds' (setMutex true (S (mutexAcquired s)) s)))
                    = clock s) as Hclock.
  { intros p. unfold warned. by destruct (Priority.known p). }
  rewrite Hclock. qsimpl. fold job. exists job.
  split; [done|]. split; [done|]. split; [done|]. split; [done|].
  split; [by rewrite Hrows|]. split; [done|].
  intros d2 ds2 Hfind2.
  destruct (findInactiveJobByType_found _ _ _ _ Hfind2) as (Hin2 & Hst2 & _).
  cbn [rows] in Hin2. intros Hid.
  apply list_elem_of_In, in_map_iff in Hin2 as (x & Hx & _).
  destruct (bool_decide (_id x = _id d)) eqn:Hxd.
  - subst d2. cbn in Hst2. discriminate.
  - subst d2. apply bool_decide_eq_false in Hxd. done.
Qed.

(** *** Parked requests are served first come, first served *)

(** The hand-off of [addJob], given what the loop takes off the list. *)
Lemma addJob_handoff_run job s (requests rest : list (WaitingWorkerRequest World)) request :
  faults (repository s) = [] ->
  id job ∉ map _id (rows (repository s)) ->
  state job = INACTIVE ->
  waitingRequests s !! type job = Some requests ->
  shiftUntilRequested (world s) requests = (Some request, rest) ->
  let (r, s') := Queue_addJob job s in
  r = Ok tt /\
  waitingRequests s' = <[type job := rest]> (waitingRequests s) /\
  nextTick s' = nextTick s
                ++ [(resolve request,
                     withActive (clock s) (converted (JobRepository.insertDoc job)))] /\
  resolved s' = resolved s.
Proof.
  intros Hf Hfresh Hst Hw Hshift.
  unfold Queue_addJob. rewrite tryCatch_emitAndRethrow.
  unfold bind at 1. rewrite liftDb_addJob_ok by done.
  rewrite (lookupRequests_own _ _ requests) by done. qsimpl. rewrite Hshift.
  unfold bind at 1. rewrite convertNeDbJobToJob_eq.
  unfold bind at 1.
  erewrite Job_setStateToActive_ok; first last.
  { rewrite warned_repository. qsimpl.
    apply updateFirst_last; [exact Hfresh | reflexivity]. }
  { rewrite warned_repository. qsimpl. by rewrite Hf. }
  { reflexivity. }
  { cbn. by rewrite Hst. }
  unfold deferResolve, warned.
  destruct (Priority.known _); qsimpl; by repeat split.
Qed.

(** X23: first come, first served.  With the mutex free,
    [waitingRequests[type]] undefined or an empty list, no inactive job of
    the type and a store that does not fail: two requests park one after
    the other, and a job of the type added then goes to the first of them,
    if it still wants one: its promise is the one queued for resolution,
    with the job ACTIVE, and the second request stays parked. *)
Theorem parked_requests_first_come_first_served
    (sr1 sr2 : World -> bool) s job (ds' : DataStore) :
  mutexLocked s = false ->
  lookupRequests (type job) s = Undefined \/ lookupRequests (type job) s = Requests [] ->
  faults (repository s) = [] ->
  JobRepository.findInactiveJobByType (type job) (repository s) = (Ok None, ds') ->
  id job ∉ map _id (rows (repository s)) ->
  state job = INACTIVE ->
  sr1 (world s) = true ->
  let run1 := Queue_requestJobForProcessing (type job) sr1 s in
  let run2 := Queue_requestJobForProcessing (type job) sr2 (snd run1) in
  let run3 := Queue_addJob job (snd run2) in
  fst run1 = Ok (Parked (promises s)) /\
  fst run2 = Ok (Parked (S (promises s))) /\
  fst run3 = Ok tt /\
  (exists activeJob,
      id activeJob = id job /\ state activeJob = ACTIVE /\
      nextTick (snd run3) = nextTick s ++ [(promises s, activeJob)]) /\
  waitingRequests (snd run3) !! type job = Some [mkRequest (S (promises s)) sr2].
Proof.
  intros Hfree Hw Hf Hfind Hfresh Hst Hsr.
  pose proof (findInactiveJobByType_rows (type job) (repository s)) as Hrows.
  rewrite Hfind in Hrows. cbn [snd] in Hrows.
  pose proof (findInactiveJobByType_no_fault _ _ _ _ Hf Hfind) as Hf'.
  (* the first request parks *)
  destruct (requestJobForProcessing_parks (type job) sr1 s ds' Hfree Hw Hfind)
    as (s1 & Hrun1 & Hw1 & Hp1 & Hr1 & _ & Ht1 & _ & _ & _ & Hwd1).
  (* the second one parks behind it *)
  assert (exists s2,
             Queue_requestJobForProcessing (type job) sr2 s1 = (Ok (Parked (S (promises s))), s2) /\
             waitingRequests s2 !! type job
             = Some [mkRequest (promises s) sr1; mkRequest (S (promises s)) sr2] /\
             repository s2 = ds' /\ nextTick s2 = nextTick s /\ world s2 = world s)
    as (s2 & Hrun2 & Hw2 & Hr2 & Ht2 & Hwd2).
  { unfold Queue_requestJobForProcessing, someoneWaiting, parkRequest, lookupRequests.
    rewrite Hw1, Hp1. cbn.
    eexists. split; [reflexivity|]. qsimpl. by rewrite lookup_insert_eq. }
  cbv zeta. rewrite Hrun1. cbn [fst snd]. rewrite Hrun2. cbn [fst snd].
  pose proof (addJob_handoff_run job s2
                [mkRequest (promises s) sr1; mkRequest (S (promises s)) sr2]
                [mkRequest (S (promises s)) sr2]
                (mkRequest (promises s) sr1)) as Hrun3.
  destruct (Queue_addJob job s2) as [r3 s3]. cbn [fst snd].
  destruct Hrun3 as (-> & Hw3 & Ht3 & _).
  - by rewrite Hr2.
  - by rewrite Hr2, Hrows.
  - done.
  - exact Hw2.
  - cbn. by rewrite Hwd2, Hsr.
  - split; [done|]. split; [done|]. split; [done|]. split.
    + eexists. split; [|split; [|rewrite Ht3, Ht2; reflexivity]]; done.
    + by rewrite Hw3, lookup_insert_eq.
Qed.

(** *** Creating a job *)

Lemma lookupRequests_warned type p s :
  lookupRequests type (warned p s) = lookupRequests type s.
Proof. unfold warned. by destruct (Priority.known p). Qed.

(** X24: [createJob] followed by [findJob] returns the job.  When the store
    does not fail, the fresh id is not stored yet and
    [waitingRequests[type]] is undefined: [createJob] returns a saved
    INACTIVE job with the fresh id, created and updated now, with no logs
    and with the priority the constructor made of the one supplied, and
    [findJob] of that id then returns a job with identical fields. *)
Theorem createJob_then_findJob (data : CreateJobData) s (u : string) (us : list string) :
  faults (repository s) = [] ->
  uuids s = u :: us ->
  u ∉ map _id (rows (repository s)) ->
  lookupRequests (cjd_type data) s = Undefined ->
  let (r, s1) := Queue_createJob data s in
  exists job,
    r = Ok job /\
    job = mkJob u (cjd_type data)
                (sanitized (default Priority.NORMAL (cjd_priority data)))
                (cjd_data data) (clock s) (clock s) None None None INACTIVE None None
                [] true /\
    fst (Queue_findJob u s1) = Ok (Some job).
Proof.
  intros Hf Hu Hfresh Hw.
  unfold Queue_createJob, bind at 1 2. unfold newDate, uuid. rewrite Hu.
  unfold bind at 1. rewrite newJob_eq.
  cbn [jcd_id jcd_type jcd_priority jcd_data jcd_createdAt jcd_updatedAt
       jcd_startedAt jcd_completedAt jcd_failedAt jcd_state jcd_duration
       jcd_progress jcd_logs jcd_saved].
  set (p := default Priority.NORMAL (cjd_priority data)).
  unfold Job_save. cbn [saved]. unfold bind at 1.
  unfold Queue_addJob. rewrite tryCatch_emitAndRethrow.
  unfold bind at 1.
  rewrite liftDb_addJob_ok by (rewrite warned_repository; qsimpl; done).
  rewrite lookupRequests_setRepository, lookupRequests_warned.
  cbn [type]. assert (lookupRequests (cjd_type data) (setUuids us s) = Undefined) as ->
    by exact Hw.
  unfold ret. cbn [withSaved id type priority createdAt updatedAt startedAt
                   completedAt failedAt state duration progress logs default].
  eexists. split; [reflexivity|]. split; [reflexivity|].
  unfold Queue_findJob. rewrite tryCatch_emitAndRethrow.
  unfold bind at 1. unfold liftDb, JobRepository.findJob, db_findOne, bind at 1.
  rewrite !warned_repository. qsimpl.
  rewrite io_ok by (apply no_fault_head; qsimpl; by rewrite Hf).
  qsimpl.
  rewrite filter_app, filter_id_absent by done.
  rewrite filter_cons_True by done. cbn [app head filter].
  unfold bind. rewrite convertNeDbJobToJob_eq. cbn [fst ret].
  unfold converted. cbn [JobRepository.insertDoc _id doc_type doc_priority doc_data
                         doc_createdAt doc_updatedAt doc_startedAt doc_completedAt
                         doc_failedAt doc_state doc_duration doc_progress doc_logs
                         id type priority createdAt updatedAt state logs default].
  do 3 f_equal. unfold sanitized at 1. by rewrite sanitized_known.
Qed.

(** *** The existence check *)

(** X28: [isExistJob] has no [try]/[catch]: when the store call fails, the
    error is raised to the caller and no event is emitted, where [findJob]
    in the same state raises the same error after an error event.  No row
    changes. *)
Theorem isExistJob_raises_without_event (job : Job) s (e : Error) (fs : list (option Error)) :
  faults (repository s) = Some e :: fs ->
  let (r, s') := Queue_isExistJob job s in
  r = Throw e /\
  emitted s' = emitted s /\
  rows (repository s') = rows (repository s) /\
  fst (Queue_findJob (id job) s) = Throw e /\
  emitted (snd (Queue_findJob (id job) s)) = emitted s ++ [errorEmission e None].
Proof.
  intros Hf.
  unfold Queue_isExistJob, Queue_findJob. rewrite tryCatch_emitAndRethrow.
  unfold bind at 1.
  unfold liftDb, JobRepository.isExistJob, JobRepository.findJob, db_count, db_findOne.
  unfold bind, io. rewrite Hf. by cbn.
Qed.

(** *** Types named like a member of [Object.prototype] *)

(** X29: [waitingRequests] is a plain object, so for a job whose type names
    a member of [Object.prototype] (and has no waiting list of its own)
    [addJob] finds that member where it looks for the waiting list.  When
    the store serves the insert and the id is new, the row is inserted,
    then the call of [shift] on the member throws: the error is emitted
    with the job and raised, the row stays, and no waiting list, promise or
    resolution changes. *)
Theorem addJob_type_named_like_an_object_member job s (len : option nat) :
  nextCallServed (repository s) ->
  id job ∉ map _id (rows (repository s)) ->
  lookupRequests (type job) s = Member len ->
  let (r, s') := Queue_addJob job s in
  exists e,
    r = Throw e /\
    rows (repository s') = rows (repository s) ++ [JobRepository.insertDoc job] /\
    emitted s' = emitted s ++ [errorEmission e (Some job)] /\
    dispatchState s' = dispatchState s.
Proof.
  intros Hnext Hfresh Hw. unfold Queue_addJob. rewrite tryCatch_emitAndRethrow.
  unfold bind at 1. unfold liftDb, JobRepository.addJob, db_insert, bind.
  rewrite io_served by done. cbn [served rows].
  rewrite bool_decide_eq_false_2 by done.
  rewrite lookupRequests_setRepository, Hw. qsimpl.
  eexists. by repeat split.
Qed.

(** X30: for such a type [requestJobForProcessing] cannot park.  With the
    mutex free and no inactive job of the type, the promise it returns is
    one whose executor threw at the call of [push] on the member: the
    caller gets the error, which is not emitted; no waiting list changes
    and the mutex is free. *)
Theorem requestJobForProcessing_type_named_like_an_object_member
    (type : string) (sr : World -> bool) s (len : option nat) (ds' : DataStore) :
  mutexLocked s = false ->
  lookupRequests type s = Member len ->
  JobRepository.findInactiveJobByType type (repository s) = (Ok None, ds') ->
  let (r, s') := Queue_requestJobForProcessing type sr s in
  exists e,
    r = Throw e /\
    waitingRequests s' = waitingRequests s /\
    emitted s' = emitted s /\
    mutexLocked s' = false.
Proof.
  intros Hfree Hw Hfind. unfold Queue_requestJobForProcessing, someoneWaiting.
  rewrite Hw.
  assert (forall ds n, lookupRequests type (setRepository ds (setMutex true n s))
                       = lookupRequests type s) as Hsame by done.
  assert (let (r, s') :=
            settle
              (tryFinally
                 (tryCatch (requestUnderMutex type sr) (emitAndRethrow None))
                 (fun s' => setMutex false (mutexAcquired s') s')
                 (setMutex true (S (mutexAcquired s)) s)) in
          exists e,
            r = Throw e /\ waitingRequests s' = waitingRequests s /\
            emitted s' = emitted s /\ mutexLocked s' = false) as Hslow.
  { unfold tryFinally. rewrite tryCatch_emitAndRethrow.
    unfold requestUnderMutex, bind at 1. unfold liftDb. cbn [repository setMutex].
    rewrite Hfind. unfold bind. rewrite Hsame, Hw.
    unfold parkRequest. rewrite Hsame, Hw. cbn. eexists. by repeat split. }
  destruct len as [[|n]|].
  - by rewrite Hfree.
  - unfold parkRequest. rewrite Hw. cbn. eexists. by repeat split.
  - by rewrite Hfree.
Qed.
End QueueExtras.

(** * Further properties of the worker registry *)

Lemma spawned_succ type from n :
  spawned type from (S n) = spawned type from n ++ [mkWorker (from + n) type].
Proof.
  unfold spawned. by rewrite seq_S, map_app.
Qed.

Lemma process_iter type processor n r :
  registryAllocated r ->
  registryAllocated (Nat.iter n (spawn type processor) r) /\
  registered (Nat.iter n (spawn type processor) r)
  = registered r ++ spawned type (created r) n /\
  calls (Nat.iter n (spawn type processor) r)
  = calls r ++ map (fun w => Start w processor) (spawned type (created r) n) /\
  created (Nat.iter n (spawn type processor) r) = (created r + n)%nat.
Proof.
  intros Ha. induction n as [|n (IHa & IHr & IHc & IHn)].
  - cbn. unfold spawned. cbn. by rewrite !app_nil_r, Nat.add_0_r.
  - rewrite Nat.iter_succ.
    destruct (spawn_registered type processor _ IHa) as [Hs Hsa].
    split; [done|]. split; [|split].
    + by rewrite Hs, IHr, IHn, spawned_succ, app_assoc.
    + unfold spawn at 1. cbn [calls]. rewrite IHc, IHn, spawned_succ, map_app.
      by rewrite app_assoc.
    + unfold spawn at 1. cbn [created]. rewrite IHn. lia.
Qed.

(** X25: [process] registers exactly [concurrency] new workers.  When
    [_workers] refers to an array, the registered workers afterwards are
    those before followed by [concurrency] workers of the given type, each
    a new object, and each was started once with the processor, in the
    order of registration; no other call is made on any worker, and a
    concurrency of zero or less changes nothing. *)
Theorem process_registers_concurrency_workers
    (type : string) (processor : nat) (concurrency : Z) (r : Registry) :
  registryAllocated r ->
  let r' := Queue_process type processor concurrency r in
  let new := spawned type (created r) (Z.to_nat concurrency) in
  registered r' = registered r ++ new /\
  calls r' = calls r ++ map (fun w => Start w processor) new /\
  length new = Z.to_nat concurrency /\
  Forall (fun w => worker_type w = type /\ (created r <= worker_id w)%nat) new /\
  NoDup new /\
  (concurrency <= 0 -> observed r' = observed r).
Proof.
  intros Ha r' new.
  destruct (process_iter type processor (Z.to_nat concurrency) r Ha)
    as (_ & Hr & Hc & _).
  fold (Queue_process type processor concurrency r) in Hr, Hc. fold r' in Hr, Hc.
  fold new in Hr, Hc.
  split; [done|]. split; [done|]. split; [|split; [|split]].
  - unfold new, spawned. by rewrite length_map, length_seq.
  - unfold new, spawned. apply Forall_forall. intros w Hw.
    apply list_elem_of_In, in_map_iff in Hw as (k & <- & _). cbn. split; [done|lia].
  - unfold new, spawned. apply NoDup_ListNoDup, Finite.Injective_map_NoDup.
    + intros a b Hab. injection Hab. lia.
    + apply seq_NoDup.
  - intros Hle. unfold observed. rewrite Hr, Hc. unfold new.
    replace (Z.to_nat concurrency) with 0%nat by lia.
    unfold spawned. cbn. by rewrite !app_nil_r.
Qed.

Lemma shutdown_kept_in (type : option string) (all l : list Worker) :
  (forall w, w ∈ l -> w ∈ all) ->
  filter (fun worker => worker ∉ filter (fun worker => targeted type worker = true) all) l
  = filter (fun worker => targeted type worker = false) l.
Proof.
  induction l as [|w l IH]; intros Hsub; [done|].
  assert (filter (fun worker =>
                    worker ∉ filter (fun worker => targeted type worker = true) all) l
          = filter (fun worker => targeted type worker = false) l) as IHl.
  { apply IH. intros x Hx. apply Hsub. by right. }
  destruct (targeted type w) eqn:Ht.
  - rewrite filter_cons_False.
    + by rewrite filter_cons_False by congruence.
    + intros Hnot. apply Hnot. apply list_elem_of_filter. split; [done|].
      apply Hsub. by left.
  - rewrite filter_cons_True.
    + rewrite filter_cons_True by done. by f_equal.
    + intros Hin. apply list_elem_of_filter in Hin as [Ht' _]. congruence.
Qed.

Lemma shutdown_kept (type : option string) (l : list Worker) :
  filter (fun worker => worker ∉ filter (fun worker => targeted type worker = true) l) l
  = filter (fun worker => targeted type worker = false) l.
Proof.
  by apply shutdown_kept_in.
Qed.

(** X26: [shutdown] removes exactly the workers it shuts down.  The
    registered workers afterwards are those of another type, in their
    order; [shutdown] was called once, with the given timeout, on each
    worker of the type, in the order of registration, and on no other; the
    arrays there were before keep their content (the registry is replaced,
    not changed in place).  With the type omitted no worker stays
    registered. *)
Theorem shutdown_removes_the_workers_of_the_type
    (timeoutMilliseconds : Z) (type : option string) (r : Registry) :
  let r' := Queue_shutdown timeoutMilliseconds type r in
  registered r' = filter (fun w => targeted type w = false) (registered r) /\
  calls r' = calls r ++ map (fun w => Shutdown w timeoutMilliseconds)
                            (filter (fun w => targeted type w = true) (registered r)) /\
  (forall ref a, arrays r !! ref = Some a -> arrays r' !! ref = Some a) /\
  (type = None -> registered r' = []).
Proof.
  intros r'.
  assert (registered r' = filter (fun w => targeted type w = false) (registered r)) as Hr.
  { unfold r', Queue_shutdown, registered at 1. cbn.
    by rewrite lookup_insert_eq, shutdown_kept. }
  split; [done|]. split; [done|]. split.
  - intros ref a Href. unfold r', Queue_shutdown. cbn.
    rewrite lookup_insert_ne; [done|].
    intros <-. pose proof (is_fresh (dom (arrays r))) as Hfresh.
    apply not_elem_of_dom in Hfresh. congruence.
  - intros ->. rewrite Hr. clear. generalize (registered r).
    induction l as [|w l IH]; [done|].
    by rewrite filter_cons_False by (cbn; congruence).
Qed.

(** X27: a second [shutdown] for the same type finds nothing to do: it
    makes no call on any worker and leaves the same workers registered. *)
Theorem shutdown_twice (t1 t2 : Z) (type : option string) (r : Registry) :
  observed (Queue_shutdown t2 type (Queue_shutdown t1 type r))
  = observed (Queue_shutdown t1 type r).
Proof.
  rewrite (shutdown_observed t2). rewrite shutdown_kept.
  assert (registered (Queue_shutdown t1 type r)
          = filter (fun w => targeted type w = false) (registered r)) as Hr.
  { unfold Queue_shutdown, registered at 1. cbn.
    by rewrite lookup_insert_eq, shutdown_kept. }
  unfold observed. rewrite Hr.
  assert (forall l : list Worker,
             filter (fun w => targeted type w = true)
                    (filter (fun w => targeted type w = false) l) = []) as Hnone.
  { induction l as [|w l IH]; [done|].
    destruct (targeted type w) eqn:Ht.
    - by rewrite (filter_cons_False (fun w => targeted type w = false)) by congruence.
    - rewrite (filter_cons_True (fun w => targeted type w = false)) by done.
      by rewrite filter_cons_False by congruence. }
  assert (forall l : list Worker,
             filter (fun w => targeted type w = false)
                    (filter (fun w => targeted type w = false) l)
             = filter (fun w => targeted type w = false) l) as Hsame.
  { intros l. by apply list_filter_filter_l. }
  by rewrite Hnone, Hsame, app_nil_r.
Qed.

(** * The further properties at concrete inputs *)

Lemma twoWaiting_uniqueIds : uniqueIds twoWaiting.
Proof. unfold uniqueIds. compute_done. Qed.

(** X3 on the store with jobs "n" and "l". *)
Lemma isExistJob_iff_stored_witness :
  uniqueIds twoWaiting /\
  fst (JobRepository.isExistJob "n" twoWaiting) = Ok true /\
  rows (snd (JobRepository.isExistJob "n" twoWaiting)) = rows twoWaiting.
Proof.
  split; [exact twoWaiting_uniqueIds|].
  destruct (isExistJob_iff_stored "n" twoWaiting twoWaiting_uniqueIds) as [_ Hrows].
  split; [reflexivity|exact Hrows].
Defined.

(** X4 for a fresh job added to the empty store. *)
Lemma addJob_then_findJob_witness :
  JobRepository.addJob freshJob emptyStore
  = (Ok (JobRepository.insertDoc freshJob), snd (JobRepository.addJob freshJob emptyStore)) /\
  nextCallServed (snd (JobRepository.addJob freshJob emptyStore)) /\
  rows (snd (JobRepository.addJob freshJob emptyStore))
  = rows emptyStore ++ [JobRepository.insertDoc freshJob] /\
  fst (JobRepository.findJob (id freshJob) (snd (JobRepository.addJob freshJob emptyStore)))
  = Ok (Some (JobRepository.insertDoc freshJob)) /\
  fst (JobRepository.isExistJob (id freshJob) (snd (JobRepository.addJob freshJob emptyStore)))
  = Ok true.
Proof.
  assert (nextCallServed (snd (JobRepository.addJob freshJob emptyStore))) as Hserved
    by (left; reflexivity).
  split; [reflexivity|]. split; [exact Hserved|].
  exact (proj2 (addJob_then_findJob freshJob emptyStore _ _ eq_refl Hserved)).
Defined.

(** X5 where job "n" is updated to priority HIGH. *)
Lemma updateJob_then_findJob_witness :
  uniqueIds twoWaiting /\
  JobRepository.updateJob (converted (docT "n" Priority.HIGH 1)) twoWaiting
  = (Ok tt, snd (JobRepository.updateJob (converted (docT "n" Priority.HIGH 1)) twoWaiting)) /\
  nextCallServed
    (snd (JobRepository.updateJob (converted (docT "n" Priority.HIGH 1)) twoWaiting)) /\
  exists old,
    old ∈ rows twoWaiting /\ _id old = "n" /\
    rows (snd (JobRepository.updateJob (converted (docT "n" Priority.HIGH 1)) twoWaiting))
    = map (fun d => if bool_decide (_id d = "n")
                    then JobRepository.updateQuery (converted (docT "n" Priority.HIGH 1)) d
                    else d) (rows twoWaiting) /\
    fst (JobRepository.findJob "n"
           (snd (JobRepository.updateJob (converted (docT "n" Priority.HIGH 1)) twoWaiting)))
    = Ok (Some (mkNeDbJob (_id old) (doc_type old) Priority.HIGH None 1 1 None None None
                          (Some INACTIVE) None None [])).
Proof.
  assert (nextCallServed
            (snd (JobRepository.updateJob (converted (docT "n" Priority.HIGH 1)) twoWaiting)))
    as Hserved by (left; reflexivity).
  split; [exact twoWaiting_uniqueIds|]. split; [reflexivity|]. split; [exact Hserved|].
  exact (updateJob_then_findJob (converted (docT "n" Priority.HIGH 1)) twoWaiting _
           twoWaiting_uniqueIds eq_refl Hserved).
Defined.

(** X6 where job "n" is removed. *)
Lemma removeJob_removes_only_that_row_witness :
  uniqueIds twoWaiting /\
  JobRepository.removeJob "n" twoWaiting
  = (Ok tt, snd (JobRepository.removeJob "n" twoWaiting)) /\
  rows (snd (JobRepository.removeJob "n" twoWaiting)) = [docT "l" Priority.LOW 2].
Proof.
  split; [exact twoWaiting_uniqueIds|]. split; [reflexivity|].
  destruct (removeJob_removes_only_that_row "n" twoWaiting _ twoWaiting_uniqueIds eq_refl)
    as (-> & _).
  reflexivity.
Defined.

(** X7 for a look-up. *)
Lemma storage_calls_keep_dispatch_state_witness :
  storageOnly (World:=unit) (CallFindJob "n") /\
  dispatchState (snd (raisedBy (CallFindJob "n") oneParked)) = dispatchState oneParked.
Proof.
  split; [exact I|].
  exact (storage_calls_keep_dispatch_state (CallFindJob "n") oneParked I).
Defined.

(** X9 for job "n". *)
Lemma Queue_findJob_materializes_witness :
  nextCallServed (repository (idle twoWaiting 0)) /\
  fst (Queue_findJob "n" (idle twoWaiting 0))
  = Ok (Some (converted (docT "n" Priority.NORMAL 1))) /\
  emitted (snd (Queue_findJob "n" (idle twoWaiting 0))) = emitted (idle twoWaiting 0).
Proof.
  assert (nextCallServed (repository (idle twoWaiting 0))) as Hserved by (left; reflexivity).
  split; [exact Hserved|]. split; [reflexivity|].
  pose proof (Queue_findJob_materializes "n" (idle twoWaiting 0) Hserved) as H.
  destruct (Queue_findJob "n" (idle twoWaiting 0)) as [r s'].
  exact (proj1 H).
Defined.

(** X10 for an id no row has. *)
Lemma removeJobById_not_found_witness :
  nextCallServed (repository (idle twoWaiting 0)) /\
  ("x" ∉ map _id (rows (repository (idle twoWaiting 0)))) /\
  let (r, s') := Queue_removeJobById "x" (idle twoWaiting 0) in
  r = Throw (mkError ("Job(id:" +:+ "x" +:+ ") is not found.")) /\
  emitted s' = emitted (idle twoWaiting 0) /\
  rows (repository s') = rows (repository (idle twoWaiting 0)) /\
  oplog (repository s') = oplog (repository (idle twoWaiting 0)) ++ [OpFindOne].
Proof.
  assert (nextCallServed (repository (idle twoWaiting 0))) as Hserved by (left; reflexivity).
  assert ("x" ∉ map _id (rows (repository (idle twoWaiting 0)))) as Hnot by compute_done.
  split; [exact Hserved|]. split; [exact Hnot|].
  exact (removeJobById_not_found "x" (idle twoWaiting 0) Hserved Hnot).
Defined.

(** X11 for job "n". *)
Lemma removeJobById_removes_the_row_witness :
  faults (repository (idle twoWaiting 0)) = [] /\
  uniqueIds (repository (idle twoWaiting 0)) /\
  ("n" ∈ map _id (rows (repository (idle twoWaiting 0)))) /\
  let (r, s') := Queue_removeJobById "n" (idle twoWaiting 0) in
  r = Ok tt /\
  rows (repository s')
  = filter (fun d => _id d <> "n") (rows (repository (idle twoWaiting 0))) /\
  ("n" ∉ map _id (rows (repository s'))).
Proof.
  assert ("n" ∈ map _id (rows (repository (idle twoWaiting 0)))) as Hin by compute_done.
  split; [reflexivity|]. split; [exact twoWaiting_uniqueIds|]. split; [exact Hin|].
  exact (removeJobById_removes_the_row "n" (idle twoWaiting 0) eq_refl
           twoWaiting_uniqueIds Hin).
Defined.

(** X12 on a queue over the empty store. *)
Lemma requestJobForProcessing_parks_without_candidate_witness :
  mutexLocked (idle emptyStore 0) = false /\
  (lookupRequests "T" (idle emptyStore 0) = Undefined \/
   lookupRequests "T" (idle emptyStore 0) = Requests []) /\
  JobRepository.findInactiveJobByType "T" (repository (idle emptyStore 0))
  = (Ok None, served OpFind [] emptyStore) /\
  let (r, s') := Queue_requestJobForProcessing "T" eager (idle emptyStore 0) in
  r = Ok (Parked (promises (idle emptyStore 0))) /\
  waitingRequests s' !! "T" = Some [mkRequest (promises (idle emptyStore 0)) eager] /\
  promises s' = S (promises (idle emptyStore 0)) /\
  rows (repository s') = rows (repository (idle emptyStore 0)) /\
  emitted s' = emitted (idle emptyStore 0) /\
  nextTick s' = nextTick (idle emptyStore 0) /\
  resolved s' = resolved (idle emptyStore 0) /\
  mutexLocked s' = false /\
  mutexAcquired s' = S (mutexAcquired (idle emptyStore 0)).
Proof.
  split; [reflexivity|]. split; [left; reflexivity|]. split; [reflexivity|].
  exact (requestJobForProcessing_parks_without_candidate "T" eager (idle emptyStore 0)
           (served OpFind [] emptyStore) eq_refl (or_introl eq_refl) eq_refl).
Defined.

(** X13 on a queue over a store whose next call fails. *)
Lemma requestJobForProcessing_releases_mutex_witness :
  mutexLocked (idle failingStore 0) = false /\
  fst (Queue_requestJobForProcessing "T" eager (idle failingStore 0)) = Throw EIO /\
  mutexLocked (snd (Queue_requestJobForProcessing "T" eager (idle failingStore 0))) = false.
Proof.
  split; [reflexivity|]. split; [reflexivity|].
  exact (proj1 (requestJobForProcessing_releases_mutex "T" eager (idle failingStore 0)
                  eq_refl)).
Defined.

(** X15 for a fresh job on a queue where nobody ever waited. *)
Lemma addJob_without_waiting_list_witness :
  nextCallServed (repository (idle emptyStore 0)) /\
  (id freshJob ∉ map _id (rows (repository (idle emptyStore 0)))) /\
  lookupRequests (type freshJob) (idle emptyStore 0) = Undefined /\
  let (r, s') := Queue_addJob freshJob (idle emptyStore 0) in
  r = Ok tt /\
  rows (repository s')
  = rows (repository (idle emptyStore 0)) ++ [JobRepository.insertDoc freshJob] /\
  doc_state (JobRepository.insertDoc freshJob) = Some (state freshJob) /\
  oplog (repository s') = oplog (repository (idle emptyStore 0)) ++ [OpInsert (id freshJob)] /\
  dispatchState s' = dispatchState (idle emptyStore 0) /\
  emitted s' = emitted (idle emptyStore 0).
Proof.
  assert (nextCallServed (repository (idle emptyStore 0))) as Hserved by (left; reflexivity).
  assert (id freshJob ∉ map _id (rows (repository (idle emptyStore 0)))) as Hnot
    by compute_done.
  split; [exact Hserved|]. split; [exact Hnot|]. split; [reflexivity|].
  exact (addJob_without_waiting_list freshJob (idle emptyStore 0) Hserved Hnot eq_refl).
Defined.

(** X16 for a job whose id is the one of a stored row. *)
Lemma addJob_id_collision_witness :
  nextCallServed (repository (idle twoWaiting 0)) /\
  (id (converted (docT "n" Priority.HIGH 5)) ∈ map _id (rows (repository (idle twoWaiting 0)))) /\
  let (r, s') := Queue_addJob (converted (docT "n" Priority.HIGH 5)) (idle twoWaiting 0) in
  r = Throw (uniqueViolated (id (converted (docT "n" Priority.HIGH 5)))) /\
  rows (repository s') = rows (repository (idle twoWaiting 0)) /\
  dispatchState s' = dispatchState (idle twoWaiting 0) /\
  emitted s' = emitted (idle twoWaiting 0)
               ++ [errorEmission (uniqueViolated (id (converted (docT "n" Priority.HIGH 5))))
                                 (Some (converted (docT "n" Priority.HIGH 5)))].
Proof.
  assert (nextCallServed (repository (idle twoWaiting 0))) as Hserved by (left; reflexivity).
  assert (id (converted (docT "n" Priority.HIGH 5))
          ∈ map _id (rows (repository (idle twoWaiting 0)))) as Hin by compute_done.
  split; [exact Hserved|]. split; [exact Hin|].
  exact (addJob_id_collision (converted (docT "n" Priority.HIGH 5)) (idle twoWaiting 0)
           Hserved Hin).
Defined.

(** X17 where the insert is served and the update after it fails: the
    second request, taken off the list, is lost; the third stays parked. *)
Lemma addJob_failure_loses_the_request_witness :
  JobRepository.addJob freshJob (repository parkedOverFailing)
  = (Ok (JobRepository.insertDoc freshJob),
     snd (JobRepository.addJob freshJob (repository parkedOverFailing))) /\
  (waitingRequests parkedOverFailing !! type freshJob
   = Some ([mkRequest 0%nat gone] ++ mkRequest 1%nat eager :: [mkRequest 2%nat eager])) /\
  Forall (fun r => stillRequest r (world parkedOverFailing) = false) [mkRequest 0%nat gone] /\
  stillRequest (mkRequest 1%nat eager) (world parkedOverFailing) = true /\
  Queue_addJob freshJob parkedOverFailing
  = (Throw EIO, snd (Queue_addJob freshJob parkedOverFailing)) /\
  waitingRequests (snd (Queue_addJob freshJob parkedOverFailing)) !! type freshJob
  = Some [mkRequest 2%nat eager] /\
  nextTick (snd (Queue_addJob freshJob parkedOverFailing)) = nextTick parkedOverFailing /\
  resolved (snd (Queue_addJob freshJob parkedOverFailing)) = resolved parkedOverFailing /\
  promises (snd (Queue_addJob freshJob parkedOverFailing)) = promises parkedOverFailing.
Proof.
  assert (Forall (fun r => stillRequest r (world parkedOverFailing) = false)
                 [mkRequest 0%nat gone]) as Hskipped
    by (constructor; [reflexivity|constructor]).
  split; [reflexivity|]. split; [reflexivity|]. split; [exact Hskipped|].
  split; [reflexivity|]. split; [reflexivity|].
  exact (addJob_failure_loses_the_request freshJob parkedOverFailing
           [mkRequest 0%nat gone] [mkRequest 2%nat eager] (mkRequest 1%nat eager)
           _ _ EIO _ eq_refl eq_refl Hskipped eq_refl eq_refl).
Defined.

(** X18 on the store with two waiting jobs. *)
Lemma createQueue_without_active_jobs_witness :
  faults twoWaiting = [] /\
  (forall d, d ∈ rows twoWaiting -> doc_state d <> Some ACTIVE) /\
  let (r, q) := Queue_createQueue twoWaiting 9 [] tt in
  r = Ok tt /\
  rows (repository q) = rows twoWaiting /\
  oplog (repository q) = oplog twoWaiting ++ [OpLoad; OpFind] /\
  emitted q = [] /\
  waitingRequests q = ∅.
Proof.
  assert (forall d, d ∈ rows twoWaiting -> doc_state d <> Some ACTIVE) as Hnone.
  { intros d Hd.
    apply elem_of_cons in Hd as [->|Hd]; [discriminate|].
    apply elem_of_cons in Hd as [->|Hd]; [discriminate|].
    by apply elem_of_nil in Hd. }
  split; [reflexivity|]. split; [exact Hnone|].
  exact (createQueue_without_active_jobs twoWaiting 9 [] tt eq_refl Hnone).
Defined.

Lemma crashed_uniqueIds : uniqueIds crashed.
Proof. unfold uniqueIds. compute_done. Qed.

(** X20 at the store a crash left with A running. *)
Lemma createQueue_twice_witness :
  faults crashed = [] /\
  uniqueIds crashed /\
  let recovered := repository (snd (Queue_createQueue crashed 10 [] tt)) in
  let (r, q) := Queue_createQueue recovered 20 [] tt in
  r = Ok tt /\
  rows (repository q) = rows recovered /\
  emitted q = [].
Proof.
  split; [reflexivity|]. split; [exact crashed_uniqueIds|].
  exact (createQueue_twice crashed 10 20 [] [] tt tt eq_refl crashed_uniqueIds).
Defined.

(** X21 for a predicate that accepts job "n" only. *)
Lemma removeJobsByCallback_returns_the_removed_witness :
  uniqueIds (repository (idle twoWaiting 0)) /\
  Queue_removeJobsByCallback onlyN (idle twoWaiting 0)
  = (Ok [converted (docT "n" Priority.NORMAL 1)],
     snd (Queue_removeJobsByCallback onlyN (idle twoWaiting 0))) /\
  [converted (docT "n" Priority.NORMAL 1)]
  = accepted onlyN (listed None (rows (repository (idle twoWaiting 0)))) /\
  rows (repository (snd (Queue_removeJobsByCallback onlyN (idle twoWaiting 0))))
  = filter (fun d => _id d ∉ map id [converted (docT "n" Priority.NORMAL 1)])
           (rows (repository (idle twoWaiting 0))).
Proof.
  split; [exact twoWaiting_uniqueIds|]. split; [reflexivity|].
  exact (removeJobsByCallback_returns_the_removed onlyN (idle twoWaiting 0) _ _
           twoWaiting_uniqueIds eq_refl).
Defined.

(** X22 where two jobs wait: the LOW one is claimed, and the next fetch
    finds another job. *)
Lemma requestJobForProcessing_claims_once_witness :
  mutexLocked (idle twoWaiting 5) = false /\
  someoneWaiting "T" (idle twoWaiting 5) = false /\
  faults (repository (idle twoWaiting 5)) = [] /\
  uniqueIds (repository (idle twoWaiting 5)) /\
  JobRepository.findInactiveJobByType "T" (repository (idle twoWaiting 5))
  = (Ok (Some (docT "l" Priority.LOW 2)), served OpFind (rows twoWaiting) twoWaiting) /\
  eager (world (idle twoWaiting 5)) = true /\
  let (r, s') := Queue_requestJobForProcessing "T" eager (idle twoWaiting 5) in
  exists job,
    r = Ok (Returned (Some job)) /\
    id job = _id (docT "l" Priority.LOW 2) /\ state job = ACTIVE /\
    startedAt job = Some (clock (idle twoWaiting 5)) /\
    rows (repository s') =
      map (fun x => if bool_decide (_id x = _id (docT "l" Priority.LOW 2))
                    then JobRepository.updateQuery job x else x)
          (rows (repository (idle twoWaiting 5))) /\
    mutexLocked s' = false /\
    forall d2 ds2,
      JobRepository.findInactiveJobByType "T" (repository s') = (Ok (Some d2), ds2) ->
      _id d2 <> _id (docT "l" Priority.LOW 2).
Proof.
  split; [reflexivity|]. split; [reflexivity|]. split; [reflexivity|].
  split; [exact twoWaiting_uniqueIds|]. split; [reflexivity|]. split; [reflexivity|].
  exact (requestJobForProcessing_claims_once "T" eager (idle twoWaiting 5)
           (docT "l" Priority.LOW 2) (served OpFind (rows twoWaiting) twoWaiting)
           eq_refl eq_refl eq_refl twoWaiting_uniqueIds eq_refl eq_refl).
Defined.

(** X23 on a queue over the empty store: two workers ask, then a job is
    created. *)
Lemma parked_requests_first_come_first_served_witness :
  mutexLocked (idle emptyStore 7) = false /\
  (lookupRequests (type freshJob) (idle emptyStore 7) = Undefined \/
   lookupRequests (type freshJob) (idle emptyStore 7) = Requests []) /\
  faults (repository (idle emptyStore 7)) = [] /\
  JobRepository.findInactiveJobByType (type freshJob) (repository (idle emptyStore 7))
  = (Ok None, served OpFind [] emptyStore) /\
  (id freshJob ∉ map _id (rows (repository (idle emptyStore 7)))) /\
  state freshJob = INACTIVE /\
  eager (world (idle emptyStore 7)) = true /\
  let run1 := Queue_requestJobForProcessing (type freshJob) eager (idle emptyStore 7) in
  let run2 := Queue_requestJobForProcessing (type freshJob) eager (snd run1) in
  let run3 := Queue_addJob freshJob (snd run2) in
  fst run1 = Ok (Parked (promises (idle emptyStore 7))) /\
  fst run2 = Ok (Parked (S (promises (idle emptyStore 7)))) /\
  fst run3 = Ok tt /\
  (exists activeJob,
      id activeJob = id freshJob /\ state activeJob = ACTIVE /\
      nextTick (snd run3)
      = nextTick (idle emptyStore 7) ++ [(promises (idle emptyStore 7), activeJob)]) /\
  waitingRequests (snd run3) !! type freshJob
  = Some [mkRequest (S (promises (idle emptyStore 7))) eager].
Proof.
  assert (id freshJob ∉ map _id (rows (repository (idle emptyStore 7)))) as Hnot
    by compute_done.
  split; [reflexivity|]. split; [left; reflexivity|]. split; [reflexivity|].
  split; [reflexivity|]. split; [exact Hnot|]. split; [reflexivity|]. split; [reflexivity|].
  exact (parked_requests_first_come_first_served eager eager (idle emptyStore 7) freshJob
           (served OpFind [] emptyStore)
           eq_refl (or_introl eq_refl) eq_refl eq_refl Hnot eq_refl eq_refl).
Defined.

(** X24 for a job of type "T" created with the priority 7, which is none of
    the known values. *)
Lemma createJob_then_findJob_witness :
  faults (repository (idle emptyStore 7)) = [] /\
  uuids (idle emptyStore 7) = "id-1" :: ["id-2"] /\
  ("id-1" ∉ map _id (rows (repository (idle emptyStore 7)))) /\
  lookupRequests "T" (idle emptyStore 7) = Undefined /\
  let (r, s1) := Queue_createJob (mkCreateJobData "T" (Some 7) None) (idle emptyStore 7) in
  exists job,
    r = Ok job /\
    job = mkJob "id-1" "T" (sanitized (default Priority.NORMAL (Some 7))) None 7 7
                None None None INACTIVE None None [] true /\
    fst (Queue_findJob "id-1" s1) = Ok (Some job).
Proof.
  assert ("id-1" ∉ map _id (rows (repository (idle emptyStore 7)))) as Hnot by compute_done.
  split; [reflexivity|]. split; [reflexivity|]. split; [exact Hnot|].
  split; [reflexivity|].
  exact (createJob_then_findJob (mkCreateJobData "T" (Some 7) None) (idle emptyStore 7)
           "id-1" ["id-2"] eq_refl eq_refl Hnot eq_refl).
Defined.

(** X25 for two workers of type "T" on a new registry. *)
Lemma process_registers_concurrency_workers_witness :
  registryAllocated Registry_new /\
  registered (Queue_process "T" 0 2 Registry_new) = [mkWorker 0 "T"; mkWorker 1 "T"] /\
  calls (Queue_process "T" 0 2 Registry_new)
  = [Start (mkWorker 0 "T") 0; Start (mkWorker 1 "T") 0].
Proof.
  assert (registryAllocated Registry_new) as Halloc by (eexists; reflexivity).
  split; [exact Halloc|].
  destruct (process_registers_concurrency_workers "T" 0 2 Registry_new Halloc)
    as (Hr & Hc & _).
  split; [exact Hr|exact Hc].
Defined.

(** X28 on a queue over a store whose next call fails. *)
Lemma isExistJob_raises_without_event_witness :
  faults (repository (idle failingStore 0)) = Some EIO :: [] /\
  let (r, s') := Queue_isExistJob freshJob (idle failingStore 0) in
  r = Throw EIO /\
  emitted s' = emitted (idle failingStore 0) /\
  rows (repository s') = rows (repository (idle failingStore 0)) /\
  fst (Queue_findJob (id freshJob) (idle failingStore 0)) = Throw EIO /\
  emitted (snd (Queue_findJob (id freshJob) (idle failingStore 0)))
  = emitted (idle failingStore 0) ++ [errorEmission EIO None].
Proof.
  split; [reflexivity|].
  exact (isExistJob_raises_without_event freshJob (idle failingStore 0) EIO [] eq_refl).
Defined.

(** X29 for a job of type "constructor". *)
Lemma addJob_type_named_like_an_object_member_witness :
  nextCallServed (repository (idle emptyStore 0)) /\
  (id constructorJob ∉ map _id (rows (repository (idle emptyStore 0)))) /\
  lookupRequests (type constructorJob) (idle emptyStore 0) = Member (Some 1%nat) /\
  let (r, s') := Queue_addJob constructorJob (idle emptyStore 0) in
  exists e,
    r = Throw e /\
    rows (repository s')
    = rows (repository (idle emptyStore 0)) ++ [JobRepository.insertDoc constructorJob] /\
    emitted s' = emitted (idle emptyStore 0) ++ [errorEmission e (Some constructorJob)] /\
    dispatchState s' = dispatchState (idle emptyStore 0).
Proof.
  assert (nextCallServed (repository (idle emptyStore 0))) as Hserved by (left; reflexivity).
  assert (id constructorJob ∉ map _id (rows (repository (idle emptyStore 0)))) as Hnot
    by compute_done.
  split; [exact Hserved|]. split; [exact Hnot|]. split; [reflexivity|].
  exact (addJob_type_named_like_an_object_member constructorJob (idle emptyStore 0)
           (Some 1%nat) Hserved Hnot eq_refl).
Defined.

(** X30 for the type "toString", where the call takes the mutex, and for the
    type "constructor", where it does not. *)
Lemma requestJobForProcessing_type_named_like_an_object_member_witness :
  mutexLocked (idle emptyStore 0) = false /\
  lookupRequests "toString" (idle emptyStore 0) = Member (Some 0%nat) /\
  JobRepository.findInactiveJobByType "toString" (repository (idle emptyStore 0))
  = (Ok None, served OpFind [] emptyStore) /\
  mutexAcquired (snd (Queue_requestJobForProcessing "toString" eager (idle emptyStore 0)))
  = 1%nat /\
  mutexAcquired (snd (Queue_requestJobForProcessing "constructor" eager (idle emptyStore 0)))
  = 0%nat /\
  let (r, s') := Queue_requestJobForProcessing "toString" eager (idle emptyStore 0) in
  exists e,
    r = Throw e /\
    waitingRequests s' = waitingRequests (idle emptyStore 0) /\
    emitted s' = emitted (idle emptyStore 0) /\
    mutexLocked s' = false.
Proof.
  split; [reflexivity|]. split; [reflexivity|]. split; [reflexivity|].
  split; [reflexivity|]. split; [reflexivity|].
  exact (requestJobForProcessing_type_named_like_an_object_member "toString" eager
           (idle emptyStore 0) (Some 0%nat) (served OpFind [] emptyStore)
           eq_refl eq_refl eq_refl).
Defined.
